(** * Canvas.py: a layered raster compositor with a timing tree

    A shallow embedding of [src/Canvas.py] and the properties its
    specification states about it.

    Conventions of the embedding:
    - a Python [str] is the list of its code points ([str]); literals are
      written as UTF-8 text and decoded by [py];
    - a Python [int] is a [Z]; a Python [float] is an IEEE-754 binary64 value
      ([spec_float] at precision 53, [emax] 1024);
    - a call that can raise returns a [result]; code that mutates an object
      threads the object (or the store it lives in) explicitly. *)

From Stdlib Require Import ZArith NArith List String Ascii Bool Lia Sorted Zpower.
From Stdlib Require Import Floats.SpecFloat.
From stdpp Require Import base option list gmap.

Local Open Scope Z_scope.

(** ** Exceptions and results *)

(** The exception classes the modelled code can raise. *)
Inductive exn : Type :=
| ZeroDivisionError
| IndexError
| ValueError
| OverflowError
| RecursionError
| KeyError.

Definition exn_name (e : exn) : string :=
  match e with
  | ZeroDivisionError => "ZeroDivisionError"
  | IndexError => "IndexError"
  | ValueError => "ValueError"
  | OverflowError => "OverflowError"
  | RecursionError => "RecursionError"
  | KeyError => "KeyError"
  end.

Inductive result (A : Type) : Type :=
| Ok (a : A)
| Raise (e : exn).
Arguments Ok {A} a.
Arguments Raise {A} e.

#[global] Instance result_ret : MRet result := fun A a => Ok a.

#[global] Instance result_bind : MBind result := fun A B k r =>
  match r with
  | Ok a => k a
  | Raise e => Raise e
  end.

Definition returns {A : Type} (r : result A) : Prop := exists a, r = Ok a.

(** Code that mutates an object of type [S] and may raise: the outcome and
    the object as the call leaves it (an exception keeps the mutations made
    before it was raised). *)
Definition prog (S A : Type) : Type := S -> result A * S.

#[global] Instance prog_ret (S : Type) : MRet (prog S) := fun A a s => (Ok a, s).

#[global] Instance prog_bind (S : Type) : MBind (prog S) := fun A B k m s =>
  match m s with
  | (Ok a, s') => k a s'
  | (Raise e, s') => (Raise e, s')
  end.

(** A pure computation, which may raise, inside [prog]. *)
Definition lift {S A : Type} (r : result A) : prog S A := fun s => (r, s).

Definition get {S : Type} : prog S S := fun s => (Ok s, s).
Definition put {S : Type} (s : S) : prog S unit := fun _ => (Ok tt, s).
Definition modify {S : Type} (f : S -> S) : prog S unit := fun s => (Ok tt, f s).

(** ** Python strings *)

Definition str : Type := list N.

Definition byte_list (s : string) : list N :=
  map (fun b => N_of_ascii b) (list_ascii_of_string s).

(** UTF-8 decoding of a literal (one to three bytes per code point, which
    covers the box-drawing characters of [Log.report]). *)
Fixpoint utf8_decode (fuel : nat) (bs : list N) : str :=
  match fuel with
  | O => nil
  | S fuel' =>
      match bs with
      | nil => nil
      | b0 :: r0 =>
          if (b0 <? 128)%N then b0 :: utf8_decode fuel' r0
          else if (b0 <? 224)%N then
            match r0 with
            | b1 :: r1 =>
                (((b0 - 192) * 64) + (b1 - 128))%N :: utf8_decode fuel' r1
            | nil => nil
            end
          else
            match r0 with
            | b1 :: b2 :: r2 =>
                (((b0 - 224) * 4096) + ((b1 - 128) * 64) + (b2 - 128))%N
                  :: utf8_decode fuel' r2
            | _ => nil
            end
      end
  end.

Definition py (s : string) : str :=
  let bs := byte_list s in utf8_decode (List.length bs) bs.

(** [s[i:j]] for [0 <= i <= j]. *)
Definition slice (s : str) (i j : nat) : str := firstn (j - i) (skipn i s).

(** [s.replace(old, new)] where [old] is one character. *)
Fixpoint replace_char (old : N) (new : str) (s : str) : str :=
  match s with
  | nil => nil
  | c :: s' =>
      if (c =? old)%N then new ++ replace_char old new s'
      else c :: replace_char old new s'
  end.

(** ** [int(s, 16)] *)

Definition hex_value (c : N) : option Z :=
  if ((48 <=? c) && (c <=? 57))%N then Some (Z.of_N c - 48)
  else if ((97 <=? c) && (c <=? 102))%N then Some (Z.of_N c - 87)
  else if ((65 <=? c) && (c <=? 70))%N then Some (Z.of_N c - 55)
  else None.

Definition is_space (c : N) : bool :=
  ((9 <=? c) && (c <=? 13) || (c =? 32))%N.

Fixpoint lstrip (s : str) : str :=
  match s with
  | c :: s' => if is_space c then lstrip s' else s
  | nil => nil
  end.

Definition strip (s : str) : str := rev (lstrip (rev (lstrip s))).

(** Digits with single underscores between them, most significant first;
    [acc] is the value read so far and [after_digit] tells whether the
    previous character was a digit. *)
Fixpoint hex_digits (acc : Z) (after_digit : bool) (s : str) : option Z :=
  match s with
  | nil => if after_digit then Some acc else None
  | c :: s' =>
      if (c =? 95)%N then
        if after_digit then hex_digits acc false s' else None
      else
        match hex_value c with
        | Some d => hex_digits (16 * acc + d) true s'
        | None => None
        end
  end.

Definition hex_body (s : str) : option Z :=
  match s with
  | 48%N :: x :: s' =>
      if ((x =? 120) || (x =? 88))%N then
        match s' with
        | 95%N :: s'' => hex_digits 0 false s''
        | _ => hex_digits 0 false s'
        end
      else hex_digits 0 false s
  | _ => hex_digits 0 false s
  end.

(** [int(s, 16)] on the ASCII part of Python's grammar: surrounding
    whitespace, an optional sign, an optional [0x] prefix, hexadecimal digits
    of either case with single underscores between them.  CPython also
    accepts the decimal digits and spaces of other scripts; those strings are
    reported as [ValueError] here. *)
Definition int16 (s : str) : result Z :=
  let body :=
    match strip s with
    | 43%N :: s' => hex_body s'
    | 45%N :: s' => option_map Z.opp (hex_body s')
    | s' => hex_body s'
    end in
  match body with
  | Some z => Ok z
  | None => Raise ValueError
  end.

(** ** ['{:02x}'.format(n)] for an [int] *)

Definition hex_char (d : Z) : N :=
  if d <? 10 then Z.to_N (48 + d) else Z.to_N (87 + d).

(** The lowercase hexadecimal digits of a positive number, most significant
    first. *)
Fixpoint pos_hex (fuel : nat) (n : Z) (acc : str) : str :=
  match fuel with
  | O => acc
  | S fuel' =>
      if n <? 16 then hex_char n :: acc
      else pos_hex fuel' (n / 16) (hex_char (n mod 16) :: acc)
  end.

Definition hex_of_nonneg (n : Z) : str := pos_hex (S (Z.to_nat (Z.log2 n))) n nil.

Definition format_02x (n : Z) : str :=
  if n <? 0 then 45%N :: hex_of_nonneg (- n)
  else
    let ds := hex_of_nonneg n in
    match ds with
    | _ :: nil => 48%N :: ds
    | _ => ds
    end.

(** ** Python floats *)

Definition float : Type := spec_float.
Definition prec : Z := 53.
Definition emax : Z := 1024.

Definition fadd : float -> float -> float := SFadd prec emax.
Definition fsub : float -> float -> float := SFsub prec emax.
Definition fmul : float -> float -> float := SFmul prec emax.
Definition fdiv : float -> float -> float := SFdiv prec emax.
Definition fleb : float -> float -> bool := SFleb.
Definition fvalid : float -> bool := valid_binary prec emax.

(** The conversion of an [int] operand in mixed arithmetic: the nearest
    float, [OverflowError] when there is none. *)
Definition float_of_int (n : Z) : result float :=
  match binary_normalize prec emax n 0 false with
  | S754_infinity _ => Raise OverflowError
  | f => Ok f
  end.

Definition fzero : float := S754_zero false.
Definition fone : float := binary_normalize prec emax 1 0 false.

(** The float nearest to [m * 10 ^ e], for writing decimal literals
    ([m] below [2 ^ 53] and [- 22 <= e]). *)
Definition decimal (m : Z) (e : Z) : float :=
  if 0 <=? e then binary_normalize prec emax (m * 10 ^ e) 0 false
  else fdiv (binary_normalize prec emax m 0 false)
            (binary_normalize prec emax (10 ^ (- e)) 0 false).

(** [int(x)]: truncation towards zero. *)
Definition int_of_float (x : float) : result Z :=
  match x with
  | S754_nan => Raise ValueError
  | S754_infinity _ => Raise OverflowError
  | S754_zero _ => Ok 0
  | S754_finite s m e => Ok (cond_Zopp s (Z.shiftl (Z.pos m) e))
  end.

(** [math.floor(x)]: the largest integer not above [x]. *)
Definition floor_of_float (x : float) : result Z :=
  match x with
  | S754_nan => Raise ValueError
  | S754_infinity _ => Raise OverflowError
  | S754_zero _ => Ok 0
  | S754_finite s m e => Ok (Z.shiftl (cond_Zopp s (Z.pos m)) e)
  end.

(** *** [round(x, 3)] and [repr(x)]

    Both are defined on the exact value of the float, a fraction of two
    integers, as CPython computes them (correctly rounded in both
    directions). *)

(** The value of [S754_finite _ m e] as numerator and denominator. *)
Definition ratio_of (m : positive) (e : Z) : Z * Z :=
  if 0 <=? e then (Z.pos m * 2 ^ e, 1) else (Z.pos m, 2 ^ (- e)).

(** [n / d] rounded to the nearest integer, halves to even ([0 <= n], [0 < d]). *)
Definition div_half_even (n d : Z) : Z :=
  let q := n / d in
  match (2 * (n mod d) ?= d) with
  | Lt => q
  | Gt => q + 1
  | Eq => if Z.even q then q else q + 1
  end.

(** The float nearest to [n / d], with sign [s] ([0 <= n], [0 < d]). *)
Definition float_of_ratio (s : bool) (n d : Z) : float :=
  match n, d with
  | Z.pos pn, Z.pos pd => SFdiv prec emax (S754_finite s pn 0) (S754_finite false pd 0)
  | Z0, _ => S754_zero s
  | _, _ => S754_nan
  end.

(** [round(x, ndigits)] for [0 <= ndigits]: the decimal with [ndigits]
    places nearest to [x], read back as a float. *)
Definition round_ndigits (x : float) (ndigits : Z) : float :=
  match x with
  | S754_finite s m e =>
      let '(n, d) := ratio_of m e in
      float_of_ratio s (div_half_even (n * 10 ^ ndigits) d) (10 ^ ndigits)
  | _ => x
  end.

(** The decimal digits of a natural number, most significant first. *)
Fixpoint dec_digits (fuel : nat) (n : Z) (acc : str) : str :=
  match fuel with
  | O => acc
  | S fuel' =>
      if n <? 10 then Z.to_N (48 + n) :: acc
      else dec_digits fuel' (n / 10) (Z.to_N (48 + n mod 10) :: acc)
  end.

Definition str_of_nat (n : Z) : str := dec_digits (S (Z.to_nat (Z.log2 n))) n nil.

(** The [k] with [10 ^ k <= n / d < 10 ^ (k + 1)], found by stepping up
    from a lower bound. *)
Fixpoint log10_from (fuel : nat) (k : Z) (n d : Z) : Z :=
  match fuel with
  | O => k
  | S fuel' =>
      let up := if 0 <=? k + 1 then n <? d * 10 ^ (k + 1) else n * 10 ^ (- (k + 1)) <? d in
      if up then k else log10_from fuel' (k + 1) n d
  end.

(** The lower bound comes from the binary exponent [b] of the value
    ([2 ^ b <= n / d < 2 ^ (b + 1)]) and [log10 2 = 0.30103...]. *)
Definition log10_floor (b : Z) (n d : Z) : Z :=
  log10_from 4 (b * 30103 / 100000 - 1) n d.

(** [n / d] scaled by [10 ^ (- q)], as a fraction. *)
Definition scaled (n d q : Z) : Z * Z :=
  if 0 <=? q then (n, d * 10 ^ q) else (n * 10 ^ (- q), d).

(** The float nearest to [c * 10 ^ q]. *)
Definition float_of_decimal (s : bool) (c q : Z) : float :=
  if 0 <=? q then float_of_ratio s (c * 10 ^ q) 1 else float_of_ratio s c (10 ^ (- q)).

Definition same_float (a b : float) : bool :=
  match a, b with
  | S754_finite s m e, S754_finite s' m' e' => Bool.eqb s s' && Pos.eqb m m' && Z.eqb e e'
  | S754_zero s, S754_zero s' => Bool.eqb s s'
  | S754_infinity s, S754_infinity s' => Bool.eqb s s'
  | S754_nan, S754_nan => true
  | _, _ => false
  end.

(** The shortest decimal that reads back as [x]: for [k = 1, 2, ...]
    significant digits, the two [k]-digit decimals around [x], the nearer
    one first; the result is the coefficient and the exponent [q] of its last
    digit. *)
Fixpoint shortest_from (fuel : nat) (k : Z) (x : float) (n d p : Z) : Z * Z :=
  let q := p - k + 1 in
  let '(n', d') := scaled n d q in
  let lo := n' / d' in
  let hi := lo + 1 in
  let first :=
    match (2 * (n' mod d') ?= d') with
    | Lt => lo
    | Gt => hi
    | Eq => if Z.even lo then lo else hi
    end in
  let second := if first =? lo then hi else lo in
  let reads c := same_float (float_of_decimal false c q) (SFabs x) in
  match fuel with
  | O => (first, q)
  | S fuel' =>
      if reads first then (first, q)
      else if reads second then (second, q)
      else shortest_from fuel' (k + 1) x n d p
  end.

(** Trailing zeros of the coefficient move into the exponent. *)
Fixpoint strip_zeros (fuel : nat) (c q : Z) : Z * Z :=
  match fuel with
  | O => (c, q)
  | S fuel' => if (c mod 10 =? 0) && (0 <? c) then strip_zeros fuel' (c / 10) (q + 1) else (c, q)
  end.

Definition zeros (k : Z) : str := repeat 48%N (Z.to_nat k).

(** [repr(x)], which is also [str(x)] and what an f-string shows. *)
Definition float_repr (x : float) : str :=
  match x with
  | S754_nan => py "nan"
  | S754_infinity s => if s then py "-inf" else py "inf"
  | S754_zero s => if s then py "-0.0" else py "0.0"
  | S754_finite s m e =>
      let '(n, d) := ratio_of m e in
      let p := log10_floor (Z.pos (digits2_pos m) + e - 1) n d in
      let '(c0, q0) := shortest_from 17 1 x n d p in
      let '(c, q) := strip_zeros 20 c0 q0 in
      let ds := str_of_nat c in
      let nd := Z.of_nat (List.length ds) in
      let decpt := nd + q in
      let body :=
        if (decpt <=? - 4) || (16 <? decpt) then
          let ex := decpt - 1 in
          let mant := match ds with
                      | d1 :: nil => d1 :: nil
                      | d1 :: rest => d1 :: 46%N :: rest
                      | nil => nil
                      end in
          let exs := str_of_nat (Z.abs ex) in
          mant ++ py "e" ++ (if ex <? 0 then py "-" else py "+")
               ++ (match exs with _ :: nil => 48%N :: exs | _ => exs end)
        else if decpt <=? 0 then py "0." ++ zeros (- decpt) ++ ds
        else if nd <=? decpt then ds ++ zeros (decpt - nd) ++ py ".0"
        else firstn (Z.to_nat decpt) ds ++ py "." ++ skipn (Z.to_nat decpt) ds
      in
      (if s then py "-" else nil) ++ body
  end.

(** [sum(xs)] of floats: the running total starts from [0] and each item is
    added in turn, each addition rounded (CPython before 3.12; later versions
    carry a correction term, which changes nothing when the additions are
    exact, as in every sum evaluated below). *)
Definition float_sum (xs : list float) : float := fold_left fadd xs fzero.

(** ** Color *)

Record Color : Type := mkColor {
  red : Z;
  green : Z;
  blue : Z;
  alpha : float
}.

(** The [rgb] property and its setter. *)
Definition rgb (c : Color) : Z * Z * Z := (red c, green c, blue c).

Definition rgb_set (value : Z * Z * Z) (c : Color) : Color :=
  mkColor value.1.1 value.1.2 value.2 (alpha c).

(** The [hex] property. *)
Definition Color_hex (c : Color) : str :=
  py "#" ++ format_02x (red c) ++ format_02x (green c) ++ format_02x (blue c).

(** [value[i] * 2] for a string of at least [i + 1] characters. *)
Definition doubled (value : str) (i : nat) : str :=
  slice value i (S i) ++ slice value i (S i).

Definition set_red (v : Z) (c : Color) : Color := mkColor v (green c) (blue c) (alpha c).
Definition set_green (v : Z) (c : Color) : Color := mkColor (red c) v (blue c) (alpha c).
Definition set_blue (v : Z) (c : Color) : Color := mkColor (red c) (green c) v (alpha c).

(** The [hex] setter; the three channels are assigned one after the other,
    so a channel that fails to parse leaves the earlier ones assigned. *)
Definition Color_hex_set (value : str) : prog Color unit :=
  if Nat.eqb (List.length value) 7 then
    r ← lift (int16 (slice value 1 3)); modify (set_red r);;
    g ← lift (int16 (slice value 3 5)); modify (set_green g);;
    b ← lift (int16 (slice value 5 7)); modify (set_blue b)
  else if Nat.eqb (List.length value) 4 then
    r ← lift (int16 (doubled value 1)); modify (set_red r);;
    g ← lift (int16 (doubled value 2)); modify (set_green g);;
    b ← lift (int16 (doubled value 3)); modify (set_blue b)
  else mret tt.

(** [Color(red, green, blue, alpha, hex=...)] with the defaults of
    [__init__]. *)
Definition Color_init (r g b : Z) (a : float) (hex : option str) : result Color :=
  let c := mkColor r g b a in
  match hex with
  | Some h => match Color_hex_set h c with
              | (Ok _, c') => Ok c'
              | (Raise e, _) => Raise e
              end
  | None => Ok c
  end.

Definition white : Color := mkColor 255 255 255 fone.

(** [Color.blend], one channel:
    [int(self.c * self.alpha + other.c * (1 - self.alpha))]. *)
Definition blend_float (c : float) (a : float) (c' : float) : float :=
  fadd (fmul c a) (fmul c' (fsub fone a)).

Definition blend_channel (c : Z) (a : float) (c' : Z) : result Z :=
  fc ← float_of_int c;
  fc' ← float_of_int c';
  int_of_float (blend_float fc a fc').

Definition Color_blend (self other : Color) : result Color :=
  r ← blend_channel (red self) (alpha self) (red other);
  g ← blend_channel (green self) (alpha self) (green other);
  b ← blend_channel (blue self) (alpha self) (blue other);
  mret (mkColor r g b fone).


(** ** Lists with Python's indexing *)

(** The position [l[i]] refers to: negative indices count from the end. *)
Definition index_of {A : Type} (l : list A) (i : Z) : result nat :=
  let n := Z.of_nat (List.length l) in
  if (0 <=? i) && (i <? n) then Ok (Z.to_nat i)
  else if (- n <=? i) && (i <? 0) then Ok (Z.to_nat (n + i))
  else Raise IndexError.

Definition getitem {A : Type} (l : list A) (i : Z) : result A :=
  k ← index_of l i;
  match l !! k with
  | Some a => Ok a
  | None => Raise IndexError
  end.

Definition setitem {A : Type} (l : list A) (i : Z) (v : A) : result (list A) :=
  k ← index_of l i; Ok (<[k:=v]> l).

(** [for i in range(lo, hi): body(i)]. *)
Fixpoint for_count {S : Type} (n : nat) (i : Z) (body : Z -> prog S unit) : prog S unit :=
  match n with
  | O => mret tt
  | S n' => body i;; for_count n' (i + 1) body
  end.

Definition for_range {S : Type} (lo hi : Z) (body : Z -> prog S unit) : prog S unit :=
  for_count (Z.to_nat (hi - lo)) lo body.

(** [for a in l: body(a)]. *)
Fixpoint for_each {S A : Type} (l : list A) (body : A -> prog S unit) : prog S unit :=
  match l with
  | nil => mret tt
  | a :: l' => body a;; for_each l' body
  end.

(** ** Canvas instances and drawables *)

(** The attributes [__init__] gives a Canvas.  [objects] and [telemetry]
    are attributes of the class, not of the instance (see [World]). *)
Record Canvas : Type := mkCanvas {
  canvas_width : Z;
  canvas_height : Z;
  title : str;
  pixels : list (list Color)
}.

Definition Canvas_init (w h : Z) (t : str) : Canvas :=
  mkCanvas w h t (replicate (Z.to_nat h) (replicate (Z.to_nat w) white)).

Definition set_pixels (rows : list (list Color)) (cv : Canvas) : Canvas :=
  mkCanvas (canvas_width cv) (canvas_height cv) (title cv) rows.

(** The abstract class [Object]: a draw order and a [draw(canvas)] that
    mutates the canvas. *)
Class Object (A : Type) : Type := {
  layer : A -> Z;
  draw : A -> prog Canvas unit
}.

(** ** Rectangle *)

Record Rectangle : Type := mkRectangle {
  x : Z;
  y : Z;
  width : Z;
  height : Z;
  background_color : Color;
  border_color : Color;
  border_width : Z;
  Rectangle_layer : Z
}.

(** [Rectangle(x, y, width, height)]: the other attributes are the class
    defaults [Color(alpha=0.0)], [Color(hex='#000')], [1] and [Object.layer]. *)
Definition Rectangle_init (x0 y0 w h : Z) : Rectangle :=
  mkRectangle x0 y0 w h (mkColor 255 255 255 fzero) (mkColor 0 0 0 fone) 1 0.

(** [canvas.pixels[y][x] = color.blend(canvas.pixels[y][x])]: the right-hand
    side is evaluated first, then the row is looked up again and assigned
    to (the rows are lists of their own, as [__init__] makes them, so writing
    the row back is the assignment in place). *)
Definition paint (color : Color) (i j : Z) : prog Canvas unit :=
  cv ← get;
  row ← lift (getitem (pixels cv) j);
  old ← lift (getitem row i);
  new ← lift (Color_blend color old);
  row' ← lift (setitem row i new);
  rows' ← lift (setitem (pixels cv) j row');
  put (set_pixels rows' cv).

Definition on_border (self : Rectangle) (i j : Z) : bool :=
  (j =? y self) || (j =? y self + height self - 1)
  || (i =? x self) || (i =? x self + width self - 1).

Definition Rectangle_draw (self : Rectangle) : prog Canvas unit :=
  for_range (y self) (y self + height self) (fun j =>
    for_range (x self) (x self + width self) (fun i =>
      if on_border self i j then paint (border_color self) i j
      else paint (background_color self) i j)).

#[global] Instance Rectangle_Object : Object Rectangle := {
  layer := Rectangle_layer;
  draw := Rectangle_draw
}.

(** ** Log

    [children] and [records] are declared in the class body, so there is one
    list of each, an attribute of the class, which every instance reads and
    appends to unless that instance has been given an attribute of its own
    (no method does so; a caller can, by assignment).  Instances are
    referred to by identity, their position in the heap. *)

Definition ref : Type := nat.

Record Log : Type := mkLog {
  name : str;
  own_children : option (list ref);
  own_records : option (list float)
}.

Record LogStore : Type := mkLogStore {
  heap : list Log;
  Log_children : list ref;
  Log_records : list float
}.

Definition empty_store : LogStore := mkLogStore nil nil nil.

Definition set_heap (h : list Log) (st : LogStore) : LogStore :=
  mkLogStore h (Log_children st) (Log_records st).

(** The instance with a given identity (an identity outside the heap does
    not occur; it reads as a nameless instance without attributes). *)
Definition instance (st : LogStore) (self : ref) : Log :=
  default (mkLog nil None None) (heap st !! self).

(** [self.children] and [self.records]: the instance's attribute if it has
    one, the class's otherwise. *)
Definition children (st : LogStore) (self : ref) : list ref :=
  default (Log_children st) (own_children (instance st self)).

Definition records (st : LogStore) (self : ref) : list float :=
  default (Log_records st) (own_records (instance st self)).

(** [Log(name)]: [__init__] assigns [name] only. *)
Definition Log_init (n : str) : prog LogStore ref := fun st =>
  (Ok (List.length (heap st)), set_heap (heap st ++ [mkLog n None None]) st).

(** [self.records.append(delta)]. *)
Definition Log_record (self : ref) (delta : float) : prog LogStore unit := fun st =>
  let l := instance st self in
  match own_records l with
  | Some rs =>
      (Ok tt, set_heap (<[self := mkLog (name l) (own_children l) (Some (rs ++ [delta]))]> (heap st)) st)
  | None => (Ok tt, mkLogStore (heap st) (Log_children st) (Log_records st ++ [delta]))
  end.

(** [if log not in self.children: self.children.append(log)]; instances
    compare by identity. *)
Definition Log_inside (self : ref) (log : ref) : prog LogStore unit := fun st =>
  if bool_decide (log ∈ children st self) then (Ok tt, st)
  else
    let l := instance st self in
    match own_children l with
    | Some cs =>
        (Ok tt, set_heap (<[self := mkLog (name l) (Some (cs ++ [log])) (own_records l)]> (heap st)) st)
    | None => (Ok tt, mkLogStore (heap st) (Log_children st ++ [log]) (Log_records st))
    end.

(** [round(sum(self.records) / len(self.records), 3)]: with no records the
    division is [0 / 0] on integers. *)
Definition average_of (rs : list float) : result float :=
  match rs with
  | nil => Raise ZeroDivisionError
  | _ =>
      n ← float_of_int (Z.of_nat (List.length rs));
      Ok (round_ndigits (fdiv (float_sum rs) n) 3)
  end.

Definition Log_average (st : LogStore) (self : ref) : result float :=
  average_of (records st self).

Definition newline : N := 10%N.

(** The loop of [report] over [self.children[index:]], given the reports of
    the children. *)
Fixpoint report_loop (report_of : ref -> result str) (cs : list ref) (report : str)
  : result str :=
  match cs with
  | nil => Ok report
  | c :: cs' =>
      r ← report_of c;
      match cs' with
      | nil =>
          report_loop report_of cs'
            (report ++ (newline :: py " └─ ") ++ replace_char newline (newline :: py "  ") r)
      | _ =>
          report_loop report_of cs'
            (report ++ (newline :: py " ├─ ") ++ replace_char newline (newline :: py " │ ") r)
      end
  end.

(** [Log.report]; [depth] is the number of nested calls the interpreter
    still allows, and running out of it is Python's [RecursionError]. *)
Fixpoint Log_report (depth : nat) (st : LogStore) (self : ref) : result str :=
  match depth with
  | O => Raise RecursionError
  | S depth' =>
      avg ← Log_average st self;
      report_loop (Log_report depth' st) (children st self)
        (name (instance st self) ++ py ": " ++ float_repr avg ++ py "s")
  end.

(** ** Telemetry and the Canvas methods *)

(** What a call can return, as far as the modelled code looks at it. *)
Inductive value : Type :=
| VNone
| VInt (z : Z)
| VFloat (f : float)
| VStr (s : str).

(** A function object: its identity (the key of [Telemetry.logs]) and its
    [__name__]. *)
Record function : Type := mkFunction {
  fn_id : ref;
  fn_name : str
}.

(** [list.sort(key=...)]: stable, ascending. *)
Fixpoint insert_by_key {A : Type} (key : A -> Z) (a : A) (l : list A) : list A :=
  match l with
  | nil => a :: nil
  | b :: l' => if key a <=? key b then a :: l else b :: insert_by_key key a l'
  end.

Fixpoint sort_by_key {A : Type} (key : A -> Z) (l : list A) : list A :=
  match l with
  | nil => nil
  | a :: l' => insert_by_key key a (sort_by_key key l')
  end.

Section Compositor.

Context {A : Type} {Object_A : Object A}.

(** Everything the methods of [Telemetry] and [Canvas] read or mutate: the
    canvas instance they are called on, the attributes of the classes
    ([Canvas.objects], [Telemetry.roots], [Telemetry.logs], the Log store),
    the identity the next function object gets, and the clock (the values
    [time.time()] returns, in order). *)
Record World : Type := mkWorld {
  self_canvas : Canvas;
  Canvas_objects : list A;
  Telemetry_roots : list ref;
  Telemetry_logs : gmap ref ref;
  store : LogStore;
  next_function : ref;
  clock : nat -> float;
  ticks : nat
}.

Definition set_canvas (cv : Canvas) (w : World) : World :=
  mkWorld cv (Canvas_objects w) (Telemetry_roots w) (Telemetry_logs w) (store w)
    (next_function w) (clock w) (ticks w).

Definition set_objects (objs : list A) (w : World) : World :=
  mkWorld (self_canvas w) objs (Telemetry_roots w) (Telemetry_logs w) (store w)
    (next_function w) (clock w) (ticks w).

Definition set_telemetry (roots : list ref) (logs : gmap ref ref) (w : World) : World :=
  mkWorld (self_canvas w) (Canvas_objects w) roots logs (store w)
    (next_function w) (clock w) (ticks w).

Definition set_store (st : LogStore) (w : World) : World :=
  mkWorld (self_canvas w) (Canvas_objects w) (Telemetry_roots w) (Telemetry_logs w) st
    (next_function w) (clock w) (ticks w).

(** A method of the canvas, or of a Log, run inside the world. *)
Definition on_canvas {R : Type} (m : prog Canvas R) : prog World R := fun w =>
  let '(r, cv) := m (self_canvas w) in (r, set_canvas cv w).

Definition on_store {R : Type} (m : prog LogStore R) : prog World R := fun w =>
  let '(r, st) := m (store w) in (r, set_store st w).

(** [time.time()]. *)
Definition time_time : prog World float := fun w =>
  (Ok (clock w (ticks w)),
   mkWorld (self_canvas w) (Canvas_objects w) (Telemetry_roots w) (Telemetry_logs w)
     (store w) (next_function w) (clock w) (S (ticks w))).

(** A [lambda] expression evaluated: a function object of a new identity. *)
Definition new_lambda : prog World function := fun w =>
  (Ok (mkFunction (next_function w) (py "<lambda>")),
   mkWorld (self_canvas w) (Canvas_objects w) (Telemetry_roots w) (Telemetry_logs w)
     (store w) (S (next_function w)) (clock w) (ticks w)).

(** [if f not in self.logs: self.logs[f] = Log(name if name else f.__name__);
    self.roots.append(self.logs[f])]. *)
Definition Telemetry_track (n : option str) (f : function) : prog World unit :=
  w ← get;
  match Telemetry_logs w !! fn_id f with
  | Some _ => mret tt
  | None =>
      l ← on_store (Log_init (match n with
                              | Some (c :: n') => c :: n'
                              | _ => fn_name f
                              end));
      modify (fun w => set_telemetry (Telemetry_roots w ++ [l]) (<[fn_id f := l]> (Telemetry_logs w)) w)
  end.

(** [self.logs[f].record(delta)]. *)
Definition Telemetry_record (f : function) (delta : float) : prog World unit :=
  w ← get;
  match Telemetry_logs w !! fn_id f with
  | Some l => on_store (Log_record l delta)
  | None => lift (Raise KeyError)
  end.

(** [Telemetry.measure(name, callback)], the direct form: [callback] is the
    function object and [call] what calling it does. *)
Definition Telemetry_measure (n : option str) (callback : function) (call : prog World value)
  : prog World value :=
  Telemetry_track n callback;;
  start ← time_time;
  _ ← call;
  end_ ← time_time;
  Telemetry_record callback (fsub end_ start);;
  mret VNone.

(** [Telemetry.measure(name)], the decorating form: [decorator(func)] runs
    when the decorated function is defined and returns [wrapper]; calling
    the decorated function is [wrapper(...)], with [call] what
    [func(...)] does on the same arguments. *)
Definition Telemetry_decorator (n : option str) (func : function) : prog World unit :=
  Telemetry_track n func.

Definition Telemetry_wrapper (func : function) (call : prog World value) : prog World value :=
  start ← time_time;
  result ← call;
  end_ ← time_time;
  Telemetry_record func (fsub end_ start);;
  mret result.

(** [Canvas.add]. *)
Definition Canvas_add (obj : A) : prog World unit :=
  modify (fun w => set_objects (Canvas_objects w ++ [obj]) w).

(** The body of [Canvas.draw], before decoration. *)
Definition Canvas_draw_body : prog World value :=
  modify (fun w => set_objects (sort_by_key layer (Canvas_objects w)) w);;
  w ← get;
  for_each (Canvas_objects w) (fun obj =>
    f ← new_lambda;
    _ ← Telemetry_measure (Some (py "Object")) f (on_canvas (draw obj);; mret VNone);
    mret tt);;
  mret VNone.

(** The function objects of the two decorated methods, created when the
    class body runs. *)
Definition show_function : function := mkFunction 0%nat (py "show").
Definition draw_function : function := mkFunction 1%nat (py "draw").

(** [Canvas.draw] as callers see it: the wrapper around the body. *)
Definition Canvas_draw : prog World value :=
  Telemetry_wrapper draw_function Canvas_draw_body.

(** The world once the module's classes are defined and
    [Canvas(width, height)] is made: both decorators have run. *)
Definition initial_world (cv : Canvas) (now : nat -> float) : World :=
  snd ((Telemetry_decorator None show_function;;
        Telemetry_decorator None draw_function)
       (mkWorld cv nil nil ∅ empty_store 2%nat now 0%nat)).

End Compositor.

Arguments World A : clear implicits.

(** ** Vocabulary of the properties *)

(** A lowercase hexadecimal digit, [0-9a-f]. *)
Definition lower_hex (c : N) : bool :=
  ((48 <=? c) && (c <=? 57) || (97 <=? c) && (c <=? 102))%N.

Definition same_str (s t : str) : bool := bool_decide (s = t).

(** Two digits parse to a channel that prints back as the same two digits. *)
Definition round_trips (a b : N) : bool :=
  match int16 [a; b] with
  | Ok v => same_str (format_02x v) [a; b]
  | Raise _ => false
  end.

(** The pixel at column [i] of row [j], counted from the top-left corner
    (no wrapping of negative indices). *)
Definition pixel (cv : Canvas) (i j : Z) : option Color :=
  if (0 <=? i) && (0 <=? j) then
    row ← pixels cv !! Z.to_nat j; row !! Z.to_nat i
  else None.

(** The bounding box of a rectangle, its outer ring, and the box lying
    within the pixel grid. *)
Definition in_box (r : Rectangle) (i j : Z) : Prop :=
  x r <= i < x r + width r /\ y r <= j < y r + height r.

Definition on_ring (r : Rectangle) (i j : Z) : Prop :=
  j = y r \/ j = y r + height r - 1 \/ i = x r \/ i = x r + width r - 1.

Definition box_in_grid (r : Rectangle) (cv : Canvas) : Prop :=
  forall i j, in_box r i j -> is_Some (pixel cv i j).

(** The coordinates of the box in the order the loops reach them. *)
Definition cells (r : Rectangle) : list (Z * Z) :=
  j ← seqZ (y r) (height r); i ← seqZ (x r) (width r); [(i, j)].

(** What [draw] does at one coordinate. *)
Definition paint_cell (r : Rectangle) (c : Z * Z) : prog Canvas unit :=
  paint (if on_border r c.1 c.2 then border_color r else background_color r) c.1 c.2.

(** [cv] with the pixel at column [i] of row [j] replaced. *)
Definition with_pixel (cv : Canvas) (i j : nat) (c : Color) : Canvas :=
  match pixels cv !! j with
  | Some row => set_pixels (<[j := <[i := c]> row]> (pixels cv)) cv
  | None => cv
  end.

(** The colour [draw] blends at a coordinate: the border colour on the ring
    of the box, the background colour elsewhere. *)
Definition colour_at (r : Rectangle) (i j : Z) : Color :=
  if decide (on_ring r i j) then border_color r else background_color r.

(** The pixel a blend of [colour_at] over the present pixel gives, when
    there is a pixel and the blend returns. *)
Definition blended (r : Rectangle) (cv : Canvas) (i j : Z) : option Color :=
  old ← pixel cv i j;
  match Color_blend (colour_at r i j) old with
  | Ok new => Some new
  | Raise _ => None
  end.

(** The rectangle of the compositing example: 5 by 5 at the origin, an
    opaque red border and the default, fully transparent, fill. *)
Definition red_square : Rectangle :=
  mkRectangle 0 0 5 5 (mkColor 255 255 255 fzero) (mkColor 255 0 0 fone) 1 0.

(** A function has a Log in [Telemetry.logs]. *)
Definition tracked {A : Type} (w : World A) (f : ref) : Prop :=
  is_Some (Telemetry_logs w !! f).

(** A rectangle moved to another layer, and a small rectangle to draw. *)
Definition layered (k : Z) (r : Rectangle) : Rectangle :=
  mkRectangle (x r) (y r) (width r) (height r) (background_color r) (border_color r)
    (border_width r) k.

Definition tile : Rectangle := Rectangle_init 0 0 2 2.

(** The canvas and world of the script at the end of the module, with a
    clock that reads 0, 1, 2, ... seconds. *)
Definition script_world : World Rectangle :=
  initial_world (Canvas_init 1000 1000 (py "Canvas")) (fun n => decimal (Z.of_nat n) 0).

(** An operation that returns 42. *)
Definition answer : function := mkFunction 2%nat (py "answer").
Definition answer_call : prog (World Rectangle) value := mret (VInt 42).

(** Two Logs made one after the other in a program that has made none. *)
Definition two_logs : LogStore :=
  ((Log_init (py "first");; Log_init (py "second")) empty_store).2.

(** *** The report as lines *)

(** [s.split('\n')]. *)
Fixpoint lines (s : str) : list str :=
  match s with
  | nil => [nil]
  | c :: s' =>
      if (c =? newline)%N then nil :: lines s'
      else match lines s' with
           | l :: ls => (c :: l) :: ls
           | nil => [[c]]
           end
  end.

(** ['\n'.join(ls)]. *)
Fixpoint unlines (ls : list str) : str :=
  match ls with
  | nil => nil
  | l :: nil => l
  | l :: ls' => l ++ newline :: unlines ls'
  end.

(** A Log seen as a tree: its name, its average and its children in order. *)
#[warnings="-register-all"]
Inductive LogTree : Type :=
| Node (label : str) (average : float) (subtrees : list LogTree).

Fixpoint tree_height (t : LogTree) : nat :=
  match t with
  | Node _ _ ts => S (max_list (map tree_height ts))
  end.

(** The instance [self] of the store is the root of the tree [t]: averages
    are defined throughout and the children lists are those of the tree. *)
#[warnings="-register-all"]
Inductive holds_tree (st : LogStore) : ref -> LogTree -> Prop :=
| holds_node (self : ref) (avg : float) (ts : list LogTree) :
    Log_average st self = Ok avg ->
    Forall2 (holds_tree st) (children st self) ts ->
    holds_tree st self (Node (name (instance st self)) avg ts).

(** The lines of a subtree under its parent: [first] before its first line,
    [more] before each of the others. *)
Definition indent (first more : str) (ls : list str) : list str :=
  match ls with
  | nil => nil
  | l :: ls' => (first ++ l) :: map (app more) ls'
  end.

(** The lines of a report, as the specification describes them, for given
    prefixes: [mid] and [mid_more] for every child but the last, [last] and
    [last_more] for the last. *)
Fixpoint render (mid mid_more last last_more : str) (t : LogTree) : list str :=
  match t with
  | Node n avg ts =>
      lines (n ++ py ": " ++ float_repr avg ++ py "s")
      ++ (fix below (ts : list LogTree) : list str :=
            match ts with
            | nil => nil
            | t' :: nil => indent last last_more (render mid mid_more last last_more t')
            | t' :: ts' =>
                indent mid mid_more (render mid mid_more last last_more t') ++ below ts'
            end) ts
  end.

(** The prefixes the specification names, and those of the code, which
    start one space further left. *)
Definition claimed_lines : LogTree -> list str :=
  render (py "├─ ") (py " │ ") (py "└─ ") (py "  ").

Definition report_lines : LogTree -> list str :=
  render (py " ├─ ") (py " │ ") (py " └─ ") (py "  ").

(** A parent with one child, each with one sample of one second and lists
    of its own; a Log with the three samples of the specification's
    example. *)
Definition family : LogStore :=
  mkLogStore [mkLog (py "P") (Some [1%nat]) (Some [decimal 1 0]);
              mkLog (py "C") (Some []) (Some [decimal 1 0])] [] [].

Definition family_tree : LogTree :=
  Node (py "P") (decimal 1 0) [Node (py "C") (decimal 1 0) []].

Definition three_samples : LogStore :=
  (Log_record 0%nat (decimal 3 0)
     (Log_record 0%nat (decimal 2 0)
        (Log_record 0%nat (decimal 1 0) (Log_init (py "X") empty_store).2).2).2).2.

(** *** Sizes of floats *)

(** The number of binary digits of a mantissa. *)
Definition bits (m : positive) : Z := Z.pos (digits2_pos m).

(** A float that is a zero, or positive with [m * 2 ^ e] below [2 ^ b]. *)
Definition small (b : Z) (x : float) : bool :=
  match x with
  | S754_zero _ => true
  | S754_finite false m e => bits m + e <=? b
  | _ => false
  end.

(** *** Colours in range *)

(** [float(c)] for a channel. *)
Definition channel (c : Z) : float := binary_normalize prec emax c 0 false.

Definition valid_channel (c : Z) : Prop := 0 <= c <= 255.

(** A float of the format that lies in [[0, 1]]. *)
Definition valid_alpha (a : float) : Prop :=
  fvalid a = true /\ fleb fzero a = true /\ fleb a fone = true.

Definition valid_channels (c : Color) : Prop :=
  valid_channel (red c) /\ valid_channel (green c) /\ valid_channel (blue c).

Definition valid_color (c : Color) : Prop :=
  valid_channels c /\ valid_alpha (alpha c).

(** What the proofs use of each of the 256 channel values, as a check that
    can be run. *)
Definition channel_ok (c : Z) : bool :=
  match float_of_int c, int_of_float (channel c) with
  | Ok f, Ok z =>
      same_float f (channel c) && small 8 f && (z =? c)
      && same_float (fmul f fone) f && same_float (fmul f fzero) fzero
      && same_float (fadd fzero f) f && same_float (fadd f fzero) f
  | _, _ => false
  end.

(** *** The blend formula in exact arithmetic

    Written from the specification's formula, not from the code, for
    comparison with it: [floor (c * a + c' * (1 - a))] where [a] is the
    number the float stands for, the fraction [n / d], and nothing is rounded
    before the floor. *)
Definition exact_alpha (a : float) : option (Z * Z) :=
  match a with
  | S754_zero _ => Some (0, 1)
  | S754_finite s m e => let '(n, d) := ratio_of m e in Some (cond_Zopp s n, d)
  | _ => None
  end.

Definition spec_blend_channel (c : Z) (a : float) (c' : Z) : option Z :=
  '(n, d) ← exact_alpha a; Some ((c * n + c' * (d - n)) / d).

(** White at alpha 0.07. *)
Definition faint_white : Color := mkColor 255 255 255 (decimal 7 (- 2)).

(** *** A drawable that shows when it was drawn

    Not a class of the source: a second [Object], used to observe the calls
    [Canvas.draw] makes.  Its [draw] appends its mark to the canvas title, so
    the title afterwards lists the calls in order. *)
Record Stamp : Type := mkStamp {
  stamp_layer : Z;
  stamp_mark : N
}.

Definition Stamp_draw (self : Stamp) : prog Canvas unit :=
  modify (fun cv =>
    mkCanvas (canvas_width cv) (canvas_height cv) (title cv ++ [stamp_mark self]) (pixels cv)).

#[global] Instance Stamp_Object : Object Stamp := {
  layer := stamp_layer;
  draw := Stamp_draw
}.

(** A parent with a sample whose only child has none. *)
Definition childless_samples : LogStore :=
  mkLogStore [mkLog (py "P") (Some [1%nat]) (Some [decimal 1 0]);
              mkLog (py "C") (Some []) (Some [])] [] [].

(** ** Vocabulary of the further properties *)

(** A hexadecimal digit of either case, and the lowercase form of an ASCII
    letter. *)
Definition any_hex (c : N) : bool :=
  match hex_value c with
  | Some _ => true
  | None => false
  end.

Definition lower (c : N) : N :=
  if ((65 <=? c) && (c <=? 90))%N then (c + 32)%N else c.

(** Two digits parse to a channel in range that prints as their lowercase
    forms. *)
Definition prints_lower (a b : N) : bool :=
  match int16 [a; b] with
  | Ok v => same_str (format_02x v) [lower a; lower b] && (0 <=? v) && (v <=? 255)
  | Raise _ => false
  end.

(** A channel prints as two lowercase digits that parse back to it. *)
Definition parses_back (v : Z) : bool :=
  match format_02x v with
  | [a; b] =>
      lower_hex a && lower_hex b
      && match int16 [a; b] with
         | Ok z => z =? v
         | Raise _ => false
         end
  | _ => false
  end.

(** A digit written twice parses to 17 times its value. *)
Definition doubles (a : N) : bool :=
  match hex_value a with
  | Some d =>
      match int16 [a; a] with
      | Ok v => v =? 17 * d
      | Raise _ => false
      end
  | None => true
  end.

(** An ASCII character no number starts with: not a digit, not a sign, not
    white space. *)
Definition no_number (c : N) : bool :=
  (c <? 128)%N && negb (any_hex c) && negb (is_space c) && negb ((c =? 43) || (c =? 45))%N.

(** A float that is a NaN or an infinity. *)
Definition not_finite (a : float) : bool :=
  match a with
  | S754_nan | S754_infinity _ => true
  | _ => false
  end.

(** A rectangle with another border width and layer, and one with another
    fill colour. *)
Definition restyled (bw k : Z) (r : Rectangle) : Rectangle :=
  mkRectangle (x r) (y r) (width r) (height r) (background_color r) (border_color r) bw k.

Definition refilled (bg : Color) (r : Rectangle) : Rectangle :=
  mkRectangle (x r) (y r) (width r) (height r) bg (border_color r)
    (border_width r) (Rectangle_layer r).

(** The canvas a call of [draw] leaves behind. *)
Definition drawn (r : Rectangle) (cv : Canvas) : Canvas := (Rectangle_draw r cv).2.

(** A canvas whose grid has [h] rows of [w] pixels each. *)
Definition grid_shape (cv : Canvas) (w h : Z) : Prop :=
  Z.of_nat (List.length (pixels cv)) = h
  /\ Forall (fun row => Z.of_nat (List.length row) = w) (pixels cv).

(** No Log of the store has lists of its own: every instance reads the
    lists of the class, as the instances the constructor makes do. *)
Definition class_lists_only (st : LogStore) : Prop :=
  forall l, own_children (instance st l) = None /\ own_records (instance st l) = None.

(** The store after [a.record(1.0)] and [a.inside(b)] on two new Logs. *)
Definition nested_logs : LogStore :=
  (Log_inside 0%nat 1%nat (Log_record 0%nat (decimal 1 0) two_logs).2).2.

(** The name [measure] gives the Log of a function: [name if name else
    func.__name__]. *)
Definition log_name (n : option str) (f : function) : str :=
  match n with
  | Some (c :: n') => c :: n'
  | _ => fn_name f
  end.

(** Every function with a Log is older than the next function object: a new
    [lambda] is not yet a key of [Telemetry.logs]. *)
Definition lambda_fresh {A : Type} (w : World A) : Prop :=
  forall k, tracked w k -> (k < next_function w)%nat.

(** The Log [Canvas.draw] makes for each call of a drawable's [draw]. *)
Definition object_log : Log := mkLog (py "Object") None None.

(** A small canvas in the world of the module, with a clock that reads 0,
    1, 2, ... seconds; a callback that fails. *)
Definition small_world : World Rectangle :=
  initial_world (Canvas_init 4 4 (py "Canvas")) (fun n => decimal (Z.of_nat n) 0).

Definition failing_call : prog (World Rectangle) value := lift (Raise ValueError).

(** *** Exact values of floats

    The number a float that is not negative stands for, as an integer in
    units of [2 ^ (- scale)]; every float met in [blend] has an exponent of
    at least [- scale]. *)
Definition scale : Z := 1200.

Definition units (x : float) : Z :=
  match x with
  | S754_finite false m e => Z.pos m * 2 ^ (e + scale)
  | _ => 0
  end.

Definition expo (x : float) : Z :=
  match x with
  | S754_finite _ _ e => e
  | _ => 0
  end.

(** What the proofs use of the exact value of each of the 256 channel
    values, as a check that can be run. *)
Definition channel_units_ok (c : Z) : bool :=
  (units (channel c) =? c * 2 ^ scale) && (- 52 <=? expo (channel c)).

(** Every pixel of the canvas has channels in 0..255. *)
Definition canvas_in_range (cv : Canvas) : Prop :=
  forall i j c, pixel cv i j = Some c -> valid_channels c.

(** A rectangle that lies within the grid of a canvas and whose two colours
    are in range. *)
Definition paintable (r : Rectangle) (cv : Canvas) : Prop :=
  box_in_grid r cv /\ valid_color (border_color r) /\ valid_color (background_color r).

(* ================================================================= *)
(** * Properties *)

(** ** The hex codec *)

(** A property checked on every number below a bound holds below it. *)
Lemma forall_below (P : nat -> bool) (k : nat) :
  forallb P (seq 0 k) = true -> forall n, (n < k)%nat -> P n = true.
Proof.
  intros H n Hn. rewrite forallb_forall in H. apply H, in_seq. lia.
Qed.

(** Two lowercase digits parse to a channel that prints back as the same
    two digits. *)
Lemma channel_round_trip (a b : N) :
  lower_hex a = true -> lower_hex b = true ->
  exists v, int16 [a; b] = Ok v /\ format_02x v = [a; b].
Proof.
  intros Ha Hb.
  assert (round_trips a b = true) as H.
  { pose (P := fun n => forallb (fun m =>
        implb (lower_hex (N.of_nat n) && lower_hex (N.of_nat m))
              (round_trips (N.of_nat n) (N.of_nat m))) (seq 0 103)).
    assert (forall c, lower_hex c = true -> (N.to_nat c < 103)%nat) as Hlt.
    { intros c Hc. unfold lower_hex in Hc.
      apply orb_true_iff in Hc as [Hc | Hc]; apply andb_true_iff in Hc as [_ Hc];
        apply N.leb_le in Hc; lia. }
    assert (P (N.to_nat a) = true) as HP.
    { apply (forall_below P 103); [ vm_compute; reflexivity | auto ]. }
    unfold P in HP. rewrite forallb_forall in HP.
    specialize (HP (N.to_nat b)). rewrite !N2Nat.id, Ha, Hb in HP.
    apply HP, in_seq. specialize (Hlt b Hb). lia. }
  unfold round_trips in H. destruct (int16 [a; b]) as [v | e]; [ | discriminate ].
  exists v. split; [ reflexivity | ]. apply bool_decide_eq_true in H. exact H.
Qed.

(** C7.  Setting [hex] to a seven-character string [#rrggbb] of lowercase
    hexadecimal digits and reading [hex] back gives the same string (the
    alpha is untouched); setting it to the shorthand [#0f0] gives the
    channels [(0, 255, 0)]. *)
Theorem hex_round_trip :
  (forall (c : Color) (s : str),
      List.length s = 7%nat -> s !! 0%nat = Some 35%N ->
      forallb lower_hex (drop 1 s) = true ->
      exists c', Color_hex_set s c = (Ok tt, c') /\ Color_hex c' = s /\ alpha c' = alpha c)
  /\ (forall c : Color,
        exists c', Color_hex_set (py "#0f0") c = (Ok tt, c') /\ rgb c' = (0, 255, 0)).
Proof.
  split.
  - intros c s Hlen H0 Hd.
    do 7 (destruct s as [ | ? s]; [ discriminate | ]).
    destruct s; [ | discriminate ].
    simpl in H0. injection H0 as ->.
    cbn [drop forallb] in Hd.
    repeat (apply andb_true_iff in Hd as [? Hd]).
    destruct (channel_round_trip n0 n1) as (r & Hr & Fr); auto.
    destruct (channel_round_trip n2 n3) as (g & Hg & Fg); auto.
    destruct (channel_round_trip n4 n5) as (b & Hb & Fb); auto.
    exists (mkColor r g b (alpha c)).
    unfold Color_hex_set, slice. cbn [List.length Nat.eqb Nat.sub skipn firstn].
    unfold mbind, prog_bind, lift, modify.
    rewrite Hr, Hg, Hb. cbn.
    repeat split.
    unfold Color_hex. cbn [red green blue]. rewrite Fr, Fg, Fb. reflexivity.
  - intros c. eexists. split; [ reflexivity | reflexivity ].
Qed.

Lemma hex_round_trip_witness :
  exists c', Color_hex_set (py "#1a2b3c") white = (Ok tt, c')
             /\ Color_hex c' = py "#1a2b3c" /\ alpha c' = alpha white.
Proof.
  apply (proj1 hex_round_trip white (py "#1a2b3c")); reflexivity.
Defined.

(** C8.  Setting [hex] to a string whose length is neither 7 nor 4 raises
    nothing and leaves the colour as it was, on an existing colour and in
    the constructor. *)
Theorem hex_other_length_ignored (c : Color) (s : str) :
  List.length s <> 7%nat -> List.length s <> 4%nat ->
  Color_hex_set s c = (Ok tt, c)
  /\ Color_init (red c) (green c) (blue c) (alpha c) (Some s) = Ok c.
Proof.
  intros H7 H4.
  assert (forall c', Color_hex_set s c' = (Ok tt, c')) as H.
  { intros c'. unfold Color_hex_set.
    destruct (Nat.eqb_spec (List.length s) 7); [ contradiction | ].
    destruct (Nat.eqb_spec (List.length s) 4); [ contradiction | ].
    reflexivity. }
  split; [ apply H | ].
  unfold Color_init. rewrite H. destruct c; reflexivity.
Qed.

Lemma hex_other_length_ignored_witness :
  Color_hex_set (py "#12") white = (Ok tt, white)
  /\ Color_init 255 255 255 fone (Some (py "#12")) = Ok white.
Proof.
  apply (hex_other_length_ignored white (py "#12")); vm_compute; lia.
Defined.

(** The class defaults of [Rectangle] as [Rectangle_init] has them:
    [Color(alpha=0.0)] and [Color(hex='#000')]. *)
Example Rectangle_defaults :
  Color_init 255 255 255 fzero None = Ok (background_color (Rectangle_init 0 0 1 1))
  /\ Color_init 255 255 255 fone (Some (py "#000")) = Ok (border_color (Rectangle_init 0 0 1 1)).
Proof. split; reflexivity. Qed.

(** ** Floats: signs and sizes

    What the proofs about [blend] need of IEEE arithmetic: the operations on
    floats that are not negative give floats that are not negative, and a
    result whose mantissa and exponent stay small is finite. *)

Lemma digits2_log2 (m : positive) : bits m = Z.log2 (Z.pos m) + 1.
Proof.
  unfold bits.
  assert (digits2_pos m = Pos.size m) as -> by (induction m; cbn; congruence).
  destruct m; cbn; lia.
Qed.

Lemma bits_pos (m : positive) : 1 <= bits m.
Proof. rewrite digits2_log2. pose proof (Z.log2_nonneg (Z.pos m)). lia. Qed.

Lemma Zdigits2_nonneg (m : Z) : 0 <= m -> Zdigits2 m = if m =? 0 then 0 else Z.log2 m + 1.
Proof.
  intros H. destruct m as [ | p | p]; [ reflexivity | | lia ].
  cbn [Zdigits2 Z.eqb]. apply digits2_log2.
Qed.

Lemma shr_1_m (mrs : shr_record) :
  0 <= shr_m mrs -> shr_m (shr_1 mrs) = shr_m mrs / 2.
Proof.
  destruct mrs as [m r s]. cbn [shr_m]. intros H.
  rewrite <- Z.div2_div.
  destruct m as [ | [p | p | ] | p]; cbn; try reflexivity; lia.
Qed.

Lemma iter_shr_1_m (p : positive) (mrs : shr_record) :
  0 <= shr_m mrs ->
  shr_m (SpecFloat.iter_pos shr_1 p mrs) = shr_m mrs / 2 ^ Z.pos p.
Proof.
  revert mrs. induction p as [p IH | p IH | ]; intros mrs H; cbn [SpecFloat.iter_pos].
  - assert (0 <= shr_m (shr_1 mrs)) as H1
      by (rewrite shr_1_m by assumption; apply Z.div_pos; lia).
    assert (0 <= shr_m (SpecFloat.iter_pos shr_1 p (shr_1 mrs))) as H2
      by (rewrite IH by assumption; apply Z.div_pos; lia).
    rewrite IH, IH, shr_1_m by assumption.
    rewrite !Z.div_div by lia. f_equal.
    assert (Z.pos p~1 = 1 + Z.pos p + Z.pos p) as -> by lia.
    rewrite !Z.pow_add_r by lia. change (2 ^ 1) with 2. ring.
  - assert (0 <= shr_m (SpecFloat.iter_pos shr_1 p mrs)) as H2
      by (rewrite IH by assumption; apply Z.div_pos; lia).
    rewrite IH, IH by assumption.
    rewrite !Z.div_div by lia. f_equal.
    assert (Z.pos p~0 = Z.pos p + Z.pos p) as -> by lia.
    rewrite Z.pow_add_r by lia. reflexivity.
  - rewrite shr_1_m by assumption. reflexivity.
Qed.

Lemma shr_record_of_loc_m (m : Z) (l : location) : shr_m (shr_record_of_loc m l) = m.
Proof. destruct l as [ | []]; reflexivity. Qed.

(** [shr_fexp] on a mantissa that is not negative: the exponent rises to
    the one the format asks for, the mantissa is divided accordingly. *)
Lemma shr_fexp_spec (m e : Z) (l : location) :
  0 <= m ->
  let e' := Z.max e (fexp prec emax (Zdigits2 m + e)) in
  (shr_fexp prec emax m e l).2 = e'
  /\ shr_m (shr_fexp prec emax m e l).1 = m / 2 ^ (e' - e).
Proof.
  intros H e'. unfold shr_fexp, shr. subst e'.
  destruct (fexp prec emax (Zdigits2 m + e) - e) as [ | n | n] eqn:En; cbn [fst snd].
  - rewrite shr_record_of_loc_m. replace (Z.max e _ - e) with 0 by lia.
    rewrite Z.div_1_r. split; [ lia | reflexivity ].
  - rewrite iter_shr_1_m by (rewrite shr_record_of_loc_m; assumption).
    rewrite shr_record_of_loc_m.
    replace (Z.max e _ - e) with (Z.pos n) by lia. split; [ lia | reflexivity ].
  - rewrite shr_record_of_loc_m. replace (Z.max e _ - e) with 0 by lia.
    rewrite Z.div_1_r. split; [ lia | reflexivity ].
Qed.

(** Dividing by a power of two takes as many digits away, while any are
    left. *)
Lemma Zdigits2_div_pow2 (m k : Z) :
  0 < m -> 0 <= k -> Zdigits2 (m / 2 ^ k) + k <= Z.max (Zdigits2 m) k.
Proof.
  intros Hm Hk.
  assert (0 <= m / 2 ^ k) as Hq by (apply Z.div_pos; lia).
  rewrite (Zdigits2_nonneg (m / 2 ^ k)) by assumption.
  rewrite (Zdigits2_nonneg m) by lia.
  destruct (Z.eqb_spec m 0); [ lia | ].
  destruct (Z.eqb_spec (m / 2 ^ k) 0) as [ | Hne]; [ lia | ].
  assert (k <= Z.log2 m) as Hk'.
  { apply Z.log2_le_pow2; [ assumption | ].
    destruct (Z.le_gt_cases (2 ^ k) m) as [ | Hlt]; [ assumption | ].
    rewrite Z.div_small in Hne by lia. contradiction. }
  rewrite <- Z.shiftr_div_pow2 by assumption.
  rewrite Z.log2_shiftr by assumption. lia.
Qed.

Lemma round_nearest_even_range (m : Z) (l : location) :
  m <= round_nearest_even m l <= m + 1.
Proof.
  destruct l as [ | []]; cbn; try lia. destruct (Z.even m); lia.
Qed.

Lemma Zdigits2_succ (m m' : Z) : 0 <= m -> m <= m' <= m + 1 -> Zdigits2 m' <= Zdigits2 m + 1.
Proof.
  intros Hm Hm'. rewrite !Zdigits2_nonneg by lia.
  destruct (Z.eqb_spec m 0) as [-> | ].
  - assert (m' = 0 \/ m' = 1) as [-> | ->] by lia; cbn; lia.
  - destruct (Z.eqb_spec m' 0); [ lia | ].
    assert (m' = m \/ m' = Z.succ m) as [-> | ->] by lia; [ lia | ].
    pose proof (Z.log2_succ_le m). lia.
Qed.

(** Rounding a positive mantissa of moderate size: the result has the sign
    asked for and is a zero or finite, one binary digit larger at most. *)
Lemma binary_round_aux_small (s : bool) (m : positive) (e : Z) (l : location) (b : Z) :
  bits m + e <= b -> - 1074 <= b <= 970 ->
  match binary_round_aux prec emax s (Z.pos m) e l with
  | S754_zero s' => s' = s
  | S754_finite s' m' e' => s' = s /\ bits m' + e' <= b + 1
  | _ => False
  end.
Proof.
  intros Hb Hrange. unfold binary_round_aux.
  pose proof (shr_fexp_spec (Z.pos m) e l ltac:(lia)) as [He1 Hm1].
  destruct (shr_fexp prec emax (Z.pos m) e l) as [mrs1 e1]. cbn [fst snd] in He1, Hm1.
  rewrite <- He1 in Hm1.
  pose proof (round_nearest_even_range (shr_m mrs1) (loc_of_shr_record mrs1)) as Hr.
  set (mr := round_nearest_even (shr_m mrs1) (loc_of_shr_record mrs1)) in *.
  assert (0 <= shr_m mrs1) as H1 by (rewrite Hm1; apply Z.div_pos; lia).
  pose proof (Zdigits2_div_pow2 (Z.pos m) (e1 - e) ltac:(lia) ltac:(lia)) as Hd1.
  rewrite <- Hm1 in Hd1.
  pose proof (Zdigits2_succ (shr_m mrs1) mr H1 Hr) as Hdr.
  pose proof (shr_fexp_spec mr e1 loc_Exact ltac:(lia)) as [He2 Hm2].
  destruct (shr_fexp prec emax mr e1 loc_Exact) as [mrs2 e2]. cbn [fst snd] in He2, Hm2.
  rewrite <- He2 in Hm2.
  change (Zdigits2 (Z.pos m)) with (bits m) in *.
  unfold fexp, SpecFloat.emin, prec, emax in *.
  destruct (shr_m mrs2) as [ | m2 | m2] eqn:E2.
  - reflexivity.
  - assert (0 < mr) as Hmr.
    { destruct (Z.eq_dec mr 0) as [E0 | ]; [ | lia ].
      rewrite E0, Z.div_0_l in Hm2 by (apply Z.pow_nonzero; lia). discriminate. }
    pose proof (Zdigits2_div_pow2 mr (e2 - e1) Hmr ltac:(lia)) as Hd2.
    rewrite <- Hm2 in Hd2. change (Zdigits2 (Z.pos m2)) with (bits m2) in Hd2.
    pose proof (bits_pos m2).
    pose proof (bits_pos m).
    destruct (Z.leb_spec e2 (1024 - 53)); [ split; [ reflexivity | lia ] | lia ].
  - assert (0 <= mr / 2 ^ (e2 - e1)) by (apply Z.div_pos; lia). lia.
Qed.

Lemma shl_align_spec (m : positive) (e e' : Z) :
  (shl_align m e e').2 = Z.min e e'
  /\ Z.pos (shl_align m e e').1 = Z.pos m * 2 ^ (e - Z.min e e').
Proof.
  unfold shl_align. destruct (e' - e) as [ | d | d] eqn:Ed; cbn [fst snd].
  - replace (Z.min e e') with e by lia. rewrite Z.sub_diag. cbn. lia.
  - replace (Z.min e e') with e by lia. rewrite Z.sub_diag. cbn. lia.
  - replace (Z.min e e') with e' by lia. split; [ reflexivity | ].
    change (Pos.iter xO m d) with (shift_pos d m).
    rewrite shift_pos_correct, Zpower_pos_nat, Zpower_nat_Z, positive_nat_Z.
    replace (e - e') with (Z.pos d) by lia. lia.
Qed.

Lemma bits_mul_pow2 (m p : positive) (k : Z) :
  0 <= k -> Z.pos p = Z.pos m * 2 ^ k -> bits p = bits m + k.
Proof.
  intros Hk E. rewrite !digits2_log2, E, Z.log2_mul_pow2 by lia. lia.
Qed.

Lemma binary_round_small (s : bool) (m : positive) (e : Z) (b : Z) :
  bits m + e <= b -> - 1074 <= b <= 970 ->
  match binary_round prec emax s m e with
  | S754_zero s' => s' = s
  | S754_finite s' m' e' => s' = s /\ bits m' + e' <= b + 1
  | _ => False
  end.
Proof.
  intros Hb Hrange. unfold binary_round.
  destruct (shl_align_spec m e (fexp prec emax (Z.pos (digits2_pos m) + e))) as [Hez Hmz].
  destruct (shl_align m e _) as [mz ez]. cbn [fst snd] in Hez, Hmz.
  apply binary_round_aux_small; [ | assumption ].
  rewrite (bits_mul_pow2 m mz (e - ez)) by (rewrite ?Hez; lia || assumption). lia.
Qed.

(** Normalising a number that is not negative. *)
Lemma binary_normalize_small (M e b : Z) :
  0 <= M -> (0 < M -> Zdigits2 M + e <= b) -> - 1074 <= b <= 970 ->
  small (b + 1) (binary_normalize prec emax M e false) = true.
Proof.
  intros HM Hb Hrange. destruct M as [ | p | p]; [ reflexivity | | lia ].
  cbn [binary_normalize].
  pose proof (binary_round_small false p e b (Hb ltac:(lia)) Hrange) as H.
  destruct (binary_round prec emax false p e) as [ | | | s' m' e']; try contradiction.
  - reflexivity.
  - destruct H as [-> H]. cbn. apply Z.leb_le. exact H.
Qed.

Lemma small_cases (b : Z) (x : float) :
  small b x = true ->
  (exists s, x = S754_zero s) \/ (exists m e, x = S754_finite false m e /\ bits m + e <= b).
Proof.
  destruct x as [s | s | | [ | ] m e]; cbn; try discriminate.
  - eauto.
  - intros H. apply Z.leb_le in H. eauto.
Qed.

Lemma small_weaken (b b' : Z) (x : float) : b <= b' -> small b x = true -> small b' x = true.
Proof.
  intros Hb H. destruct x as [s | s | | [ | ] m e]; cbn in *; try discriminate; try reflexivity.
  apply Z.leb_le in H. apply Z.leb_le. lia.
Qed.

(** Products of small floats are small. *)
Lemma fmul_small (bx by' : Z) (x y : float) :
  small bx x = true -> small by' y = true -> - 1074 <= bx + by' <= 970 ->
  small (bx + by' + 1) (fmul x y) = true.
Proof.
  intros Hx Hy Hrange.
  apply small_cases in Hx as [[sx ->] | (mx & ex & -> & Hx)];
    apply small_cases in Hy as [[sy ->] | (my & ey & -> & Hy)]; try reflexivity.
  unfold fmul, SFmul. cbn [xorb].
  assert (bits (mx * my) + (ex + ey) <= bx + by') as Hb.
  { rewrite !digits2_log2 in *. rewrite Pos2Z.inj_mul.
    pose proof (Z.log2_mul_above (Z.pos mx) (Z.pos my) ltac:(lia) ltac:(lia)). lia. }
  pose proof (binary_round_aux_small false (mx * my) (ex + ey) loc_Exact _ Hb Hrange) as H.
  destruct (binary_round_aux _ _ _ _ _ _) as [ | | | s' m' e']; try contradiction.
  - reflexivity.
  - destruct H as [-> H]. cbn. apply Z.leb_le. exact H.
Qed.

Lemma Zdigits2_lt_pow2 (M b : Z) : 0 < M -> 0 <= b -> M < 2 ^ b -> Zdigits2 M <= b.
Proof.
  intros HM Hb H. rewrite Zdigits2_nonneg by lia.
  destruct (Z.eqb_spec M 0); [ lia | ].
  apply Z.log2_lt_pow2 in H; lia.
Qed.

Lemma pos_lt_pow2_bits (m : positive) : Z.pos m < 2 ^ bits m.
Proof.
  rewrite digits2_log2. pose proof (Z.log2_spec (Z.pos m) ltac:(lia)). lia.
Qed.

(** Sums of small floats are small. *)
Lemma fadd_small (b : Z) (x y : float) :
  small b x = true -> small b y = true -> - 1074 <= b <= 969 ->
  small (b + 2) (fadd x y) = true.
Proof.
  intros Hx Hy Hrange.
  apply small_cases in Hx as [[sx ->] | (mx & ex & -> & Hx)];
    apply small_cases in Hy as [[sy ->] | (my & ey & -> & Hy)].
  - destruct sx, sy; reflexivity.
  - cbn. apply Z.leb_le. lia.
  - cbn. apply Z.leb_le. lia.
  - unfold fadd, SFadd. cbn [cond_Zopp].
    destruct (shl_align_spec mx ex (Z.min ex ey)) as [_ Hmx].
    destruct (shl_align_spec my ey (Z.min ex ey)) as [_ Hmy].
    replace (Z.min ex (Z.min ex ey)) with (Z.min ex ey) in Hmx by lia.
    replace (Z.min ey (Z.min ex ey)) with (Z.min ex ey) in Hmy by lia.
    set (ez := Z.min ex ey) in *.
    set (px := (shl_align mx ex ez).1) in *. set (py := (shl_align my ey ez).1) in *.
    replace (b + 2) with (b + 1 + 1) by lia.
    apply binary_normalize_small; [ lia | | lia ].
    intros _.
    assert (Z.pos px < 2 ^ (b - ez)) as Hpx.
    { rewrite Hmx. pose proof (pos_lt_pow2_bits mx).
      apply Z.lt_le_trans with (2 ^ bits mx * 2 ^ (ex - ez)).
      - apply Z.mul_lt_mono_pos_r; [ apply Z.pow_pos_nonneg; lia | assumption ].
      - rewrite <- Z.pow_add_r by (pose proof (bits_pos mx); lia).
        apply Z.pow_le_mono_r; lia. }
    assert (Z.pos py < 2 ^ (b - ez)) as Hpy.
    { rewrite Hmy. pose proof (pos_lt_pow2_bits my).
      apply Z.lt_le_trans with (2 ^ bits my * 2 ^ (ey - ez)).
      - apply Z.mul_lt_mono_pos_r; [ apply Z.pow_pos_nonneg; lia | assumption ].
      - rewrite <- Z.pow_add_r by (pose proof (bits_pos my); lia).
        apply Z.pow_le_mono_r; lia. }
    pose proof (bits_pos mx).
    assert (Zdigits2 (Z.pos px + Z.pos py) <= b - ez + 1); [ | lia ].
    apply Zdigits2_lt_pow2; [ lia | lia | ].
    rewrite Z.pow_add_r by lia. lia.
Qed.

Lemma same_float_eq (a b : float) : same_float a b = true -> a = b.
Proof.
  destruct a as [s | s | | s m e], b as [s' | s' | | s' m' e']; cbn; try discriminate;
    try reflexivity.
  - intros H. apply Bool.eqb_prop in H. congruence.
  - intros H. apply Bool.eqb_prop in H. congruence.
  - intros H. apply andb_true_iff in H as [H He]. apply andb_true_iff in H as [Hs Hm].
    apply Bool.eqb_prop in Hs. apply Pos.eqb_eq in Hm. apply Z.eqb_eq in He. congruence.
Qed.

Lemma channel_facts (c : Z) :
  valid_channel c ->
  float_of_int c = Ok (channel c)
  /\ small 8 (channel c) = true
  /\ int_of_float (channel c) = Ok c
  /\ fmul (channel c) fone = channel c
  /\ fmul (channel c) fzero = fzero
  /\ fadd fzero (channel c) = channel c
  /\ fadd (channel c) fzero = channel c.
Proof.
  intros Hc.
  assert (channel_ok c = true) as H.
  { pose proof (forall_below (fun n => channel_ok (Z.of_nat n)) 256
                  ltac:(vm_compute; reflexivity) (Z.to_nat c)) as H.
    cbv beta in H. rewrite Z2Nat.id in H by (unfold valid_channel in Hc; lia).
    apply H. unfold valid_channel in Hc. lia. }
  unfold channel_ok in H.
  destruct (float_of_int c) as [f | ]; [ | discriminate ].
  destruct (int_of_float (channel c)) as [z | ]; [ | discriminate ].
  repeat (apply andb_true_iff in H as [H ?]).
  apply same_float_eq in H. subst f.
  repeat match goal with K : same_float _ _ = true |- _ => apply same_float_eq in K end.
  match goal with K : (_ =? _) = true |- _ => apply Z.eqb_eq in K; subst z end.
  auto 10.
Qed.

Lemma fone_eq : fone = S754_finite false 4503599627370496 (- 52).
Proof. vm_compute. reflexivity. Qed.

(** An alpha in range is a zero or a positive float of at most 53 digits
    that does not exceed one. *)
Lemma valid_alpha_cases (a : float) :
  valid_alpha a ->
  (exists s, a = S754_zero s)
  \/ (exists m e, a = S754_finite false m e /\ bits m <= 53
                  /\ (e <= - 53 \/ (e = - 52 /\ Z.pos m <= 4503599627370496))).
Proof.
  intros (Hv & H0 & H1).
  destruct a as [s | s | | s m e].
  - eauto.
  - destruct s; discriminate.
  - discriminate.
  - right. destruct s; [ discriminate | ].
    exists m, e. split; [ reflexivity | ].
    unfold fvalid in Hv. cbn [valid_binary] in Hv. unfold bounded in Hv.
    apply andb_true_iff in Hv as [Hc _]. unfold canonical_mantissa in Hc.
    apply Z.eqb_eq in Hc. unfold fexp, SpecFloat.emin, prec, emax in Hc.
    change (Z.pos (digits2_pos m)) with (bits m) in Hc.
    split; [ lia | ].
    unfold fleb, SFleb in H1. rewrite fone_eq in H1.
    cbn [SFcompare] in H1.
    destruct (Z.compare_spec e (- 52)) as [He | He | He]; [ | lia | discriminate ].
    right. split; [ assumption | ].
    rewrite Pos.compare_cont_spec in H1. cbn [Pos.switch_Eq] in H1.
    destruct (Pos.compare_spec m 4503599627370496) as [Hm | Hm | Hm].
    { rewrite Hm. reflexivity. }
    { apply Z.lt_le_incl. exact Hm. }
    { discriminate H1. }
Qed.

Lemma valid_alpha_small (a : float) : valid_alpha a -> small 1 a = true.
Proof.
  intros H. apply valid_alpha_cases in H as [[s ->] | (m & e & -> & Hb & He)].
  - reflexivity.
  - cbn. apply Z.leb_le. lia.
Qed.

(** [1 - alpha] for an alpha in range. *)
Lemma fsub_one_small (a : float) : valid_alpha a -> small 1 (fsub fone a) = true.
Proof.
  intros H. apply valid_alpha_cases in H as [[s ->] | (m & e & -> & Hb & He)].
  - reflexivity.
  - unfold fsub. rewrite fone_eq. cbn [SFsub cond_Zopp].
    destruct (shl_align_spec 4503599627370496 (- 52) (Z.min (- 52) e)) as [_ H1].
    destruct (shl_align_spec m e (Z.min (- 52) e)) as [_ Hm].
    replace (Z.min (- 52) (Z.min (- 52) e)) with e in H1 by lia.
    replace (Z.min e (Z.min (- 52) e)) with e in Hm by lia.
    replace (Z.min (- 52) e) with e in * by lia.
    rewrite Z.sub_diag, Z.mul_1_r in Hm.
    set (p1 := (shl_align 4503599627370496 (- 52) e).1) in *.
    set (pm := (shl_align m e e).1) in *.
    assert (Z.pos p1 = 2 ^ (- e)) as Hp1.
    { rewrite H1. change (Z.pos 4503599627370496) with (2 ^ 52).
      rewrite <- Z.pow_add_r by lia. f_equal. lia. }
    pose proof (pos_lt_pow2_bits m) as Hlt.
    assert (Z.pos m <= 2 ^ (- e)) as Hle.
    { destruct He as [He | [-> Hm52]]; [ | exact Hm52 ].
      apply Z.lt_le_incl, Z.lt_le_trans with (2 ^ bits m); [ assumption | ].
      apply Z.pow_le_mono_r; pose proof (bits_pos m); lia. }
    replace 1 with (0 + 1) at 1 by lia.
    apply binary_normalize_small; [ lia | | lia ].
    intros Hpos.
    assert (Zdigits2 (Z.pos p1 - Z.pos pm) <= - e); [ | lia ].
    apply Zdigits2_lt_pow2; lia.
Qed.

(** ** Color.blend *)

(** On a float that is not negative, truncation is the floor. *)
Lemma int_of_float_small (b : Z) (x : float) :
  small b x = true -> exists z, int_of_float x = Ok z /\ floor_of_float x = Ok z.
Proof.
  intros H. apply small_cases in H as [[s ->] | (m & e & -> & _)]; cbn; eauto.
Qed.

(** The float the code truncates is small, for channels and an alpha in
    range. *)
Lemma blend_float_small (c c' : Z) (a : float) :
  valid_channel c -> valid_channel c' -> valid_alpha a ->
  small 13 (blend_float (channel c) a (channel c')) = true.
Proof.
  intros Hc Hc' Ha. unfold blend_float.
  destruct (channel_facts c Hc) as (_ & Hs & _).
  destruct (channel_facts c' Hc') as (_ & Hs' & _).
  pose proof (fmul_small 8 1 _ _ Hs (valid_alpha_small a Ha) ltac:(lia)) as H1.
  pose proof (fmul_small 8 1 _ _ Hs' (fsub_one_small a Ha) ltac:(lia)) as H2.
  apply (small_weaken _ 11) in H1; [ | lia ].
  apply (small_weaken _ 11) in H2; [ | lia ].
  apply (fadd_small 11 _ _ H1 H2). lia.
Qed.

Lemma blend_channel_floor (c c' : Z) (a : float) :
  valid_channel c -> valid_channel c' -> valid_alpha a ->
  exists z, blend_channel c a c' = Ok z
            /\ floor_of_float (blend_float (channel c) a (channel c')) = Ok z.
Proof.
  intros Hc Hc' Ha. unfold blend_channel.
  destruct (channel_facts c Hc) as (-> & _).
  destruct (channel_facts c' Hc') as (-> & _).
  cbn [mbind result_bind].
  apply (int_of_float_small 13), blend_float_small; assumption.
Qed.

Lemma blend_channel_transparent (c c' : Z) :
  valid_channel c -> valid_channel c' -> blend_channel c fzero c' = Ok c'.
Proof.
  intros Hc Hc'. unfold blend_channel, blend_float.
  destruct (channel_facts c Hc) as (-> & _ & _ & _ & Hz & _).
  destruct (channel_facts c' Hc') as (-> & _ & Hi & H1 & _ & H0 & _).
  cbn [mbind result_bind].
  change (fsub fone fzero) with fone. rewrite Hz, H1, H0. exact Hi.
Qed.

Lemma fsub_one_one : fsub fone fone = fzero.
Proof. vm_compute. reflexivity. Qed.

Lemma blend_channel_opaque (c c' : Z) :
  valid_channel c -> valid_channel c' -> blend_channel c fone c' = Ok c.
Proof.
  intros Hc Hc'. unfold blend_channel, blend_float.
  destruct (channel_facts c Hc) as (-> & _ & Hi & H1 & _ & _ & H0).
  destruct (channel_facts c' Hc') as (-> & _ & _ & _ & Hz & _).
  cbn [mbind result_bind].
  rewrite fsub_one_one, H1, Hz, H0. exact Hi.
Qed.

Lemma Color_blend_returns (fg bg : Color) :
  valid_color fg -> valid_channels bg -> returns (Color_blend fg bg).
Proof.
  intros [(Hr & Hg & Hb) Ha] (Hr' & Hg' & Hb'). unfold Color_blend.
  destruct (blend_channel_floor _ _ _ Hr Hr' Ha) as (r & -> & _).
  destruct (blend_channel_floor _ _ _ Hg Hg' Ha) as (g & -> & _).
  destruct (blend_channel_floor _ _ _ Hb Hb' Ha) as (b & -> & _).
  eexists. reflexivity.
Qed.

(** C1.  For channels in 0..255 and a foreground alpha in [0, 1], [blend]
    returns, and each channel of the result is the floor of
    [fg.c * fg.alpha + bg.c * (1 - fg.alpha)] evaluated in binary64
    arithmetic: the two products, the difference and the sum are each
    rounded to the nearest float ([fmul], [fsub], [fadd]) before the floor is
    taken.  Red with alpha 0.5 over blue gives (127, 0, 127); a foreground of
    alpha 0 gives the background's channels and one of alpha 1 the
    foreground's. *)
Theorem Color_blend_spec :
  (forall fg bg : Color,
      valid_channels fg -> valid_alpha (alpha fg) -> valid_channels bg ->
      exists c,
        Color_blend fg bg = Ok c
        /\ floor_of_float
             (fadd (fmul (channel (red fg)) (alpha fg))
                   (fmul (channel (red bg)) (fsub fone (alpha fg))))
           = Ok (red c)
        /\ floor_of_float
             (fadd (fmul (channel (green fg)) (alpha fg))
                   (fmul (channel (green bg)) (fsub fone (alpha fg))))
           = Ok (green c)
        /\ floor_of_float
             (fadd (fmul (channel (blue fg)) (alpha fg))
                   (fmul (channel (blue bg)) (fsub fone (alpha fg))))
           = Ok (blue c))
  /\ (exists c, Color_blend (mkColor 255 0 0 (decimal 5 (- 1))) (mkColor 0 0 255 fone) = Ok c
                /\ rgb c = (127, 0, 127))
  /\ (forall fg bg : Color,
        valid_channels fg -> valid_channels bg -> alpha fg = fzero ->
        exists c, Color_blend fg bg = Ok c /\ rgb c = rgb bg)
  /\ (forall fg bg : Color,
        valid_channels fg -> valid_channels bg -> alpha fg = fone ->
        exists c, Color_blend fg bg = Ok c /\ rgb c = rgb fg).
Proof.
  split; [ | split; [ | split ] ].
  - intros fg bg (Hr & Hg & Hb) Ha (Hr' & Hg' & Hb'). unfold Color_blend.
    destruct (blend_channel_floor _ _ _ Hr Hr' Ha) as (r & -> & Fr).
    destruct (blend_channel_floor _ _ _ Hg Hg' Ha) as (g & -> & Fg).
    destruct (blend_channel_floor _ _ _ Hb Hb' Ha) as (b & -> & Fb).
    unfold blend_float in Fr, Fg, Fb.
    cbn [mbind result_bind mret result_ret].
    eexists. split; [ reflexivity | ]. cbn [red green blue]. auto.
  - eexists. split; vm_compute; reflexivity.
  - intros fg bg (Hr & Hg & Hb) (Hr' & Hg' & Hb') Ha. unfold Color_blend. rewrite Ha.
    rewrite !blend_channel_transparent by assumption.
    eexists. split; reflexivity.
  - intros fg bg (Hr & Hg & Hb) (Hr' & Hg' & Hb') Ha. unfold Color_blend. rewrite Ha.
    rewrite !blend_channel_opaque by assumption.
    eexists. split; reflexivity.
Qed.

Lemma Color_blend_spec_witness :
  exists c,
    Color_blend (mkColor 10 200 30 (decimal 7 (- 1))) (mkColor 0 100 255 fone) = Ok c
    /\ floor_of_float
         (fadd (fmul (channel 10) (decimal 7 (- 1)))
               (fmul (channel 0) (fsub fone (decimal 7 (- 1)))))
       = Ok (red c)
    /\ floor_of_float
         (fadd (fmul (channel 200) (decimal 7 (- 1)))
               (fmul (channel 100) (fsub fone (decimal 7 (- 1)))))
       = Ok (green c)
    /\ floor_of_float
         (fadd (fmul (channel 30) (decimal 7 (- 1)))
               (fmul (channel 255) (fsub fone (decimal 7 (- 1)))))
       = Ok (blue c).
Proof.
  apply (proj1 Color_blend_spec (mkColor 10 200 30 (decimal 7 (- 1))) (mkColor 0 100 255 fone)).
  - unfold valid_channels, valid_channel. simpl. lia.
  - unfold valid_alpha. repeat split; vm_compute; reflexivity.
  - unfold valid_channels, valid_channel. simpl. lia.
Defined.

(** The formula of C1 read in exact arithmetic fails on the code: white at
    alpha 0.07 over white.  Both colours are in range; exactly,
    [255 * a + 255 * (1 - a)] is 255 whatever number [a] is, so the formula
    gives 255 in every channel; [blend] gives 254, because the rounded
    products 17.85 and 237.14999999999998 add up to 254.99999999999997. *)
Lemma Color_blend_not_exact :
  valid_color faint_white /\ valid_color white
  /\ Color_blend faint_white white = Ok (mkColor 254 254 254 fone)
  /\ spec_blend_channel (red faint_white) (alpha faint_white) (red white) = Some 255
  /\ (forall n d : Z, 0 < d -> (255 * n + 255 * (d - n)) / d = 255).
Proof.
  split; [ | split; [ | split; [ | split ] ] ].
  - split; [ unfold valid_channels, valid_channel; cbn; lia | ].
    unfold valid_alpha. repeat split; vm_compute; reflexivity.
  - split; [ unfold valid_channels, valid_channel; cbn; lia | ].
    unfold valid_alpha. repeat split; vm_compute; reflexivity.
  - vm_compute. reflexivity.
  - vm_compute. reflexivity.
  - intros n d Hd. replace (255 * n + 255 * (d - n)) with (255 * d) by ring.
    apply Z.div_mul. lia.
Qed.

(** ** Rectangle.draw *)

Lemma index_of_nonneg {A : Type} (l : list A) (k : nat) :
  (k < List.length l)%nat -> index_of l (Z.of_nat k) = Ok k.
Proof.
  intros H. unfold index_of.
  destruct (Z.leb_spec 0 (Z.of_nat k)); [ | lia ].
  destruct (Z.ltb_spec (Z.of_nat k) (Z.of_nat (List.length l))); [ | lia ].
  cbn. f_equal. lia.
Qed.

Lemma pixel_Some (cv : Canvas) (i j : Z) (c : Color) :
  pixel cv i j = Some c ->
  0 <= i /\ 0 <= j /\
  exists row, pixels cv !! Z.to_nat j = Some row /\ row !! Z.to_nat i = Some c.
Proof.
  unfold pixel. intros H.
  destruct (Z.leb_spec 0 i); [ | discriminate ].
  destruct (Z.leb_spec 0 j); [ | discriminate ].
  cbn in H. destruct (pixels cv !! Z.to_nat j) as [row | ] eqn:E; [ | discriminate ].
  cbn in H. eauto.
Qed.

(** One assignment of [draw], at a coordinate of the grid. *)
Lemma paint_in_grid (col : Color) (cv : Canvas) (i j : Z) (old : Color) :
  pixel cv i j = Some old ->
  paint col i j cv =
    match Color_blend col old with
    | Ok new => (Ok tt, with_pixel cv (Z.to_nat i) (Z.to_nat j) new)
    | Raise e => (Raise e, cv)
    end.
Proof.
  intros H. apply pixel_Some in H as (Hi & Hj & row & Hrow & Hold).
  revert Hrow Hold. rewrite <- (Z2Nat.id j Hj), <- (Z2Nat.id i Hi), !Nat2Z.id.
  intros Hrow Hold.
  unfold paint, with_pixel, getitem, setitem.
  unfold mbind, prog_bind, result_bind, get, lift, put.
  rewrite (index_of_nonneg (pixels cv) (Z.to_nat j))
    by (apply lookup_lt_is_Some; eauto).
  rewrite Hrow.
  rewrite (index_of_nonneg row (Z.to_nat i)) by (apply lookup_lt_is_Some; eauto).
  rewrite Hold.
  destruct (Color_blend col old); reflexivity.
Qed.

Lemma pixel_with_pixel (cv : Canvas) (i j i' j' : Z) (old c : Color) :
  pixel cv i j = Some old ->
  pixel (with_pixel cv (Z.to_nat i) (Z.to_nat j) c) i' j' =
    if decide (i' = i /\ j' = j) then Some c else pixel cv i' j'.
Proof.
  intros H. apply pixel_Some in H as (Hi & Hj & row & Hrow & Hold).
  unfold with_pixel. rewrite Hrow. unfold pixel. cbn [pixels set_pixels].
  destruct (Z.leb_spec 0 i'), (Z.leb_spec 0 j'); cbn [andb];
    try (destruct (decide _) as [[-> ->] | ]; [ lia | reflexivity ]).
  destruct (decide (Z.to_nat j' = Z.to_nat j)) as [Ej | Nj].
  - rewrite Ej, list_lookup_insert_eq by (apply lookup_lt_is_Some; eauto).
    rewrite Hrow. cbn.
    destruct (decide (Z.to_nat i' = Z.to_nat i)) as [Ei | Ni].
    + rewrite Ei, list_lookup_insert_eq by (apply lookup_lt_is_Some; eauto).
      rewrite decide_True by lia. reflexivity.
    + rewrite list_lookup_insert_ne by congruence.
      rewrite decide_False by lia. reflexivity.
  - rewrite list_lookup_insert_ne by congruence.
    rewrite decide_False by lia. reflexivity.
Qed.


(** *** The loops as one pass over the cells of the box *)

Lemma for_each_ext {S A : Type} (l : list A) (f g : A -> prog S unit) (s : S) :
  (forall a s', f a s' = g a s') -> for_each l f s = for_each l g s.
Proof.
  intros H. revert s. induction l as [ | a l IH]; intros s; [ reflexivity | ].
  cbn. unfold mbind, prog_bind. rewrite H.
  destruct (g a s) as [[[] | e] s']; [ apply IH | reflexivity ].
Qed.

Lemma for_each_app {S A : Type} (l1 l2 : list A) (f : A -> prog S unit) (s : S) :
  for_each (l1 ++ l2) f s = (for_each l1 f;; for_each l2 f) s.
Proof.
  revert s. induction l1 as [ | a l1 IH]; intros s.
  - reflexivity.
  - cbn. unfold mbind, prog_bind in *.
    destruct (f a s) as [[[] | e] s']; [ apply IH | reflexivity ].
Qed.

Lemma for_each_bind {S A B : Type} (l : list A) (k : A -> list B)
    (f : B -> prog S unit) (s : S) :
  for_each (l ≫= k) f s = for_each l (fun a => for_each (k a) f) s.
Proof.
  revert s. induction l as [ | a l IH]; intros s; [ reflexivity | ].
  cbn. rewrite for_each_app. unfold mbind at 1 3, prog_bind.
  destruct (for_each (k a) f s) as [[[] | e] s']; [ apply IH | reflexivity ].
Qed.

Lemma for_count_seqZ {S : Type} (n : nat) (i : Z) (body : Z -> prog S unit) (s : S) :
  for_count n i body s = for_each (seqZ i (Z.of_nat n)) body s.
Proof.
  revert i s. induction n as [ | n IH]; intros i s; [ reflexivity | ].
  rewrite seqZ_cons by lia. cbn [for_count for_each].
  unfold mbind, prog_bind.
  destruct (body i s) as [[[] | e] s']; [ | reflexivity ].
  rewrite IH. do 2 f_equal. lia.
Qed.

Lemma for_range_seqZ {S : Type} (lo hi : Z) (body : Z -> prog S unit) (s : S) :
  for_range lo hi body s = for_each (seqZ lo (hi - lo)) body s.
Proof.
  unfold for_range. rewrite for_count_seqZ.
  destruct (Z.le_gt_cases 0 (hi - lo)).
  - rewrite Z2Nat.id by assumption. reflexivity.
  - replace (Z.to_nat (hi - lo)) with 0%nat by lia.
    unfold seqZ. replace (Z.to_nat (hi - lo)) with 0%nat by lia. reflexivity.
Qed.

Lemma Rectangle_draw_cells (r : Rectangle) (cv : Canvas) :
  Rectangle_draw r cv = for_each (cells r) (paint_cell r) cv.
Proof.
  unfold Rectangle_draw, cells.
  rewrite for_range_seqZ, for_each_bind.
  replace (y r + height r - y r) with (height r) by lia.
  apply for_each_ext. intros j s.
  rewrite for_range_seqZ, for_each_bind.
  replace (x r + width r - x r) with (width r) by lia.
  apply for_each_ext. intros i s'.
  cbn. unfold paint_cell, mbind, prog_bind. cbn.
  destruct (on_border r i j);
    match goal with |- context [paint ?c i j s'] =>
      destruct (paint c i j s') as [[[] | e] s'']; reflexivity end.
Qed.

Lemma elem_of_cells (r : Rectangle) (i j : Z) :
  (i, j) ∈ cells r <-> in_box r i j.
Proof.
  unfold cells, in_box. rewrite list_elem_of_bind. split.
  - intros (j' & Hi & Hj). apply list_elem_of_bind in Hi as (i' & Hi' & Hi).
    apply list_elem_of_singleton in Hi'. injection Hi' as -> ->.
    apply elem_of_seqZ in Hi, Hj. lia.
  - intros [Hi Hj]. exists j. split; [ | apply elem_of_seqZ; lia ].
    apply list_elem_of_bind. exists i. split; [ | apply elem_of_seqZ; lia ].
    apply list_elem_of_singleton. reflexivity.
Qed.

Lemma NoDup_cells (r : Rectangle) : NoDup (cells r).
Proof.
  unfold cells.
  apply NoDup_bind.
  - intros j1 j2 c _ _ H1 H2.
    apply list_elem_of_bind in H1 as (i1 & H1 & _), H2 as (i2 & H2 & _).
    apply list_elem_of_singleton in H1, H2. congruence.
  - intros j _. apply NoDup_bind.
    + intros i1 i2 c _ _ H1 H2. apply list_elem_of_singleton in H1, H2. congruence.
    + intros i _. apply NoDup_singleton.
    + apply NoDup_seqZ.
  - apply NoDup_seqZ.
Qed.


(** *** What a pass over cells of the grid leaves behind *)

Lemma on_border_ring (r : Rectangle) (i j : Z) :
  on_border r i j = true <-> on_ring r i j.
Proof.
  unfold on_border, on_ring.
  rewrite !orb_true_iff, !Z.eqb_eq. tauto.
Qed.

Lemma paint_cell_colour (r : Rectangle) (i j : Z) :
  paint_cell r (i, j) = paint (colour_at r i j) i j.
Proof.
  unfold paint_cell, colour_at. cbn.
  destruct (on_border r i j) eqn:E.
  - rewrite decide_True by (apply on_border_ring; assumption). reflexivity.
  - rewrite decide_False; [ reflexivity | ].
    intros H. apply on_border_ring in H. congruence.
Qed.

(** A pass never changes a pixel it does not reach, whether it ends by
    returning or by raising. *)
Lemma paint_cells_other (r : Rectangle) (l : list (Z * Z)) (cv : Canvas) :
  (forall c, c ∈ l -> is_Some (pixel cv c.1 c.2)) ->
  forall i j, (i, j) ∉ l ->
    pixel (for_each l (paint_cell r) cv).2 i j = pixel cv i j.
Proof.
  revert cv. induction l as [ | [i0 j0] l IH]; intros cv Hgrid i j Hout.
  - reflexivity.
  - destruct (Hgrid (i0, j0)) as [old Hold]; [ left | ]. cbn in Hold.
    cbn [for_each]. unfold mbind, prog_bind.
    rewrite paint_cell_colour, (paint_in_grid _ cv i0 j0 old Hold).
    destruct (Color_blend (colour_at r i0 j0) old) as [new | e]; [ | reflexivity ].
    rewrite IH.
    + rewrite (pixel_with_pixel cv i0 j0 i j old new Hold).
      rewrite decide_False; [ reflexivity | ].
      intros [-> ->]. apply Hout. left.
    + intros [i1 j1] H1. cbn.
      rewrite (pixel_with_pixel cv i0 j0 i1 j1 old new Hold).
      destruct (decide _); [ eauto | ]. apply (Hgrid (i1, j1)). right. exact H1.
    + intros H. apply Hout. right. exact H.
Qed.

(** A pass over distinct cells whose blends all return ends by returning,
    and each cell then holds its blend. *)
Lemma paint_cells_result (r : Rectangle) (l : list (Z * Z)) (cv : Canvas) :
  NoDup l ->
  (forall c, c ∈ l -> is_Some (blended r cv c.1 c.2)) ->
  (for_each l (paint_cell r) cv).1 = Ok tt
  /\ forall c, c ∈ l -> pixel (for_each l (paint_cell r) cv).2 c.1 c.2 = blended r cv c.1 c.2.
Proof.
  revert cv. induction l as [ | [i0 j0] l IH]; intros cv Hnd Hb.
  - split; [ reflexivity | ]. intros c Hc. inversion Hc.
  - apply NoDup_cons in Hnd as [Hnotin Hnd].
    destruct (Hb (i0, j0)) as [new Hnew]; [ left | ].
    unfold blended in Hnew. cbn in Hnew.
    destruct (pixel cv i0 j0) as [old | ] eqn:Hold; [ | discriminate ].
    cbn in Hnew.
    destruct (Color_blend (colour_at r i0 j0) old) as [new' | ] eqn:Hblend;
      [ | discriminate ].
    injection Hnew as ->.
    assert (forall i j, (i, j) ∈ l ->
              blended r (with_pixel cv (Z.to_nat i0) (Z.to_nat j0) new) i j
              = blended r cv i j) as Hsame.
    { intros i j Hin. unfold blended.
      rewrite (pixel_with_pixel cv i0 j0 i j old new Hold).
      rewrite decide_False; [ reflexivity | ].
      intros [-> ->]. contradiction. }
    specialize (IH (with_pixel cv (Z.to_nat i0) (Z.to_nat j0) new) Hnd).
    destruct IH as [IHok IHpix].
    { intros [i j] Hin. cbn. rewrite Hsame by assumption.
      apply (Hb (i, j)). right. exact Hin. }
    assert (for_each ((i0, j0) :: l) (paint_cell r) cv
            = for_each l (paint_cell r) (with_pixel cv (Z.to_nat i0) (Z.to_nat j0) new)) as E.
    { cbn [for_each]. unfold mbind, prog_bind.
      rewrite paint_cell_colour, (paint_in_grid _ cv i0 j0 old Hold), Hblend.
      reflexivity. }
    rewrite E. split; [ exact IHok | ].
    intros [i j] Hin. cbn.
    apply elem_of_cons in Hin as [Heq | Hin].
    + injection Heq as -> ->.
      rewrite paint_cells_other.
      * rewrite (pixel_with_pixel cv i0 j0 i0 j0 old new Hold).
        rewrite decide_True by auto.
        unfold blended. rewrite Hold. cbn. rewrite Hblend. reflexivity.
      * intros [i j] Hin. cbn.
        rewrite (pixel_with_pixel cv i0 j0 i j old new Hold).
        destruct (decide _); [ eauto | ].
        destruct (Hb (i, j)) as [c Hc]; [ right; exact Hin | ].
        unfold blended in Hc. cbn in Hc.
        destruct (pixel cv i j); [ eauto | discriminate ].
      * exact Hnotin.
    + pose proof (IHpix (i, j) Hin) as K. cbn in K. rewrite K.
      apply Hsame. exact Hin.
Qed.


Lemma pixel_Canvas_init (w h : Z) (t : str) (i j : Z) :
  0 <= i < w -> 0 <= j < h -> pixel (Canvas_init w h t) i j = Some white.
Proof.
  intros Hi Hj. unfold pixel, Canvas_init. cbn [pixels].
  destruct (Z.leb_spec 0 i); [ | lia ]. destruct (Z.leb_spec 0 j); [ | lia ].
  cbn [andb]. rewrite lookup_replicate_2 by lia. cbn.
  apply lookup_replicate_2. lia.
Qed.

(** C10.  When the box of a rectangle lies within the pixel grid, [draw]
    leaves every pixel outside the box as it was (whether it returns or a
    blend raises on the way). *)
Theorem Rectangle_draw_frame (r : Rectangle) (cv : Canvas) :
  box_in_grid r cv ->
  forall i j, ~ in_box r i j -> pixel (Rectangle_draw r cv).2 i j = pixel cv i j.
Proof.
  intros Hgrid i j Hout.
  rewrite Rectangle_draw_cells.
  apply paint_cells_other.
  - intros [i' j'] Hin. apply Hgrid, elem_of_cells, Hin.
  - intros Hin. apply Hout, elem_of_cells, Hin.
Qed.

Lemma Rectangle_draw_frame_witness :
  pixel (Rectangle_draw (Rectangle_init 1 1 2 2) (Canvas_init 4 4 (py "Canvas"))).2 0 3
  = pixel (Canvas_init 4 4 (py "Canvas")) 0 3.
Proof.
  apply (Rectangle_draw_frame (Rectangle_init 1 1 2 2) (Canvas_init 4 4 (py "Canvas"))).
  - intros i j [Hi Hj]. simpl in Hi, Hj.
    rewrite pixel_Canvas_init by lia. eauto.
  - unfold in_box. simpl. lia.
Defined.

(** C3.  [draw] is one pass over the coordinates of the box
    [[x, x+width) x [y, y+height)], each reached once, assigning
    [pixels[j][i] = colour.blend(pixels[j][i])] with the border colour on the
    first and last row and column and the background colour elsewhere (an
    assignment that raises ends the pass).  When the box lies within the
    grid and the blends return, [draw] returns and every pixel of the box
    holds its blend; the blends return when the colours of the rectangle
    and the pixels of the box have channels in 0..255 and the rectangle's
    alphas lie in [0, 1].  So the 5 by 5 rectangle with an opaque red border and
    a transparent fill, drawn on a white canvas, leaves 16 red pixels around
    9 white ones. *)
Theorem Rectangle_draw_spec :
  (forall r cv, Rectangle_draw r cv = for_each (cells r) (paint_cell r) cv)
  /\ (forall r i j, (i, j) ∈ cells r <-> in_box r i j)
  /\ (forall r, NoDup (cells r))
  /\ (forall r i j,
        paint_cell r (i, j)
        = paint (if decide (on_ring r i j) then border_color r else background_color r) i j)
  /\ (forall r cv,
        (forall i j, in_box r i j -> is_Some (blended r cv i j)) ->
        (Rectangle_draw r cv).1 = Ok tt
        /\ forall i j, in_box r i j ->
             exists old new,
               pixel cv i j = Some old
               /\ Color_blend (if decide (on_ring r i j) then border_color r
                               else background_color r) old = Ok new
               /\ pixel (Rectangle_draw r cv).2 i j = Some new)
  /\ (forall r cv,
        box_in_grid r cv -> valid_color (border_color r) -> valid_color (background_color r) ->
        (forall i j old, in_box r i j -> pixel cv i j = Some old -> valid_channels old) ->
        (Rectangle_draw r cv).1 = Ok tt)
  /\ (forall w h t, 5 <= w -> 5 <= h ->
        (Rectangle_draw red_square (Canvas_init w h t)).1 = Ok tt
        /\ (forall i j, 0 <= i < 5 -> 0 <= j < 5 ->
              exists c, pixel (Rectangle_draw red_square (Canvas_init w h t)).2 i j = Some c
                        /\ rgb c = if decide (1 <= i <= 3 /\ 1 <= j <= 3)
                                   then (255, 255, 255) else (255, 0, 0))
        /\ List.length (filter (fun c => on_ring red_square c.1 c.2) (cells red_square)) = 16%nat
        /\ List.length (filter (fun c => ~ on_ring red_square c.1 c.2) (cells red_square)) = 9%nat).
Proof.
  assert (forall r cv,
        (forall i j, in_box r i j -> is_Some (blended r cv i j)) ->
        (Rectangle_draw r cv).1 = Ok tt
        /\ forall i j, in_box r i j ->
             exists old new,
               pixel cv i j = Some old
               /\ Color_blend (colour_at r i j) old = Ok new
               /\ pixel (Rectangle_draw r cv).2 i j = Some new) as Hbox.
  { intros r cv Hb. rewrite Rectangle_draw_cells.
    destruct (paint_cells_result r (cells r) cv (NoDup_cells r)) as [Hok Hpix].
    { intros [i j] Hin. apply Hb, elem_of_cells, Hin. }
    split; [ exact Hok | ]. intros i j Hin.
    specialize (Hpix (i, j)). cbn in Hpix. rewrite Hpix by (apply elem_of_cells, Hin).
    destruct (Hb i j Hin) as [new Hnew]. unfold blended in *.
    destruct (pixel cv i j) as [old | ] eqn:Hold; [ | discriminate ]. cbn in *.
    destruct (Color_blend (colour_at r i j) old) as [new' | ] eqn:Hbl; [ | discriminate ].
    exists old, new'. auto. }
  split; [ exact Rectangle_draw_cells | ].
  split; [ exact elem_of_cells | ].
  split; [ exact NoDup_cells | ].
  split; [ exact paint_cell_colour | ].
  split; [ exact Hbox | ].
  split.
  { intros r cv Hgrid Hborder Hfill Hpix. apply Hbox. intros i j Hin.
    destruct (Hgrid i j Hin) as [old Hold]. unfold blended. rewrite Hold. cbn.
    destruct (Color_blend_returns (colour_at r i j) old) as [new ->]; [ | | eauto ].
    - unfold colour_at. destruct (decide _); assumption.
    - apply (Hpix i j old Hin Hold). }
  intros w h t Hw Hh.
  assert (forall i j, in_box red_square i j ->
            blended red_square (Canvas_init w h t) i j
            = Some (if decide (1 <= i <= 3 /\ 1 <= j <= 3)
                    then white else mkColor 255 0 0 fone)) as Hblend.
  { intros i j [Hi Hj]. cbn in Hi, Hj. unfold blended.
    rewrite pixel_Canvas_init by lia. cbn.
    unfold colour_at.
    destruct (decide (on_ring red_square i j)) as [Hr | Hr];
      unfold on_ring in Hr; cbn in Hr.
    - rewrite decide_False by lia. reflexivity.
    - rewrite decide_True by lia. reflexivity. }
  destruct (Hbox red_square (Canvas_init w h t)) as [Hok Hpix].
  { intros i j Hin. rewrite Hblend by assumption. eauto. }
  split; [ exact Hok | ]. split; [ | split; reflexivity ].
  intros i j Hi Hj.
  destruct (Hpix i j) as (old & new & Hold & Hnew & Hres).
  { unfold in_box. cbn. lia. }
  exists new. split; [ exact Hres | ].
  specialize (Hblend i j). unfold blended in Hblend.
  rewrite Hold in Hblend. cbn in Hblend. rewrite Hnew in Hblend.
  injection Hblend as ->; [ | unfold in_box; cbn; lia ].
  destruct (decide _); reflexivity.
Qed.

Lemma Rectangle_draw_spec_witness :
  (Rectangle_draw red_square (Canvas_init 5 5 (py "Canvas"))).1 = Ok tt
  /\ exists c, pixel (Rectangle_draw red_square (Canvas_init 5 5 (py "Canvas"))).2 2 2 = Some c
               /\ rgb c = (255, 255, 255).
Proof.
  destruct Rectangle_draw_spec as (_ & _ & _ & _ & _ & _ & H).
  destruct (H 5 5 (py "Canvas")) as (Hok & Hpix & _); [ lia | lia | ].
  split; [ exact Hok | ].
  apply (Hpix 2 2); lia.
Defined.


(** ** Canvas.draw *)

Section Sorting.

Context {A : Type} (key : A -> Z).

Lemma insert_by_key_perm (a : A) (l : list A) : insert_by_key key a l ≡ₚ a :: l.
Proof.
  induction l as [ | b l IH]; cbn; [ reflexivity | ].
  destruct (key a <=? key b); [ reflexivity | ].
  rewrite IH. apply Permutation_swap.
Qed.

Lemma sort_by_key_perm (l : list A) : sort_by_key key l ≡ₚ l.
Proof.
  induction l as [ | a l IH]; cbn; [ reflexivity | ].
  rewrite insert_by_key_perm, IH. reflexivity.
Qed.

Lemma insert_by_key_sorted (a : A) (l : list A) :
  StronglySorted (fun u v => key u <= key v) l ->
  StronglySorted (fun u v => key u <= key v) (insert_by_key key a l).
Proof.
  induction 1 as [ | b l Hs IH Hb]; cbn.
  - repeat constructor.
  - destruct (Z.leb_spec (key a) (key b)) as [Hle | Hgt].
    + constructor; [ constructor; assumption | ].
      constructor; [ exact Hle | ].
      eapply Forall_impl; [ exact Hb | ]. cbn. intros c Hc. lia.
    + constructor; [ exact IH | ].
      rewrite insert_by_key_perm. constructor; [ lia | exact Hb ].
Qed.

Lemma sort_by_key_sorted (l : list A) :
  StronglySorted (fun u v => key u <= key v) (sort_by_key key l).
Proof.
  induction l as [ | a l IH]; cbn; [ constructor | ].
  apply insert_by_key_sorted, IH.
Qed.

(** Insertion keeps the new element ahead of the elements of its own key. *)
Lemma insert_by_key_stable (k : Z) (a : A) (l : list A) :
  filter (fun o => key o = k) (insert_by_key key a l)
  = filter (fun o => key o = k) (a :: l).
Proof.
  induction l as [ | b l IH]; cbn [insert_by_key]; [ reflexivity | ].
  destruct (Z.leb_spec (key a) (key b)) as [Hle | Hgt]; [ reflexivity | ].
  rewrite (filter_cons _ b), IH, !filter_cons.
  destruct (decide (key b = k)), (decide (key a = k)); try reflexivity. lia.
Qed.

Lemma sort_by_key_stable (k : Z) (l : list A) :
  filter (fun o => key o = k) (sort_by_key key l) = filter (fun o => key o = k) l.
Proof.
  induction l as [ | a l IH]; cbn [sort_by_key]; [ reflexivity | ].
  rewrite insert_by_key_stable, !filter_cons, IH. reflexivity.
Qed.

End Sorting.


(** ** Sequencing in [prog] *)

Lemma bind_ok {S R R' : Type} (m : prog S R) (k : R -> prog S R') (s s' : S) (a : R) :
  m s = (Ok a, s') -> (m ≫= k) s = k a s'.
Proof. intros H. unfold mbind, prog_bind. rewrite H. reflexivity. Qed.

Lemma bind_raise {S R R' : Type} (m : prog S R) (k : R -> prog S R') (s s' : S) (e : exn) :
  m s = (Raise e, s') -> (m ≫= k) s = (Raise e, s').
Proof. intros H. unfold mbind, prog_bind. rewrite H. reflexivity. Qed.

Section CompositorFacts.

Context {A : Type} {Object_A : Object A}.

Lemma Log_record_ok (l : ref) (d : float) (st : LogStore) :
  (Log_record l d st).1 = Ok tt.
Proof. unfold Log_record. destruct (own_records (instance st l)); reflexivity. Qed.

(** Tracking a function returns, leaves the canvas and the drawables alone,
    and afterwards the function has a Log. *)
Lemma Telemetry_track_ok (n : option str) (f : function) (w : World A) :
  exists w', Telemetry_track n f w = (Ok tt, w')
             /\ self_canvas w' = self_canvas w
             /\ Canvas_objects w' = Canvas_objects w
             /\ tracked w' (fn_id f)
             /\ (forall g, tracked w g -> tracked w' g).
Proof.
  unfold Telemetry_track, mbind, prog_bind, get, tracked.
  destruct (Telemetry_logs w !! fn_id f) as [l | ] eqn:E.
  - exists w. rewrite E. eauto 10.
  - eexists. split; [ reflexivity | ]. cbn.
    split; [ reflexivity | ]. split; [ reflexivity | ].
    split; [ rewrite lookup_insert_eq; eauto | ].
    intros g Hg. rewrite lookup_insert. destruct (decide _); eauto.
Qed.

Lemma Telemetry_record_ok (f : function) (d : float) (w : World A) :
  tracked w (fn_id f) ->
  exists w', Telemetry_record f d w = (Ok tt, w')
             /\ self_canvas w' = self_canvas w
             /\ Canvas_objects w' = Canvas_objects w
             /\ Telemetry_logs w' = Telemetry_logs w.
Proof.
  intros [l Hl]. unfold Telemetry_record, mbind, prog_bind, get. rewrite Hl.
  unfold on_store.
  pose proof (Log_record_ok l d (store w)) as Hok.
  destruct (Log_record l d (store w)) as [r st']. cbn in Hok. subst r.
  eexists. split; [ reflexivity | ]. repeat split; reflexivity.
Qed.

Lemma Telemetry_record_scene (f : function) (d : float) (w : World A) :
  self_canvas (Telemetry_record f d w).2 = self_canvas w
  /\ Canvas_objects (Telemetry_record f d w).2 = Canvas_objects w.
Proof.
  unfold Telemetry_record, mbind, prog_bind, get.
  destruct (Telemetry_logs w !! fn_id f) as [l | ].
  - unfold on_store. destruct (Log_record l d (store w)). split; reflexivity.
  - split; reflexivity.
Qed.

Lemma time_time_eq (w : World A) :
  time_time w = (Ok (clock w (ticks w)),
                 mkWorld (self_canvas w) (Canvas_objects w) (Telemetry_roots w)
                   (Telemetry_logs w) (store w) (next_function w) (clock w) (S (ticks w))).
Proof. reflexivity. Qed.

(** The direct form of [measure] around a call that only touches the
    canvas: the call runs once, on the canvas as it stands, and [measure]
    raises exactly when the call does. *)
Lemma Telemetry_measure_on_canvas (n : option str) (f : function)
    (m : prog Canvas unit) (w : World A) :
  exists w',
    Telemetry_measure n f (on_canvas m;; mret VNone) w
    = (match (m (self_canvas w)).1 with Ok _ => Ok VNone | Raise e => Raise e end, w')
    /\ self_canvas w' = (m (self_canvas w)).2
    /\ Canvas_objects w' = Canvas_objects w
    /\ (forall g, tracked w g -> tracked w' g).
Proof.
  unfold Telemetry_measure.
  destruct (Telemetry_track_ok n f w) as (w1 & E1 & Hcv & Hobjs & Hlog & Hkeep).
  rewrite (bind_ok _ _ _ _ _ E1), (bind_ok _ _ _ _ _ (time_time_eq w1)).
  destruct (m (self_canvas w)) as [[[] | e] cv'] eqn:Em; cbn [fst snd].
  - erewrite bind_ok;
      [ | erewrite bind_ok; [ reflexivity | unfold on_canvas; cbn [self_canvas];
                                             rewrite Hcv, Em; reflexivity ] ].
    erewrite bind_ok; [ | apply time_time_eq ].
    match goal with |- context [(Telemetry_record f ?d ≫= _) ?w2] =>
      destruct (Telemetry_record_ok f d w2) as (w3 & E3 & Hcv3 & Hobjs3 & Hlogs3);
        [ exact Hlog | ] end.
    rewrite (bind_ok _ _ _ _ _ E3).
    exists w3. cbn in Hcv3, Hobjs3, Hlogs3. rewrite Hcv3, Hobjs3.
    unfold tracked in *. rewrite Hlogs3. auto.
  - erewrite bind_raise;
      [ | erewrite bind_raise; [ reflexivity | unfold on_canvas; cbn [self_canvas];
                                                rewrite Hcv, Em; reflexivity ] ].
    eexists. split; [ reflexivity | ]. cbn. auto.
Qed.

(** The loop of [Canvas.draw] is the drawables' [draw], one after the
    other in the order of the list, on the canvas. *)
Lemma draw_loop (objs : list A) (w : World A) :
  exists w',
    for_each objs (fun obj =>
      f ← new_lambda;
      _ ← Telemetry_measure (Some (py "Object")) f (on_canvas (draw obj);; mret VNone);
      mret tt) w
    = ((for_each objs draw (self_canvas w)).1, w')
    /\ self_canvas w' = (for_each objs draw (self_canvas w)).2
    /\ Canvas_objects w' = Canvas_objects w
    /\ (forall g, tracked w g -> tracked w' g).
Proof.
  revert w. induction objs as [ | obj objs IH]; intros w.
  - exists w. cbn. auto.
  - cbn [for_each].
    match goal with |- context [Telemetry_measure ?n _ _] =>
      destruct (Telemetry_measure_on_canvas n (mkFunction (next_function w) (py "<lambda>"))
                  (draw obj)
                  (mkWorld (self_canvas w) (Canvas_objects w) (Telemetry_roots w)
                     (Telemetry_logs w) (store w) (S (next_function w)) (clock w) (ticks w)))
        as (w2 & E2 & Hcv & Hobjs & Hkeep)
    end.
    cbn [self_canvas Canvas_objects] in E2, Hcv, Hobjs.
    destruct (draw obj (self_canvas w)) as [[[] | e] cv'] eqn:Ed; cbn [fst snd] in E2, Hcv.
    + erewrite bind_ok;
        [ | erewrite bind_ok; [ | reflexivity ];
            erewrite bind_ok; [ reflexivity | exact E2 ] ].
      rewrite (bind_ok _ _ _ _ _ Ed).
      destruct (IH w2) as (w3 & E3 & Hcv3 & Hobjs3 & Hkeep3).
      exists w3. rewrite E3, Hcv3, Hobjs3, Hcv, Hobjs.
      repeat split; try reflexivity. intros g Hg. apply Hkeep3, Hkeep, Hg.
    + erewrite bind_raise;
        [ | erewrite bind_ok; [ | reflexivity ];
            erewrite bind_raise; [ reflexivity | exact E2 ] ].
      rewrite (bind_raise _ _ _ _ _ Ed).
      exists w2. repeat split; auto.
Qed.

(** The body of [Canvas.draw]: the drawables are sorted where they are
    stored and then drawn in that order. *)
Lemma Canvas_draw_body_spec (w : World A) :
  let sorted := sort_by_key layer (Canvas_objects w) in
  exists w',
    Canvas_draw_body w
    = (match (for_each sorted draw (self_canvas w)).1 with
       | Ok _ => Ok VNone
       | Raise e => Raise e
       end, w')
    /\ self_canvas w' = (for_each sorted draw (self_canvas w)).2
    /\ Canvas_objects w' = sorted
    /\ (forall g, tracked w g -> tracked w' g).
Proof.
  intros sorted. unfold Canvas_draw_body.
  erewrite bind_ok; [ | reflexivity ].
  erewrite bind_ok; [ | reflexivity ].
  cbn [set_objects Canvas_objects]. fold sorted.
  destruct (draw_loop sorted (set_objects sorted w)) as (w2 & E2 & Hcv & Hobjs & Hkeep).
  cbn [set_objects self_canvas Canvas_objects] in E2, Hcv, Hobjs.
  exists w2.
  destruct (for_each sorted draw (self_canvas w)) as [[[] | e] cv'] eqn:Ed;
    cbn [fst snd] in E2, Hcv |- *.
  - rewrite (bind_ok _ _ _ _ _ E2). auto.
  - rewrite (bind_raise _ _ _ _ _ E2). auto.
Qed.

Lemma Canvas_draw_spec (w : World A) :
  let sorted := sort_by_key layer (Canvas_objects w) in
  self_canvas (Canvas_draw w).2 = (for_each sorted draw (self_canvas w)).2
  /\ Canvas_objects (Canvas_draw w).2 = sorted
  /\ (tracked w (fn_id draw_function) ->
      (Canvas_draw w).1 = match (for_each sorted draw (self_canvas w)).1 with
                          | Ok _ => Ok VNone
                          | Raise e => Raise e
                          end).
Proof.
  intros sorted. unfold Canvas_draw, Telemetry_wrapper.
  rewrite (bind_ok _ _ _ _ _ (time_time_eq w)).
  match goal with |- context [(Canvas_draw_body ≫= _) ?w1] =>
    destruct (Canvas_draw_body_spec w1) as (w2 & E2 & Hcv & Hobjs & Hkeep) end.
  cbn [self_canvas Canvas_objects] in E2, Hcv, Hobjs. fold sorted in E2, Hcv, Hobjs.
  destruct (for_each sorted draw (self_canvas w)) as [[[] | e] cv'] eqn:Ed;
    cbn [fst snd] in E2, Hcv |- *.
  - rewrite (bind_ok _ _ _ _ _ E2), (bind_ok _ _ _ _ _ (time_time_eq w2)).
    match goal with |- context [(Telemetry_record ?f ?d ≫= _) ?w3] =>
      pose proof (Telemetry_record_scene f d w3) as [Hcv3 Hobjs3];
      pose proof (Telemetry_record_ok f d w3) as Hrec;
      destruct (Telemetry_record f d w3) as [[[] | e] w4] eqn:E4 end;
      cbn [fst snd self_canvas Canvas_objects] in Hcv3, Hobjs3.
    + rewrite (bind_ok _ _ _ _ _ E4). cbn [fst snd mret prog_ret].
      rewrite Hcv3, Hobjs3. auto.
    + rewrite (bind_raise _ _ _ _ _ E4). cbn [fst snd].
      rewrite Hcv3, Hobjs3. split; [ auto | ]. split; [ auto | ].
      intros Ht. destruct Hrec as (w5 & E5 & _); [ apply (Hkeep _ Ht) | ].
      congruence.
  - rewrite (bind_raise _ _ _ _ _ E2). auto.
Qed.

Lemma Canvas_add_all (added : list A) (w : World A) :
  for_each added Canvas_add w = (Ok tt, set_objects (Canvas_objects w ++ added) w).
Proof.
  destruct w as [cv objs roots logs st nf clk tk]. cbn [Canvas_objects].
  revert objs. induction added as [ | a added IH]; intros objs.
  - cbn. unfold set_objects. cbn. rewrite app_nil_r. reflexivity.
  - cbn [for_each]. erewrite bind_ok; [ | reflexivity ].
    unfold set_objects at 1. cbn [self_canvas Canvas_objects Telemetry_roots
      Telemetry_logs store next_function clock ticks].
    rewrite IH. unfold set_objects. cbn. rewrite <- app_assoc. reflexivity.
Qed.

End CompositorFacts.

(** Stamps drawn one after the other leave their marks in that order. *)
Lemma Stamp_draw_all (l : list Stamp) (cv : Canvas) :
  title (for_each l draw cv).2 = title cv ++ map stamp_mark l.
Proof.
  revert cv. induction l as [ | a l IH]; intros cv.
  - cbn. rewrite app_nil_r. reflexivity.
  - cbn [for_each]. erewrite bind_ok; [ | reflexivity ].
    rewrite IH. cbn. rewrite <- app_assoc. reflexivity.
Qed.

(** C6.  [Canvas.draw] sorts the drawables by [layer], ascending and
    keeping the insertion order of equal layers (the sorted list has the same
    elements, and for every layer the same drawables in the same order), and
    the canvas ends as the drawables' [draw] leave it when run one after the
    other in that order, each once; a [draw] that raises ends the loop and
    [Canvas.draw] raises the same.  For layers 2, 1, 1, 3 the order is the
    second and third drawable, then the first, then the fourth.  Drawables
    that mark the canvas when drawn show the calls themselves: one mark
    each, in the sorted order. *)
Theorem Canvas_draw_order {A : Type} {Object_A : Object A} (w : World A) (added : list A) :
  let w1 := (for_each added Canvas_add w).2 in
  let sorted := sort_by_key layer (Canvas_objects w ++ added) in
  Canvas_objects w1 = Canvas_objects w ++ added
  /\ sorted ≡ₚ Canvas_objects w ++ added
  /\ StronglySorted (fun a b => layer a <= layer b) sorted
  /\ (forall k, filter (fun o => layer o = k) sorted
               = filter (fun o => layer o = k) (Canvas_objects w ++ added))
  /\ self_canvas (Canvas_draw w1).2 = (for_each sorted draw (self_canvas w)).2
  /\ Canvas_objects (Canvas_draw w1).2 = sorted
  /\ (tracked w (fn_id draw_function) ->
      (Canvas_draw w1).1 = match (for_each sorted draw (self_canvas w)).1 with
                           | Ok _ => Ok VNone
                           | Raise e => Raise e
                           end)
  /\ (forall a b c d : A,
        layer a = 2 -> layer b = 1 -> layer c = 1 -> layer d = 3 ->
        sort_by_key layer [a; b; c; d] = [b; c; a; d])
  /\ (forall ws : World Stamp,
        title (self_canvas (Canvas_draw ws).2)
        = title (self_canvas ws) ++ map stamp_mark (sort_by_key layer (Canvas_objects ws))).
Proof.
  intros w1 sorted. subst w1. rewrite Canvas_add_all. cbn [snd].
  pose proof (Canvas_draw_spec (set_objects (Canvas_objects w ++ added) w)) as H.
  cbn [set_objects self_canvas Canvas_objects] in H. fold sorted in H.
  destruct H as (Hcv & Hobjs & Hres).
  split; [ reflexivity | ].
  split; [ apply sort_by_key_perm | ].
  split; [ apply sort_by_key_sorted | ].
  split; [ intros k; apply sort_by_key_stable | ].
  split; [ exact Hcv | ]. split; [ exact Hobjs | ]. split; [ exact Hres | ].
  split.
  - intros a b c d Ha Hb Hc Hd.
    repeat (cbn [sort_by_key insert_by_key Z.leb Z.compare Pos.compare Pos.compare_cont];
            rewrite ?Ha, ?Hb, ?Hc, ?Hd).
    reflexivity.
  - intros ws. destruct (Canvas_draw_spec ws) as (-> & _). apply Stamp_draw_all.
Qed.

Lemma Canvas_draw_order_witness :
  sort_by_key layer [layered 2 tile; layered 1 tile; layered 1 (Rectangle_init 1 1 2 2);
                     layered 3 tile]
  = [layered 1 tile; layered 1 (Rectangle_init 1 1 2 2); layered 2 tile; layered 3 tile].
Proof.
  destruct (Canvas_draw_order
              (initial_world (Canvas_init 3 3 (py "Canvas")) (fun _ => fzero))
              (@nil Rectangle)) as (_ & _ & _ & _ & _ & _ & _ & H & _).
  apply H; reflexivity.
Defined.


(** ** Telemetry.measure *)

(** C5 (a defect of the code).  The direct form of [measure] ends in a bare
    [return]: whatever the operation returns, [measure] returns [None].  An
    operation that returns 42 shows it, and the wrapper of the decorating
    form, which does hand the result on, returns 42 for the same
    operation. *)
Theorem Telemetry_measure_returns_None :
  (forall (A : Type) (w : World A) n f (call : prog (World A) value) v,
      (Telemetry_measure n f call w).1 = Ok v -> v = VNone)
  /\ (Telemetry_measure (Some (py "answer")) answer answer_call script_world).1 = Ok VNone
  /\ (Telemetry_wrapper draw_function answer_call script_world).1 = Ok (VInt 42).
Proof.
  split; [ | split; reflexivity ].
  intros A w n f call v. unfold Telemetry_measure.
  unfold mbind, prog_bind.
  repeat match goal with
         | |- context [match ?m with (_, _) => _ end] => destruct m as [[? | ?] ?]
         end; cbn; congruence.
Qed.

(** ** Log *)

Lemma instance_Log_init (n : str) (st : LogStore) :
  instance (Log_init n st).2 (List.length (heap st)) = mkLog n None None
  /\ (Log_init n st).1 = Ok (List.length (heap st))
  /\ Log_records (Log_init n st).2 = Log_records st
  /\ Log_children (Log_init n st).2 = Log_children st.
Proof.
  unfold Log_init, instance. cbn.
  rewrite lookup_app_r by lia. rewrite Nat.sub_diag. cbn. auto.
Qed.

(** C2 (a defect of the code).  [records] and [children] are attributes of
    the class: an instance made by [Log(name)] has neither of its own, and
    what one such instance records, or takes as a child, every other such
    instance has recorded, or has as a child, too.  With two Logs of a
    fresh program, a sample recorded on the first gives the second, which
    had no average, the average 1.0. *)
Theorem Log_lists_are_shared :
  (forall st n, own_records (instance (Log_init n st).2 (List.length (heap st))) = None
                /\ own_children (instance (Log_init n st).2 (List.length (heap st))) = None)
  /\ (forall st l1 l2 d,
        own_records (instance st l1) = None -> own_records (instance st l2) = None ->
        records (Log_record l1 d st).2 l2 = records st l2 ++ [d])
  /\ (forall st l1 l2 c,
        own_children (instance st l1) = None -> own_children (instance st l2) = None ->
        c ∉ children st l1 ->
        children (Log_inside l1 c st).2 l2 = children st l2 ++ [c])
  /\ (Log_average two_logs 1%nat = Raise ZeroDivisionError
      /\ Log_average (Log_record 0%nat (decimal 1 0) two_logs).2 1%nat = Ok (decimal 1 0)
      /\ children (Log_inside 0%nat 0%nat two_logs).2 1%nat = [0%nat]).
Proof.
  split.
  { intros st n. destruct (instance_Log_init n st) as (-> & _). auto. }
  split.
  { intros st l1 l2 d H1 H2. unfold Log_record, records. rewrite H1. cbn.
    unfold instance in *. cbn. rewrite H2. reflexivity. }
  split.
  { intros st l1 l2 c H1 H2 Hc. unfold Log_inside.
    rewrite bool_decide_eq_false_2 by exact Hc.
    rewrite H1. unfold children, instance in *. cbn. rewrite H2. reflexivity. }
  repeat split; vm_compute; reflexivity.
Qed.

(** C4 (as amended).  With no samples [average] raises, and what it raises
    is the [ZeroDivisionError] of the division itself; it returns no
    value. *)
Theorem Log_average_no_samples (st : LogStore) (self : ref) :
  records st self = [] -> Log_average st self = Raise ZeroDivisionError.
Proof. intros H. unfold Log_average. rewrite H. reflexivity. Qed.

Lemma Log_average_no_samples_witness :
  Log_average two_logs 0%nat = Raise ZeroDivisionError.
Proof. apply (Log_average_no_samples two_logs 0%nat). reflexivity. Defined.

(** C4 as stated fails: no exception named NoSamples is raised by a fresh
    Log's [average]. *)
Lemma Log_average_not_NoSamples :
  ~ exists e, Log_average two_logs 0%nat = Raise e /\ exn_name e = "NoSamples"%string.
Proof.
  intros (e & H & Hname). vm_compute in H. injection H as <-. discriminate.
Qed.


(** ** Log.report *)

Lemma lines_nonempty (s : str) : lines s <> [].
Proof.
  destruct s as [ | c s]; cbn; [ discriminate | ].
  destruct (c =? newline)%N; [ discriminate | ].
  destruct (lines s); discriminate.
Qed.

Lemma lines_app_newline (a b : str) :
  lines (a ++ newline :: b) = lines a ++ lines b.
Proof.
  induction a as [ | c a IH]; cbn.
  - reflexivity.
  - destruct (c =? newline)%N; [ rewrite IH; reflexivity | ].
    rewrite IH. destruct (lines a) eqn:E; [ | reflexivity ].
    destruct (lines_nonempty a E).
Qed.

(** A prefix without a newline goes in front of the first line. *)
Lemma lines_prefix (p s : str) :
  newline ∉ p -> lines (p ++ s) = indent p [] (lines s).
Proof.
  intros Hp. induction p as [ | c p IH]; cbn.
  - destruct (lines s) eqn:E; [ destruct (lines_nonempty s E) | ].
    cbn. rewrite map_id. reflexivity.
  - apply not_elem_of_cons in Hp as [Hc Hp].
    destruct (N.eqb_spec c newline); [ congruence | ].
    rewrite IH by assumption.
    destruct (lines s) eqn:E; [ destruct (lines_nonempty s E) | ].
    reflexivity.
Qed.

(** Replacing each newline by a newline and [more] puts [more] in front of
    every line but the first. *)
Lemma lines_replace (more s : str) :
  newline ∉ more ->
  lines (replace_char newline (newline :: more) s) = indent [] more (lines s).
Proof.
  intros Hm. induction s as [ | c s IH]; cbn.
  - reflexivity.
  - destruct (N.eqb_spec c newline) as [-> | Hc].
    + cbn. rewrite lines_prefix by assumption.
      rewrite IH. destruct (lines s) eqn:E; [ destruct (lines_nonempty s E) | ].
      cbn. rewrite map_id. reflexivity.
    + cbn. destruct (N.eqb_spec c newline); [ contradiction | ].
      rewrite IH. destruct (lines s) eqn:E; [ destruct (lines_nonempty s E) | ].
      cbn. reflexivity.
Qed.

(** What one round of the loop appends, as lines. *)
Lemma lines_child (report first more r : str) :
  newline ∉ first -> newline ∉ more ->
  lines (report ++ (newline :: first) ++ replace_char newline (newline :: more) r)
  = lines report ++ indent first more (lines r).
Proof.
  intros Hf Hm. cbn [app]. rewrite lines_app_newline. f_equal.
  rewrite lines_prefix by assumption. rewrite lines_replace by assumption.
  destruct (lines r) eqn:E; [ destruct (lines_nonempty r E) | ].
  cbn. rewrite map_id. reflexivity.
Qed.

Lemma unlines_lines (s : str) : unlines (lines s) = s.
Proof.
  induction s as [ | c s IH]; cbn; [ reflexivity | ].
  destruct (c =? newline)%N eqn:Ec.
  - apply N.eqb_eq in Ec. subst c.
    destruct (lines s) eqn:E; [ destruct (lines_nonempty s E) | ].
    cbn in IH |- *. rewrite IH. reflexivity.
  - destruct (lines s) as [ | l [ | l' ls]] eqn:E.
    + destruct (lines_nonempty s E).
    + cbn in IH |- *. rewrite IH. reflexivity.
    + cbn in IH |- *. rewrite <- IH. reflexivity.
Qed.

(** The loop, given that each child's report is the lines of its tree. *)
Lemma report_loop_lines (report_of : ref -> result str) (st : LogStore)
    (cs : list ref) (ts : list LogTree) (report : str) :
  Forall2 (fun c t => exists r, report_of c = Ok r /\ lines r = report_lines t) cs ts ->
  exists s, report_loop report_of cs report = Ok s
            /\ lines s = lines report
                 ++ (fix below (ts : list LogTree) : list str :=
                       match ts with
                       | nil => nil
                       | t' :: nil => indent (py " └─ ") (py "  ") (report_lines t')
                       | t' :: ts' =>
                           indent (py " ├─ ") (py " │ ") (report_lines t') ++ below ts'
                       end) ts.
Proof.
  intros H. revert report. induction H as [ | c t cs ts (r & Hr & Hl) Hrest IH]; intros report.
  - exists report. cbn. rewrite app_nil_r. auto.
  - cbn [report_loop]. rewrite Hr. cbn [mbind result_bind].
    destruct Hrest as [ | c' t' cs' ts' Hc' Hrest'].
    + destruct (IH (report ++ (newline :: py " └─ ")
                      ++ replace_char newline (newline :: py "  ") r)) as (s & Hs & Hls).
      exists s. split; [ exact Hs | ]. rewrite Hls.
      rewrite lines_child by (vm_compute; intros K; inversion K; subst;
                               repeat match goal with H : _ ∈ _ |- _ => inversion H; clear H; subst end).
      rewrite Hl, app_nil_r. reflexivity.
    + destruct (IH (report ++ (newline :: py " ├─ ")
                      ++ replace_char newline (newline :: py " │ ") r)) as (s & Hs & Hls).
      exists s. split; [ exact Hs | ]. rewrite Hls.
      rewrite lines_child by (vm_compute; intros K; inversion K; subst;
                               repeat match goal with H : _ ∈ _ |- _ => inversion H; clear H; subst end).
      rewrite Hl, <- app_assoc. reflexivity.
Qed.

Lemma Log_report_lines (st : LogStore) (depth : nat) :
  forall self t,
    holds_tree st self t -> (tree_height t <= depth)%nat ->
    exists s, Log_report depth st self = Ok s /\ lines s = report_lines t.
Proof.
  induction depth as [ | depth IH]; intros self t H Hh.
  - destruct t. cbn in Hh. lia.
  - destruct H as [self avg ts Havg Hts]. cbn [tree_height] in Hh.
    cbn [Log_report]. rewrite Havg. cbn [mbind result_bind].
    apply (report_loop_lines _ st).
    assert (forall t', t' ∈ ts -> (tree_height t' <= depth)%nat) as Hsub.
    { intros t' Hin.
      assert (tree_height t' ∈ map tree_height ts) as Hm
        by (apply list_elem_of_fmap; eauto).
      apply max_list_elem_of_le in Hm. lia. }
    clear Hh Havg. induction Hts as [ | c t' cs ts' Hc Hrest IHrest]; constructor.
    + apply IH; [ exact Hc | apply Hsub; left ].
    + apply IHrest. intros t'' Hin. apply Hsub. right. exact Hin.
Qed.

(** C9 (as amended).  When the store holds a tree of Logs under [self],
    each with an average, and the interpreter allows the nesting, [report]
    returns these lines: the lines of [<name>: <average>s], then the report
    of each child, the first line of every child but the last after
    [" ├─ "] and its other lines after [" │ "], the first line of the last
    child after [" └─ "] and its other lines after two spaces.  The Log [X]
    with samples 1.0, 2.0 and 3.0 reports [X: 2.0s]. *)
Theorem Log_report_tree :
  (forall (st : LogStore) (depth : nat) (self : ref) (t : LogTree),
      holds_tree st self t -> (tree_height t <= depth)%nat ->
      Log_report depth st self = Ok (unlines (report_lines t)))
  /\ Log_report 1 three_samples 0%nat = Ok (py "X: 2.0s").
Proof.
  split; [ | vm_compute; reflexivity ].
  intros st depth self t H Hh.
  destruct (Log_report_lines st depth self t H Hh) as (s & -> & <-).
  rewrite unlines_lines. reflexivity.
Qed.

Lemma holds_family : holds_tree family 0%nat family_tree.
Proof.
  apply (holds_node family 0%nat (decimal 1 0) [Node (py "C") (decimal 1 0) []]).
  - vm_compute. reflexivity.
  - constructor; [ | constructor ].
    apply (holds_node family 1%nat (decimal 1 0) []).
    + vm_compute. reflexivity.
    + constructor.
Qed.

Lemma Log_report_tree_witness :
  Log_report 2 family 0%nat = Ok (unlines (report_lines family_tree)).
Proof.
  apply (proj1 Log_report_tree family 2%nat 0%nat family_tree).
  - exact holds_family.
  - vm_compute. lia.
Defined.

(** C9 as stated fails: with the prefixes ["├─ "] and ["└─ "] of the
    specification, which lack the leading space of the code's, the lines are
    not those [report] returns for a parent with one child; and a Log with
    a sample whose child has none does not render at all, its [report]
    raises. *)
Lemma Log_report_not_claimed_lines :
  holds_tree family 0%nat family_tree
  /\ Log_report 2 family 0%nat = Ok (py "P: 1.0s" ++ newline :: py " └─ C: 1.0s")
  /\ unlines (claimed_lines family_tree) = py "P: 1.0s" ++ newline :: py "└─ C: 1.0s"
  /\ Log_report 2 family 0%nat <> Ok (unlines (claimed_lines family_tree))
  /\ records childless_samples 0%nat = [decimal 1 0]
  /\ Log_report 2 childless_samples 0%nat = Raise ZeroDivisionError.
Proof.
  split; [ exact holds_family | ].
  split; [ vm_compute; reflexivity | ].
  split; [ vm_compute; reflexivity | ].
  split; [ vm_compute; discriminate | ].
  split; vm_compute; reflexivity.
Qed.

(* ================================================================= *)
(** * Further properties *)

(** ** Color.hex, both directions *)

Lemma any_hex_below (c : N) : any_hex c = true -> (N.to_nat c < 103)%nat.
Proof.
  unfold any_hex, hex_value. intros H.
  destruct ((48 <=? c) && (c <=? 57))%N eqn:E1.
  { apply andb_true_iff in E1 as [_ E1]. apply N.leb_le in E1. lia. }
  destruct ((97 <=? c) && (c <=? 102))%N eqn:E2.
  { apply andb_true_iff in E2 as [_ E2]. apply N.leb_le in E2. lia. }
  destruct ((65 <=? c) && (c <=? 70))%N eqn:E3.
  { apply andb_true_iff in E3 as [_ E3]. apply N.leb_le in E3. lia. }
  discriminate.
Qed.

(** Two digits of either case parse to a channel in range, which prints as
    the same digits in lowercase. *)
Lemma channel_prints_lower (a b : N) :
  any_hex a = true -> any_hex b = true ->
  exists v, int16 [a; b] = Ok v /\ format_02x v = [lower a; lower b] /\ valid_channel v.
Proof.
  intros Ha Hb.
  assert (prints_lower a b = true) as H.
  { pose (P := fun n => forallb (fun m =>
        implb (any_hex (N.of_nat n) && any_hex (N.of_nat m))
              (prints_lower (N.of_nat n) (N.of_nat m))) (seq 0 103)).
    assert (P (N.to_nat a) = true) as HP.
    { apply (forall_below P 103); [ vm_compute; reflexivity | auto using any_hex_below ]. }
    unfold P in HP. rewrite forallb_forall in HP.
    specialize (HP (N.to_nat b)). rewrite !N2Nat.id, Ha, Hb in HP.
    apply HP, in_seq. pose proof (any_hex_below b Hb). lia. }
  unfold prints_lower in H. destruct (int16 [a; b]) as [v | e]; [ | discriminate ].
  apply andb_true_iff in H as [H H2]. apply andb_true_iff in H as [H H1].
  exists v. split; [ reflexivity | ]. split.
  - apply bool_decide_eq_true in H. exact H.
  - unfold valid_channel. apply Z.leb_le in H1, H2. lia.
Qed.

(** A channel in range prints as two lowercase digits that parse back to
    it. *)
Lemma channel_parses_back (v : Z) :
  valid_channel v ->
  exists a b, format_02x v = [a; b] /\ lower_hex a = true /\ lower_hex b = true
              /\ int16 [a; b] = Ok v.
Proof.
  intros [H0 H1].
  assert (parses_back v = true) as H.
  { replace v with (Z.of_nat (Z.to_nat v)) by lia.
    apply (forall_below (fun n => parses_back (Z.of_nat n)) 256);
      [ vm_compute; reflexivity | lia ]. }
  unfold parses_back in H.
  destruct (format_02x v) as [ | a [ | b [ | ? ? ] ] ]; try discriminate.
  exists a, b.
  apply andb_true_iff in H as [H H3]. apply andb_true_iff in H as [Ha Hb].
  destruct (int16 [a; b]) as [z | ]; [ | discriminate ].
  apply Z.eqb_eq in H3 as ->. auto.
Qed.

(** X1.  For a colour whose channels lie in 0..255, [hex] is a [#] followed
    by six lowercase hexadecimal digits, and assigning that text to the
    [hex] of any colour gives it the same three channels and leaves its
    alpha alone. *)
Theorem hex_print_parse (c c0 : Color) :
  valid_channels c ->
  List.length (Color_hex c) = 7%nat
  /\ Color_hex c !! 0%nat = Some 35%N
  /\ forallb lower_hex (drop 1 (Color_hex c)) = true
  /\ Color_hex_set (Color_hex c) c0 = (Ok tt, mkColor (red c) (green c) (blue c) (alpha c0)).
Proof.
  intros (Hr & Hg & Hb).
  destruct (channel_parses_back _ Hr) as (r1 & r2 & Fr & Lr1 & Lr2 & Pr).
  destruct (channel_parses_back _ Hg) as (g1 & g2 & Fg & Lg1 & Lg2 & Pg).
  destruct (channel_parses_back _ Hb) as (b1 & b2 & Fb & Lb1 & Lb2 & Pb).
  unfold Color_hex. rewrite Fr, Fg, Fb.
  change (py "#") with [35%N]. cbn [app].
  split; [ reflexivity | ]. split; [ reflexivity | ]. split.
  - cbn [drop forallb]. rewrite Lr1, Lr2, Lg1, Lg2, Lb1, Lb2. reflexivity.
  - unfold Color_hex_set, slice. cbn [List.length Nat.eqb Nat.sub skipn firstn].
    unfold mbind, prog_bind, lift, modify.
    rewrite Pr, Pg, Pb. reflexivity.
Qed.

Lemma hex_print_parse_witness :
  List.length (Color_hex (mkColor 26 43 60 fzero)) = 7%nat
  /\ Color_hex (mkColor 26 43 60 fzero) !! 0%nat = Some 35%N
  /\ forallb lower_hex (drop 1 (Color_hex (mkColor 26 43 60 fzero))) = true
  /\ Color_hex_set (Color_hex (mkColor 26 43 60 fzero)) white
     = (Ok tt, mkColor 26 43 60 (alpha white)).
Proof.
  apply (hex_print_parse (mkColor 26 43 60 fzero) white).
  unfold valid_channels, valid_channel. cbn. lia.
Defined.

(** Six digits of either case after any first character: the channels the
    setter assigns. *)
Lemma hex_set_digits (s : str) :
  List.length s = 7%nat -> forallb any_hex (drop 1 s) = true ->
  exists r g b : Z,
    valid_channel r /\ valid_channel g /\ valid_channel b
    /\ format_02x r ++ format_02x g ++ format_02x b = map lower (drop 1 s)
    /\ forall c, Color_hex_set s c = (Ok tt, mkColor r g b (alpha c)).
Proof.
  intros Hlen Hd.
  do 7 (destruct s as [ | ? s]; [ discriminate | ]).
  destruct s; [ | discriminate ].
  cbn [drop forallb] in Hd.
  repeat (apply andb_true_iff in Hd as [? Hd]).
  destruct (channel_prints_lower n0 n1) as (r & Hr & Fr & Vr); auto.
  destruct (channel_prints_lower n2 n3) as (g & Hg & Fg & Vg); auto.
  destruct (channel_prints_lower n4 n5) as (b & Hb & Fb & Vb); auto.
  exists r, g, b. split; [ exact Vr | ]. split; [ exact Vg | ]. split; [ exact Vb | ].
  split; [ rewrite Fr, Fg, Fb; reflexivity | ].
  intros c.
  unfold Color_hex_set, slice. cbn [List.length Nat.eqb Nat.sub skipn firstn].
  unfold mbind, prog_bind, lift, modify.
  rewrite Hr, Hg, Hb. reflexivity.
Qed.

(** X2.  The [hex] setter reads six hexadecimal digits of either case and
    never looks at the first character: for every seven-character text whose
    last six characters are hexadecimal digits it returns, the channels lie
    in 0..255, the alpha is kept, and [hex] afterwards is [#] followed by
    the six digits in lowercase. *)
Theorem hex_set_any_case (c : Color) (s : str) :
  List.length s = 7%nat -> forallb any_hex (drop 1 s) = true ->
  exists c',
    Color_hex_set s c = (Ok tt, c')
    /\ Color_hex c' = 35%N :: map lower (drop 1 s)
    /\ valid_channels c' /\ alpha c' = alpha c.
Proof.
  intros Hlen Hd.
  destruct (hex_set_digits s Hlen Hd) as (r & g & b & Vr & Vg & Vb & F & H).
  exists (mkColor r g b (alpha c)).
  split; [ apply H | ]. split; [ | split; [ unfold valid_channels; cbn; auto | reflexivity ] ].
  unfold Color_hex. cbn [red green blue]. rewrite F. reflexivity.
Qed.

Lemma hex_set_any_case_witness :
  exists c',
    Color_hex_set (py "xFFa500") white = (Ok tt, c')
    /\ Color_hex c' = 35%N :: map lower (drop 1 (py "xFFa500"))
    /\ valid_channels c' /\ alpha c' = alpha white.
Proof.
  apply (hex_set_any_case white (py "xFFa500")); reflexivity.
Defined.

Lemma digit_doubles (a : N) (d : Z) : hex_value a = Some d -> int16 [a; a] = Ok (17 * d).
Proof.
  intros Ha.
  assert (any_hex a = true) as Hh by (unfold any_hex; rewrite Ha; reflexivity).
  assert (doubles a = true) as H.
  { rewrite <- (N2Nat.id a).
    apply (forall_below (fun n => doubles (N.of_nat n)) 103);
      [ vm_compute; reflexivity | auto using any_hex_below ]. }
  unfold doubles in H. rewrite Ha in H.
  destruct (int16 [a; a]) as [v | ]; [ | discriminate ].
  apply Z.eqb_eq in H as ->. reflexivity.
Qed.

(** X3.  The four-character shorthand is the seven-character form with each
    of its three digits written twice, whatever the characters are (the
    first one is not looked at in either form); for digits of values [dr],
    [dg] and [db] the channels become [17 * dr], [17 * dg] and [17 * db]. *)
Theorem hex_shorthand (c : Color) (h h' r g b : N) :
  Color_hex_set [h; r; g; b] c = Color_hex_set [h'; r; r; g; g; b; b] c
  /\ (forall dr dg db : Z,
        hex_value r = Some dr -> hex_value g = Some dg -> hex_value b = Some db ->
        Color_hex_set [h; r; g; b] c
        = (Ok tt, mkColor (17 * dr) (17 * dg) (17 * db) (alpha c))).
Proof.
  split; [ reflexivity | ].
  intros dr dg db Hr Hg Hb.
  unfold Color_hex_set, doubled, slice.
  cbn [List.length Nat.eqb Nat.sub skipn firstn app].
  unfold mbind, prog_bind, lift, modify.
  rewrite (digit_doubles _ _ Hr), (digit_doubles _ _ Hg), (digit_doubles _ _ Hb).
  reflexivity.
Qed.

(** Two characters of which the first cannot start a number are no number. *)
Lemma int16_no_number (a b : N) : no_number a = true -> int16 [a; b] = Raise ValueError.
Proof.
  unfold no_number, any_hex. intros H.
  apply andb_true_iff in H as [H Hsign]. apply andb_true_iff in H as [H Hsp].
  apply andb_true_iff in H as [_ Hhex].
  apply negb_true_iff in Hsp, Hsign. apply orb_false_iff in Hsign as [Hp Hm].
  destruct (hex_value a) as [ d | ] eqn:Hv; [ discriminate | ].
  assert (a <> 48%N) as H48 by (intros ->; discriminate Hv).
  assert (forall s, hex_body (a :: s) = None) as Hbody.
  { intros s. unfold hex_body.
    assert (hex_digits 0 false (a :: s) = None) as Hd.
    { cbn [hex_digits]. rewrite Hv. destruct (a =? 95)%N; reflexivity. }
    destruct a as [ | p ]; [ exact Hd | ].
    do 6 (destruct p as [ p | p | ]; try exact Hd).
    congruence. }
  assert (strip [a; b] = [a; b] \/ strip [a; b] = [a]) as Hs.
  { unfold strip. cbn [lstrip]. rewrite Hsp. cbn [rev app lstrip].
    destruct (is_space b); cbn [lstrip]; rewrite ?Hsp; cbn; auto. }
  apply N.eqb_neq in Hp, Hm.
  unfold int16. destruct Hs as [-> | ->].
  - destruct a as [ | p ]; [ rewrite Hbody; reflexivity | ].
    do 6 (destruct p as [ p | p | ]; try (rewrite Hbody; reflexivity)); congruence.
  - destruct a as [ | p ]; [ rewrite Hbody; reflexivity | ].
    do 6 (destruct p as [ p | p | ]; try (rewrite Hbody; reflexivity)); congruence.
Qed.

(** X4.  The [hex] setter is not all-or-nothing: when the first pair of
    digits parses and the second pair starts with a character no number
    starts with, the assignment raises [ValueError] with the red channel
    already replaced and green, blue and alpha as they were; the same text
    given to the constructor makes it raise. *)
Theorem hex_set_fails_midway (c : Color) (h a b x0 y0 u v : N) (r : Z) :
  int16 [a; b] = Ok r -> no_number x0 = true ->
  Color_hex_set [h; a; b; x0; y0; u; v] c = (Raise ValueError, set_red r c)
  /\ Color_init (red c) (green c) (blue c) (alpha c) (Some [h; a; b; x0; y0; u; v])
     = Raise ValueError.
Proof.
  intros Hr Hx.
  assert (forall c', Color_hex_set [h; a; b; x0; y0; u; v] c' = (Raise ValueError, set_red r c'))
    as H.
  { intros c'. unfold Color_hex_set, slice.
    cbn [List.length Nat.eqb Nat.sub skipn firstn].
    unfold mbind, prog_bind, lift, modify.
    rewrite Hr, (int16_no_number _ _ Hx). reflexivity. }
  split; [ apply H | ].
  unfold Color_init. rewrite H. reflexivity.
Qed.

Lemma hex_set_fails_midway_witness :
  Color_hex_set (py "#12zz56") white = (Raise ValueError, set_red 18 white)
  /\ Color_init 255 255 255 fone (Some (py "#12zz56")) = Raise ValueError.
Proof.
  apply (hex_set_fails_midway white 35 49 50 122 122 53 54 18)%N; reflexivity.
Defined.

(** X5.  In the constructor a seven-character [hex] of hexadecimal digits
    overrides the three channel arguments, whatever they are, and keeps the
    alpha argument. *)
Theorem Color_init_hex_overrides (r g b r' g' b' : Z) (a : float) (s : str) :
  List.length s = 7%nat -> forallb any_hex (drop 1 s) = true ->
  exists c,
    Color_init r g b a (Some s) = Ok c /\ Color_init r' g' b' a (Some s) = Ok c
    /\ alpha c = a /\ Color_hex c = 35%N :: map lower (drop 1 s).
Proof.
  intros Hlen Hd.
  destruct (hex_set_digits s Hlen Hd) as (r0 & g0 & b0 & _ & _ & _ & F & H).
  exists (mkColor r0 g0 b0 a). unfold Color_init. rewrite !H. cbn [alpha].
  split; [ reflexivity | ]. split; [ reflexivity | ]. split; [ reflexivity | ].
  unfold Color_hex. cbn [red green blue]. rewrite F. reflexivity.
Qed.

Lemma Color_init_hex_overrides_witness :
  exists c,
    Color_init 255 255 255 fone (Some (py "#FFa500")) = Ok c
    /\ Color_init 1 2 3 fone (Some (py "#FFa500")) = Ok c
    /\ alpha c = fone /\ Color_hex c = 35%N :: map lower (drop 1 (py "#FFa500")).
Proof.
  apply (Color_init_hex_overrides 255 255 255 1 2 3 fone (py "#FFa500")); reflexivity.
Defined.

(** X6.  Reading [rgb] after assigning it gives back the triple assigned;
    the assignment leaves the alpha alone; assigning a colour its own [rgb]
    changes nothing; and [hex] depends on the three channels only. *)
Theorem rgb_round_trip (c : Color) (v : Z * Z * Z) :
  rgb (rgb_set v c) = v
  /\ alpha (rgb_set v c) = alpha c
  /\ rgb_set (rgb c) c = c
  /\ (forall c', rgb c' = rgb c -> Color_hex c' = Color_hex c).
Proof.
  destruct v as [[r g] b], c as [r0 g0 b0 a0].
  split; [ reflexivity | ]. split; [ reflexivity | ]. split; [ reflexivity | ].
  intros [r' g' b' a'] H. unfold rgb in H. cbn in H. injection H as -> -> ->.
  reflexivity.
Qed.

(** ** Color.blend at its edges *)

(** X7.  [blend] never looks at the alpha of the colour underneath and never
    hands an alpha on: the outcome is the same for every alpha of [other],
    and a colour it returns has alpha 1. *)
Theorem Color_blend_drops_alpha (fg bg : Color) :
  (forall a : float, Color_blend fg (mkColor (red bg) (green bg) (blue bg) a) = Color_blend fg bg)
  /\ (forall c : Color, Color_blend fg bg = Ok c -> alpha c = fone).
Proof.
  split; [ reflexivity | ].
  intros c. unfold Color_blend.
  destruct (blend_channel (red fg) (alpha fg) (red bg)); [ | discriminate ].
  destruct (blend_channel (green fg) (alpha fg) (green bg)); [ | discriminate ].
  destruct (blend_channel (blue fg) (alpha fg) (blue bg)); [ | discriminate ].
  cbn. intros [= <-]. reflexivity.
Qed.

Lemma blend_float_not_finite (c c' a : float) :
  small 8 c = true -> small 8 c' = true -> not_finite a = true ->
  blend_float c a c' = S754_nan.
Proof.
  intros Hc Hc' Ha. unfold blend_float. rewrite fone_eq.
  destruct (small_cases _ _ Hc) as [(s & ->) | (m & e & -> & _)];
    destruct (small_cases _ _ Hc') as [(s' & ->) | (m' & e' & -> & _)];
    destruct a as [ | [ | ] | | ]; try discriminate Ha; reflexivity.
Qed.

(** X8.  With channels in 0..255 on both sides and a foreground alpha that
    is a NaN or an infinity, [blend] raises [ValueError]: every channel
    expression is a NaN, which [int] refuses. *)
Theorem Color_blend_alpha_not_finite (fg bg : Color) :
  valid_channels fg -> valid_channels bg -> not_finite (alpha fg) = true ->
  Color_blend fg bg = Raise ValueError.
Proof.
  intros (Hr & _) (Hr' & _) Ha.
  destruct (channel_facts _ Hr) as (F & S8 & _).
  destruct (channel_facts _ Hr') as (F' & S8' & _).
  unfold Color_blend, blend_channel. rewrite F, F'. cbn [mbind result_bind].
  rewrite (blend_float_not_finite _ _ _ S8 S8' Ha). reflexivity.
Qed.

Lemma Color_blend_alpha_not_finite_witness :
  Color_blend (mkColor 255 0 0 (S754_infinity false)) white = Raise ValueError.
Proof.
  apply (Color_blend_alpha_not_finite (mkColor 255 0 0 (S754_infinity false)) white).
  - unfold valid_channels, valid_channel. cbn. lia.
  - unfold valid_channels, valid_channel. cbn. lia.
  - reflexivity.
Defined.

(** ** Canvas and Rectangle.draw at their edges *)

Lemma pixel_Canvas_init_cases (w h : Z) (t : str) (i j : Z) :
  pixel (Canvas_init w h t) i j
  = if decide (0 <= i < w /\ 0 <= j < h) then Some white else None.
Proof.
  destruct (decide _) as [[Hi Hj] | Hout]; [ apply pixel_Canvas_init; assumption | ].
  unfold pixel, Canvas_init. cbn [pixels].
  destruct (Z.leb_spec 0 i); [ | reflexivity ].
  destruct (Z.leb_spec 0 j); [ | reflexivity ].
  cbn [andb].
  destruct (replicate (Z.to_nat h) (replicate (Z.to_nat w) white) !! Z.to_nat j)
    as [row | ] eqn:E; [ | reflexivity ].
  apply lookup_replicate in E as [-> Hj]. cbn.
  apply lookup_replicate_None. lia.
Qed.

(** X9.  [Canvas(width, height)] has a pixel at column [i] of row [j]
    exactly when [0 <= i < width] and [0 <= j < height], and every pixel is
    opaque white; a width or height of zero or less gives a canvas without
    pixels. *)
Theorem Canvas_init_grid (w h : Z) (t : str) :
  (forall i j, pixel (Canvas_init w h t) i j
               = if decide (0 <= i < w /\ 0 <= j < h) then Some white else None)
  /\ List.length (pixels (Canvas_init w h t)) = Z.to_nat h
  /\ (forall row, row ∈ pixels (Canvas_init w h t) -> List.length row = Z.to_nat w)
  /\ (w <= 0 \/ h <= 0 -> forall i j, pixel (Canvas_init w h t) i j = None).
Proof.
  split; [ apply pixel_Canvas_init_cases | ].
  split; [ apply length_replicate | ].
  split.
  - intros row Hrow. unfold Canvas_init in Hrow. cbn [pixels] in Hrow.
    apply elem_of_replicate in Hrow as [-> _]. apply length_replicate.
  - intros H i j. rewrite pixel_Canvas_init_cases. apply decide_False. lia.
Qed.

Lemma for_each_ext_in {S A : Type} (l : list A) (f g : A -> prog S unit) (s : S) :
  (forall a s', a ∈ l -> f a s' = g a s') -> for_each l f s = for_each l g s.
Proof.
  revert s. induction l as [ | a l IH]; intros s H; [ reflexivity | ].
  cbn. unfold mbind, prog_bind. rewrite H by left.
  destruct (g a s) as [[[] | e] s']; [ | reflexivity ].
  apply IH. intros b s'' Hb. apply H. right. exact Hb.
Qed.

(** X10.  A rectangle whose width or height is zero or less draws nothing:
    [draw] returns and the canvas is as it was, wherever the rectangle is
    placed. *)
Theorem Rectangle_draw_empty (r : Rectangle) (cv : Canvas) :
  width r <= 0 \/ height r <= 0 -> Rectangle_draw r cv = (Ok tt, cv).
Proof.
  intros H. rewrite Rectangle_draw_cells.
  assert (cells r = []) as ->; [ | reflexivity ].
  destruct (cells r) as [ | [i j] l ] eqn:E; [ reflexivity | ].
  assert ((i, j) ∈ cells r) as Hin by (rewrite E; left).
  apply elem_of_cells in Hin. unfold in_box in Hin. lia.
Qed.

Lemma Rectangle_draw_empty_witness :
  Rectangle_draw (Rectangle_init 50 50 0 3) (Canvas_init 4 4 (py "Canvas"))
  = (Ok tt, Canvas_init 4 4 (py "Canvas")).
Proof.
  apply (Rectangle_draw_empty (Rectangle_init 50 50 0 3)). left. cbn. lia.
Defined.

(** X11.  A rectangle at most two pixels wide or at most two pixels high is
    all border: [draw] blends the border colour at every coordinate of the
    box, and the fill colour plays no part. *)
Theorem Rectangle_draw_thin (r : Rectangle) (cv : Canvas) :
  width r <= 2 \/ height r <= 2 ->
  Rectangle_draw r cv = for_each (cells r) (fun c => paint (border_color r) c.1 c.2) cv
  /\ forall bg : Color, Rectangle_draw (refilled bg r) cv = Rectangle_draw r cv.
Proof.
  intros H.
  assert (forall r', width r' <= 2 \/ height r' <= 2 ->
            Rectangle_draw r' cv
            = for_each (cells r') (fun c => paint (border_color r') c.1 c.2) cv) as K.
  { intros r' H'. rewrite Rectangle_draw_cells. apply for_each_ext_in.
    intros [i j] s Hin. apply elem_of_cells in Hin.
    unfold paint_cell. cbn [fst snd].
    replace (on_border r' i j) with true; [ reflexivity | ].
    symmetry. apply on_border_ring. unfold in_box in Hin. unfold on_ring. lia. }
  split; [ apply K; exact H | ].
  intros bg. rewrite (K r H), (K (refilled bg r)) by exact H. reflexivity.
Qed.

Lemma Rectangle_draw_thin_witness :
  Rectangle_draw tile (Canvas_init 4 4 (py "Canvas"))
  = for_each (cells tile) (fun c => paint (border_color tile) c.1 c.2)
      (Canvas_init 4 4 (py "Canvas"))
  /\ forall bg : Color,
       Rectangle_draw (refilled bg tile) (Canvas_init 4 4 (py "Canvas"))
       = Rectangle_draw tile (Canvas_init 4 4 (py "Canvas")).
Proof.
  apply (Rectangle_draw_thin tile). left. cbn. lia.
Defined.

(** X12.  [draw] never consults [border_width] or [layer]: the drawn ring is
    one pixel thick whatever the border width says. *)
Theorem Rectangle_draw_ignores_border_width (r : Rectangle) (bw k : Z) (cv : Canvas) :
  Rectangle_draw (restyled bw k r) cv = Rectangle_draw r cv
  /\ (forall i j, on_border (restyled bw k r) i j = on_border r i j)
  /\ (3 <= width r -> 3 <= height r ->
      in_box r (x r + 1) (y r + 1)
      /\ paint_cell (restyled bw k r) (x r + 1, y r + 1)
         = paint (background_color r) (x r + 1) (y r + 1)).
Proof.
  split; [ reflexivity | ]. split; [ reflexivity | ].
  intros Hw Hh. split; [ unfold in_box; lia | ].
  unfold paint_cell. cbn [fst snd].
  replace (on_border (restyled bw k r) (x r + 1) (y r + 1)) with false; [ reflexivity | ].
  symmetry. unfold on_border, restyled. cbn.
  repeat (apply orb_false_iff; split); apply Z.eqb_neq; lia.
Qed.

(** One assignment of [draw] at a coordinate right of, or below, the grid. *)
Lemma paint_off_grid (col : Color) (cv : Canvas) (i j : Z) :
  0 <= i -> 0 <= j -> pixel cv i j = None -> paint col i j cv = (Raise IndexError, cv).
Proof.
  intros Hi Hj H. unfold pixel in H.
  destruct (Z.leb_spec 0 i); [ | lia ]. destruct (Z.leb_spec 0 j); [ | lia ].
  cbn [andb] in H.
  unfold paint, getitem, setitem.
  unfold mbind, prog_bind, result_bind, get, lift, put.
  destruct (pixels cv !! Z.to_nat j) as [row | ] eqn:Erow.
  - pose proof (lookup_lt_Some _ _ _ Erow) as Hlt.
    replace j with (Z.of_nat (Z.to_nat j)) at 1 by lia.
    rewrite index_of_nonneg by exact Hlt. rewrite Erow.
    cbn in H. apply lookup_ge_None in H.
    unfold index_of.
    destruct (Z.ltb_spec i (Z.of_nat (List.length row))); [ lia | ].
    destruct (Z.ltb_spec i 0); [ lia | ].
    rewrite !andb_false_r. reflexivity.
  - apply lookup_ge_None in Erow.
    unfold index_of.
    destruct (Z.ltb_spec j (Z.of_nat (List.length (pixels cv)))); [ lia | ].
    destruct (Z.ltb_spec j 0); [ lia | ].
    rewrite !andb_false_r. reflexivity.
Qed.

(** A pass over cells of non-negative coordinates changes no pixel outside
    them, however it ends. *)
Lemma paint_cells_frame (r : Rectangle) (l : list (Z * Z)) (cv : Canvas) :
  (forall c, c ∈ l -> 0 <= c.1 /\ 0 <= c.2) ->
  forall i j, (i, j) ∉ l -> pixel (for_each l (paint_cell r) cv).2 i j = pixel cv i j.
Proof.
  revert cv. induction l as [ | [i0 j0] l IH]; intros cv Hpos i j Hout; [ reflexivity | ].
  destruct (Hpos (i0, j0)) as [Hi0 Hj0]; [ left | ]. cbn in Hi0, Hj0.
  cbn [for_each]. unfold mbind, prog_bind. rewrite paint_cell_colour.
  destruct (pixel cv i0 j0) as [old | ] eqn:Hold.
  - rewrite (paint_in_grid _ cv i0 j0 old Hold).
    destruct (Color_blend (colour_at r i0 j0) old) as [new | e]; [ | reflexivity ].
    rewrite IH.
    + rewrite (pixel_with_pixel cv i0 j0 i j old new Hold).
      rewrite decide_False; [ reflexivity | ].
      intros [-> ->]. apply Hout. left.
    + intros c Hc. apply Hpos. right. exact Hc.
    + intros Hin. apply Hout. right. exact Hin.
  - rewrite paint_off_grid by assumption. reflexivity.
Qed.

(** A pass that reaches a coordinate outside the grid, over cells whose
    blends return, ends in [IndexError]. *)
Lemma paint_cells_off_grid (r : Rectangle) (l : list (Z * Z)) (cv : Canvas) :
  NoDup l ->
  (forall c, c ∈ l -> 0 <= c.1 /\ 0 <= c.2) ->
  (forall c old, c ∈ l -> pixel cv c.1 c.2 = Some old ->
                 returns (Color_blend (colour_at r c.1 c.2) old)) ->
  (exists c, c ∈ l /\ pixel cv c.1 c.2 = None) ->
  (for_each l (paint_cell r) cv).1 = Raise IndexError.
Proof.
  revert cv. induction l as [ | [i0 j0] l IH]; intros cv Hnd Hpos Hret Hbad.
  { destruct Hbad as (c & Hc & _). inversion Hc. }
  apply NoDup_cons in Hnd as [Hnotin Hnd].
  destruct (Hpos (i0, j0)) as [Hi0 Hj0]; [ left | ]. cbn in Hi0, Hj0.
  cbn [for_each]. unfold mbind, prog_bind. rewrite paint_cell_colour.
  destruct (pixel cv i0 j0) as [old | ] eqn:Hold.
  - rewrite (paint_in_grid _ cv i0 j0 old Hold).
    destruct (Hret (i0, j0) old) as [new Hnew]; [ left | exact Hold | ].
    cbn in Hnew. rewrite Hnew.
    assert (forall c, c ∈ l ->
              pixel (with_pixel cv (Z.to_nat i0) (Z.to_nat j0) new) c.1 c.2
              = pixel cv c.1 c.2) as Hsame.
    { intros [i j] Hin. cbn.
      rewrite (pixel_with_pixel cv i0 j0 i j old new Hold).
      rewrite decide_False; [ reflexivity | ].
      intros [-> ->]. contradiction. }
    apply IH.
    + exact Hnd.
    + intros c Hc. apply Hpos. right. exact Hc.
    + intros c old' Hc Hp. rewrite Hsame in Hp by exact Hc.
      apply (Hret c old'); [ right; exact Hc | exact Hp ].
    + destruct Hbad as (c & Hc & Hp).
      apply elem_of_cons in Hc as [-> | Hc]; [ cbn in Hp; congruence | ].
      exists c. split; [ exact Hc | ]. rewrite Hsame by exact Hc. exact Hp.
  - rewrite paint_off_grid by assumption. reflexivity.
Qed.

(** X13.  A rectangle at non-negative coordinates whose box reaches past the
    right or the bottom edge of the grid makes [draw] raise [IndexError]
    (colours in range).  The pixels painted before the failure stay painted:
    the first cell of the box, if it is a pixel, holds the blend of the
    border colour; no pixel outside the box changes. *)
Theorem Rectangle_draw_off_grid (r : Rectangle) (cv : Canvas) :
  0 <= x r -> 0 <= y r ->
  valid_color (border_color r) -> valid_color (background_color r) ->
  (forall i j old, in_box r i j -> pixel cv i j = Some old -> valid_channels old) ->
  (exists i j, in_box r i j /\ pixel cv i j = None) ->
  (Rectangle_draw r cv).1 = Raise IndexError
  /\ (forall i j, ~ in_box r i j -> pixel (drawn r cv) i j = pixel cv i j)
  /\ (forall old, pixel cv (x r) (y r) = Some old ->
        exists new, Color_blend (border_color r) old = Ok new
                    /\ pixel (drawn r cv) (x r) (y r) = Some new).
Proof.
  intros Hx Hy Vb Vf Hold (i & j & Hin & Hnone).
  assert (forall c, c ∈ cells r -> 0 <= c.1 /\ 0 <= c.2) as Hpos.
  { intros [i' j'] Hc. apply elem_of_cells in Hc. unfold in_box in Hc. cbn. lia. }
  unfold drawn. rewrite Rectangle_draw_cells.
  split; [ | split ].
  - apply paint_cells_off_grid.
    + apply NoDup_cells.
    + exact Hpos.
    + intros [i' j'] old Hc Hp. cbn in *. apply elem_of_cells in Hc.
      apply Color_blend_returns; [ | exact (Hold i' j' old Hc Hp) ].
      unfold colour_at. destruct (decide _); assumption.
    + exists (i, j). split; [ apply elem_of_cells; exact Hin | exact Hnone ].
  - intros i' j' Hout. apply paint_cells_frame; [ exact Hpos | ].
    rewrite elem_of_cells. exact Hout.
  - intros old Hp.
    assert (in_box r (x r) (y r)) as Hfirst by (unfold in_box in *; lia).
    assert (exists l, cells r = (x r, y r) :: l) as [l El].
    { unfold cells. unfold in_box in Hfirst.
      rewrite (seqZ_cons (y r)) by lia. cbn [mbind list_bind].
      rewrite (seqZ_cons (x r)) by lia. cbn. eauto. }
    pose proof (NoDup_cells r) as Hnd. rewrite El in Hnd, Hpos.
    apply NoDup_cons in Hnd as [Hnotin _].
    destruct (Color_blend_returns (border_color r) old Vb) as [new Hnew].
    { exact (Hold _ _ old Hfirst Hp). }
    exists new. split; [ exact Hnew | ].
    rewrite El. cbn [for_each]. unfold mbind, prog_bind. rewrite paint_cell_colour.
    rewrite (paint_in_grid _ cv _ _ old Hp).
    unfold colour_at. rewrite decide_True by (unfold on_ring; lia).
    rewrite Hnew.
    rewrite paint_cells_frame.
    + rewrite (pixel_with_pixel cv _ _ _ _ old new Hp).
      rewrite decide_True by auto. reflexivity.
    + intros c Hc. apply Hpos. right. exact Hc.
    + exact Hnotin.
Qed.

Lemma Rectangle_draw_off_grid_witness :
  (Rectangle_draw (Rectangle_init 2 2 3 3) (Canvas_init 4 4 (py "Canvas"))).1 = Raise IndexError.
Proof.
  refine (proj1 (Rectangle_draw_off_grid (Rectangle_init 2 2 3 3)
                   (Canvas_init 4 4 (py "Canvas")) _ _ _ _ _ _)).
  - cbn. lia.
  - cbn. lia.
  - vm_compute. repeat split; congruence.
  - vm_compute. repeat split; congruence.
  - intros i j old _ Hp. rewrite pixel_Canvas_init_cases in Hp.
    destruct (decide _); [ | discriminate ]. injection Hp as <-.
    vm_compute. repeat split; congruence.
  - exists 4, 2. split; [ unfold in_box; cbn; lia | reflexivity ].
Defined.

(** X14.  A rectangle with the default colours (a fully transparent fill
    and an opaque black border), drawn inside the grid over pixels with
    channels in 0..255: [draw] returns, the pixels of the ring become black,
    the pixels inside the ring keep their channels, and every pixel of the
    box ends with alpha 1. *)
Theorem Rectangle_draw_default (x0 y0 w h : Z) (cv : Canvas) :
  box_in_grid (Rectangle_init x0 y0 w h) cv ->
  (forall i j old, in_box (Rectangle_init x0 y0 w h) i j -> pixel cv i j = Some old ->
                   valid_channels old) ->
  (Rectangle_draw (Rectangle_init x0 y0 w h) cv).1 = Ok tt
  /\ forall i j, in_box (Rectangle_init x0 y0 w h) i j ->
       exists old,
         pixel cv i j = Some old
         /\ pixel (drawn (Rectangle_init x0 y0 w h) cv) i j
            = Some (if decide (on_ring (Rectangle_init x0 y0 w h) i j)
                    then mkColor 0 0 0 fone
                    else mkColor (red old) (green old) (blue old) fone).
Proof.
  intros Hgrid Hvalid.
  set (r := Rectangle_init x0 y0 w h) in *.
  assert (forall i j, in_box r i j ->
            exists old, pixel cv i j = Some old
                        /\ blended r cv i j
                           = Some (if decide (on_ring r i j) then mkColor 0 0 0 fone
                                   else mkColor (red old) (green old) (blue old) fone)) as Hb.
  { intros i j Hin. destruct (Hgrid i j Hin) as [old Hold].
    destruct (Hvalid i j old Hin Hold) as (Vr & Vg & Vb).
    exists old. split; [ exact Hold | ].
    unfold blended, colour_at. rewrite Hold. cbn [mbind option_bind].
    destruct (decide (on_ring r i j)).
    - unfold Color_blend. cbn [border_color r Rectangle_init red green blue alpha].
      rewrite !blend_channel_opaque by (assumption || (unfold valid_channel; lia)).
      reflexivity.
    - unfold Color_blend. cbn [background_color r Rectangle_init red green blue alpha].
      rewrite !blend_channel_transparent by (assumption || (unfold valid_channel; lia)).
      reflexivity. }
  destruct (paint_cells_result r (cells r) cv (NoDup_cells r)) as [Hok Hpix].
  { intros [i j] Hc. apply elem_of_cells in Hc. cbn.
    destruct (Hb i j Hc) as (old & _ & ->). eauto. }
  unfold drawn. rewrite Rectangle_draw_cells. split; [ exact Hok | ].
  intros i j Hin. destruct (Hb i j Hin) as (old & Hold & Hbl).
  exists old. split; [ exact Hold | ].
  rewrite <- Hbl. apply (Hpix (i, j)). apply elem_of_cells. exact Hin.
Qed.

Lemma Rectangle_draw_default_witness :
  (Rectangle_draw (Rectangle_init 0 0 3 3) (Canvas_init 4 4 (py "Canvas"))).1 = Ok tt.
Proof.
  refine (proj1 (Rectangle_draw_default 0 0 3 3 (Canvas_init 4 4 (py "Canvas")) _ _)).
  - intros i j [Hi Hj]. cbn in Hi, Hj. rewrite pixel_Canvas_init by lia. eauto.
  - intros i j old _ Hp. rewrite pixel_Canvas_init_cases in Hp.
    destruct (decide _); [ | discriminate ]. injection Hp as <-.
    vm_compute. repeat split; congruence.
Defined.

(** *** Negative coordinates *)

Lemma index_of_mod {A : Type} (l : list A) (i : Z) :
  - Z.of_nat (List.length l) <= i < Z.of_nat (List.length l) ->
  index_of l i = index_of l (i mod Z.of_nat (List.length l)).
Proof.
  intros H. destruct (Z.le_gt_cases 0 i) as [Hi | Hi].
  - rewrite Z.mod_small by lia. reflexivity.
  - replace (i mod Z.of_nat (List.length l)) with (i + Z.of_nat (List.length l)).
    + unfold index_of.
      destruct (Z.leb_spec 0 i); [ lia | ].
      destruct (Z.leb_spec (- Z.of_nat (List.length l)) i); [ | lia ].
      destruct (Z.ltb_spec i 0); [ | lia ].
      destruct (Z.leb_spec 0 (i + Z.of_nat (List.length l))); [ | lia ].
      destruct (Z.ltb_spec (i + Z.of_nat (List.length l)) (Z.of_nat (List.length l))); [ | lia ].
      cbn. do 2 f_equal. lia.
    + apply Z.mod_unique with (q := - 1); lia.
Qed.

Lemma index_of_Ok {A : Type} (l : list A) (i : Z) (k : nat) :
  index_of l i = Ok k -> (k < List.length l)%nat.
Proof.
  unfold index_of.
  destruct (Z.leb_spec 0 i), (Z.ltb_spec i (Z.of_nat (List.length l))); cbn;
    try (intros [= <-]; lia);
    destruct (Z.leb_spec (- Z.of_nat (List.length l)) i), (Z.ltb_spec i 0); cbn;
    try discriminate; intros [= <-]; lia.
Qed.

(** One assignment of [draw] within one canvas size of the origin acts on
    the pixel its coordinates wrap around to. *)
Lemma paint_wraps (col : Color) (cv : Canvas) (w h i j : Z) :
  grid_shape cv w h -> - w <= i < w -> - h <= j < h ->
  paint col i j cv = paint col (i mod w) (j mod h) cv.
Proof.
  intros [Hh Hw] Hi Hj. subst h.
  unfold paint, getitem, setitem.
  unfold mbind, prog_bind, result_bind, get, lift, put.
  rewrite <- (index_of_mod (pixels cv) j) by exact Hj.
  destruct (index_of (pixels cv) j) as [k | e] eqn:Ek; [ | reflexivity ].
  destruct (pixels cv !! k) as [row | ] eqn:Erow; [ | reflexivity ].
  assert (Z.of_nat (List.length row) = w) as Hrow.
  { rewrite Forall_forall in Hw. apply Hw. eapply list_elem_of_lookup_2. exact Erow. }
  subst w. rewrite <- (index_of_mod row i) by exact Hi.
  reflexivity.
Qed.

Lemma paint_shape (col : Color) (cv : Canvas) (w h i j : Z) :
  grid_shape cv w h -> grid_shape (paint col i j cv).2 w h.
Proof.
  intros [Hh Hw].
  unfold paint, getitem, setitem.
  unfold mbind, prog_bind, result_bind, get, lift, put.
  destruct (index_of (pixels cv) j) as [k | e] eqn:Ek; [ | split; assumption ].
  destruct (pixels cv !! k) as [row | ] eqn:Erow; [ | split; assumption ].
  destruct (index_of row i) as [k' | e] eqn:Ek'; [ | split; assumption ].
  destruct (row !! k') as [old | ]; [ | split; assumption ].
  destruct (Color_blend col old) as [new | e]; [ | split; assumption ].
  unfold grid_shape. cbn [snd pixels set_pixels]. split.
  - rewrite length_insert. exact Hh.
  - apply Forall_insert; [ exact Hw | ].
    rewrite length_insert.
    rewrite Forall_forall in Hw. apply Hw. eapply list_elem_of_lookup_2. exact Erow.
Qed.

Lemma for_each_ext_inv {S A : Type} (Inv : S -> Prop) (l : list A)
    (f g : A -> prog S unit) (s : S) :
  (forall a s', a ∈ l -> Inv s' -> f a s' = g a s' /\ Inv (f a s').2) ->
  Inv s -> for_each l f s = for_each l g s.
Proof.
  revert s. induction l as [ | a l IH]; intros s H Hs; [ reflexivity | ].
  destruct (H a s) as [E Hs']; [ left | exact Hs | ].
  cbn. unfold mbind, prog_bind. rewrite <- E.
  destruct (f a s) as [[[] | e] s']; [ | reflexivity ].
  apply IH; [ | exact Hs' ].
  intros b s'' Hb. apply H. right. exact Hb.
Qed.

(** X15.  Coordinates are not checked against the canvas, and negative ones
    count from the far edges: on a grid of [h] rows of [w] pixels, a
    rectangle whose box lies between [- w] and [w] across and between [- h]
    and [h] down is drawn with every coordinate [(i, j)] of the box painted
    at [(i mod w, j mod h)]. *)
Theorem Rectangle_draw_wraps (r : Rectangle) (cv : Canvas) (w h : Z) :
  grid_shape cv w h ->
  - w <= x r -> x r + width r <= w -> - h <= y r -> y r + height r <= h ->
  Rectangle_draw r cv
  = for_each (cells r) (fun c => paint (colour_at r c.1 c.2) (c.1 mod w) (c.2 mod h)) cv.
Proof.
  intros Hs Hx Hxw Hy Hyh. rewrite Rectangle_draw_cells.
  apply (for_each_ext_inv (fun cv' => grid_shape cv' w h)); [ | exact Hs ].
  intros [i j] cv' Hin Hs'. apply elem_of_cells in Hin. unfold in_box in Hin.
  rewrite paint_cell_colour. cbn [fst snd]. split.
  - apply paint_wraps; [ exact Hs' | lia | lia ].
  - apply paint_shape. exact Hs'.
Qed.

Lemma Rectangle_draw_wraps_witness :
  Rectangle_draw (Rectangle_init (- 2) (- 2) 2 2) (Canvas_init 4 4 (py "Canvas"))
  = for_each (cells (Rectangle_init (- 2) (- 2) 2 2))
      (fun c => paint (colour_at (Rectangle_init (- 2) (- 2) 2 2) c.1 c.2)
                  (c.1 mod 4) (c.2 mod 4))
      (Canvas_init 4 4 (py "Canvas")).
Proof.
  apply (Rectangle_draw_wraps (Rectangle_init (- 2) (- 2) 2 2)
           (Canvas_init 4 4 (py "Canvas")) 4 4).
  - split; [ reflexivity | ]. cbn. repeat constructor.
  - cbn. lia.
  - cbn. lia.
  - cbn. lia.
  - cbn. lia.
Defined.

(** ** Log *)

Lemma instance_lookup (st : LogStore) (l : ref) :
  is_Some (own_records (instance st l)) \/ is_Some (own_children (instance st l)) ->
  heap st !! l = Some (instance st l).
Proof.
  unfold instance. destruct (heap st !! l); [ reflexivity | ].
  cbn. intros [[? H] | [? H]]; discriminate H.
Qed.

Lemma instance_set_heap_insert (st : LogStore) (self l : ref) (v : Log) :
  heap st !! self = Some (instance st self) ->
  instance (set_heap (<[self := v]> (heap st)) st) l
  = if decide (l = self) then v else instance st l.
Proof.
  intros H. unfold instance at 1. cbn [heap set_heap].
  destruct (decide (l = self)) as [-> | Hne].
  - rewrite list_lookup_insert_eq by (apply lookup_lt_is_Some; eauto). reflexivity.
  - rewrite list_lookup_insert_ne by congruence. reflexivity.
Qed.

(** X16.  [record] appends its sample at the end of the list the instance
    reads, its own if it has one and the class's otherwise; it leaves the
    records of every other Log that has a list of its own, and all children
    and names, as they were. *)
Theorem Log_record_appends (st : LogStore) (self : ref) (d : float) :
  (Log_record self d st).1 = Ok tt
  /\ records (Log_record self d st).2 self = records st self ++ [d]
  /\ (forall l, l <> self -> is_Some (own_records (instance st l)) ->
        records (Log_record self d st).2 l = records st l)
  /\ (forall l, children (Log_record self d st).2 l = children st l
                /\ name (instance (Log_record self d st).2 l) = name (instance st l)).
Proof.
  unfold Log_record.
  destruct (own_records (instance st self)) as [rs | ] eqn:Eown.
  - assert (heap st !! self = Some (instance st self)) as Hl.
    { apply instance_lookup. left. rewrite Eown. eauto. }
    cbn [fst snd]. split; [ reflexivity | ].
    unfold records, children. rewrite !instance_set_heap_insert by exact Hl.
    rewrite decide_True by reflexivity. rewrite Eown. cbn.
    split; [ reflexivity | ]. split.
    + intros l Hne _. rewrite instance_set_heap_insert by exact Hl.
      rewrite decide_False by exact Hne. reflexivity.
    + intros l. rewrite instance_set_heap_insert by exact Hl.
      destruct (decide (l = self)) as [-> | ]; split; reflexivity.
  - cbn [fst snd]. split; [ reflexivity | ].
    assert (forall l, instance (mkLogStore (heap st) (Log_children st) (Log_records st ++ [d])) l
                      = instance st l) as Hi by reflexivity.
    unfold records, children.
    split; [ rewrite Hi, Eown; reflexivity | ]. split.
    + intros l _ [rs Hrs]. rewrite Hi, Hrs. reflexivity.
    + intros l. rewrite Hi. split; reflexivity.
Qed.

(** X17.  [inside] attaches a child once: afterwards the child is among the
    children; if it was there already nothing changes, otherwise it is
    appended at the end; attaching it again changes nothing; the records are
    never touched. *)
Theorem Log_inside_once (st : LogStore) (self log : ref) :
  (Log_inside self log st).1 = Ok tt
  /\ log ∈ children (Log_inside self log st).2 self
  /\ (log ∈ children st self -> (Log_inside self log st).2 = st)
  /\ (log ∉ children st self ->
      children (Log_inside self log st).2 self = children st self ++ [log])
  /\ Log_inside self log (Log_inside self log st).2 = (Ok tt, (Log_inside self log st).2)
  /\ (forall l, records (Log_inside self log st).2 l = records st l).
Proof.
  assert ((Log_inside self log st).1 = Ok tt) as Hok.
  { unfold Log_inside. destruct (bool_decide _); [ reflexivity | ].
    destruct (own_children (instance st self)); reflexivity. }
  assert (log ∈ children st self -> (Log_inside self log st).2 = st) as Hin.
  { intros H. unfold Log_inside. rewrite bool_decide_eq_true_2 by exact H. reflexivity. }
  assert (log ∉ children st self ->
          children (Log_inside self log st).2 self = children st self ++ [log]) as Hout.
  { intros H. unfold Log_inside. rewrite bool_decide_eq_false_2 by exact H.
    destruct (own_children (instance st self)) as [cs | ] eqn:Eown.
    - assert (heap st !! self = Some (instance st self)) as Hl.
      { apply instance_lookup. right. rewrite Eown. eauto. }
      cbn [snd]. unfold children. rewrite instance_set_heap_insert by exact Hl.
      rewrite decide_True by reflexivity. rewrite Eown. reflexivity.
    - cbn [snd]. unfold children.
      change (instance (mkLogStore (heap st) (Log_children st ++ [log]) (Log_records st)) self)
        with (instance st self).
      rewrite Eown. reflexivity. }
  assert (log ∈ children (Log_inside self log st).2 self) as Hafter.
  { destruct (decide (log ∈ children st self)) as [H | H].
    - rewrite Hin by exact H. exact H.
    - rewrite Hout by exact H. apply elem_of_app. right. left. }
  split; [ exact Hok | ]. split; [ exact Hafter | ].
  split; [ exact Hin | ]. split; [ exact Hout | ]. split.
  - unfold Log_inside at 1. rewrite bool_decide_eq_true_2 by exact Hafter. reflexivity.
  - intros l. unfold Log_inside. destruct (bool_decide _); [ reflexivity | ].
    destruct (own_children (instance st self)) as [cs | ] eqn:Eown.
    + assert (heap st !! self = Some (instance st self)) as Hl.
      { apply instance_lookup. right. rewrite Eown. eauto. }
      cbn [snd]. unfold records. rewrite instance_set_heap_insert by exact Hl.
      destruct (decide (l = self)) as [-> | ]; reflexivity.
    + reflexivity.
Qed.

Lemma float_of_int_returns (n : Z) : 0 <= n < 2 ^ 64 -> returns (float_of_int n).
Proof.
  intros H.
  assert (small 65 (binary_normalize prec emax n 0 false) = true) as Hs.
  { apply (binary_normalize_small n 0 64); [ lia | | lia ].
    intros Hpos. rewrite Z.add_0_r. apply Zdigits2_lt_pow2; lia. }
  unfold float_of_int.
  destruct (binary_normalize prec emax n 0 false); try discriminate Hs; eexists; reflexivity.
Qed.

(** X18.  [average] returns exactly when the Log has a sample, and the only
    exception it raises is [ZeroDivisionError] (lists of fewer than [2 ^ 64]
    samples, for which the conversion of the length cannot overflow). *)
Theorem Log_average_returns (st : LogStore) (self : ref) :
  Z.of_nat (List.length (records st self)) < 2 ^ 64 ->
  (returns (Log_average st self) <-> records st self <> [])
  /\ (forall e, Log_average st self = Raise e -> e = ZeroDivisionError).
Proof.
  intros Hlen. unfold Log_average, average_of.
  destruct (records st self) as [ | r rs ] eqn:E.
  - split.
    + split; [ intros [a Ha]; discriminate Ha | congruence ].
    + intros e [= <-]. reflexivity.
  - destruct (float_of_int_returns (Z.of_nat (List.length (r :: rs)))) as [f Hf]; [ lia | ].
    rewrite Hf. cbn [mbind result_bind]. split.
    + split; [ discriminate | ]. intros _. eexists. reflexivity.
    + intros e He. discriminate He.
Qed.

Lemma Log_average_returns_witness :
  (returns (Log_average three_samples 0%nat) <-> records three_samples 0%nat <> [])
  /\ (forall e, Log_average three_samples 0%nat = Raise e -> e = ZeroDivisionError).
Proof.
  apply (Log_average_returns three_samples 0%nat). vm_compute. reflexivity.
Defined.

(** X19.  When every Log reads the class's lists and that one list of
    children is not empty, [report] cannot finish: every Log is then a child
    of every Log, itself included, and with an average to show the call
    recurses until [RecursionError], whatever depth is allowed. *)
Theorem Log_report_shared_children (st : LogStore) :
  class_lists_only st -> Log_children st <> [] -> returns (average_of (Log_records st)) ->
  forall (depth : nat) (self : ref), Log_report depth st self = Raise RecursionError.
Proof.
  intros Hown Hch [avg Havg] depth.
  induction depth as [ | depth IH]; intros self; [ reflexivity | ].
  cbn [Log_report]. unfold Log_average, records, children.
  destruct (Hown self) as [-> ->]. cbn [default]. rewrite Havg. cbn [mbind result_bind].
  destruct (Log_children st) as [ | c cs ]; [ congruence | ].
  cbn [report_loop]. rewrite IH. reflexivity.
Qed.

Lemma Log_report_shared_children_witness :
  Log_report 1000 nested_logs 0%nat = Raise RecursionError.
Proof.
  apply (Log_report_shared_children nested_logs).
  - intros l. unfold instance.
    destruct l as [ | [ | l ] ]; split; reflexivity.
  - vm_compute. discriminate.
  - eexists. vm_compute. reflexivity.
Defined.

(** ** Telemetry *)

Section TelemetryFacts.

Context {A : Type} {Object_A : Object A}.

Lemma Telemetry_track_old (n : option str) (f : function) (w : World A) (l : ref) :
  Telemetry_logs w !! fn_id f = Some l -> Telemetry_track n f w = (Ok tt, w).
Proof.
  intros H. unfold Telemetry_track, mbind, prog_bind, get. rewrite H. reflexivity.
Qed.

Lemma Telemetry_track_new (n : option str) (f : function) (w : World A) :
  Telemetry_logs w !! fn_id f = None ->
  Telemetry_track n f w
  = (Ok tt,
     mkWorld (self_canvas w) (Canvas_objects w)
       (Telemetry_roots w ++ [List.length (heap (store w))])
       (<[fn_id f := List.length (heap (store w))]> (Telemetry_logs w))
       (set_heap (heap (store w) ++ [mkLog (log_name n f) None None]) (store w))
       (next_function w) (clock w) (ticks w)).
Proof.
  intros H. unfold Telemetry_track, mbind, prog_bind, get. rewrite H.
  reflexivity.
Qed.

(** X20.  Both forms of [measure] give a function one Log, made the first
    time the function is seen: it is named [name], or the function's
    [__name__] when [name] is [None] or empty, is appended to [roots] and
    entered in [logs], and no list of the class changes; a function that has
    a Log keeps it, and nothing changes, whatever name is given later. *)
Theorem Telemetry_track_once (n : option str) (f : function) (w : World A) :
  (Telemetry_track n f w).1 = Ok tt
  /\ (tracked w (fn_id f) -> (Telemetry_track n f w).2 = w)
  /\ (~ tracked w (fn_id f) ->
      Telemetry_logs (Telemetry_track n f w).2
      = <[fn_id f := List.length (heap (store w))]> (Telemetry_logs w)
      /\ Telemetry_roots (Telemetry_track n f w).2
         = Telemetry_roots w ++ [List.length (heap (store w))]
      /\ heap (store (Telemetry_track n f w).2)
         = heap (store w) ++ [mkLog (log_name n f) None None]
      /\ Log_records (store (Telemetry_track n f w).2) = Log_records (store w)
      /\ Log_children (store (Telemetry_track n f w).2) = Log_children (store w))
  /\ (forall n', Telemetry_track n' f (Telemetry_track n f w).2
                 = (Ok tt, (Telemetry_track n f w).2))
  /\ log_name (Some []) f = fn_name f /\ log_name None f = fn_name f.
Proof.
  destruct (Telemetry_logs w !! fn_id f) as [l | ] eqn:E.
  - rewrite (Telemetry_track_old n f w l E). cbn [fst snd].
    split; [ reflexivity | ]. split; [ reflexivity | ]. split.
    + intros H. exfalso. apply H. unfold tracked. rewrite E. eauto.
    + split; [ | split; reflexivity ].
      intros n'. apply (Telemetry_track_old n' f w l E).
  - rewrite (Telemetry_track_new n f w E). cbn [fst snd].
    split; [ reflexivity | ]. split.
    + intros [l H]. congruence.
    + split; [ intros _; repeat split; reflexivity | ].
      split; [ | split; reflexivity ].
      intros n'. eapply Telemetry_track_old. cbn [Telemetry_logs].
      apply lookup_insert_eq.
Qed.

Lemma Telemetry_track_clock (n : option str) (f : function) (w : World A) :
  clock (Telemetry_track n f w).2 = clock w
  /\ ticks (Telemetry_track n f w).2 = ticks w
  /\ tracked (Telemetry_track n f w).2 (fn_id f).
Proof.
  destruct (Telemetry_logs w !! fn_id f) as [l | ] eqn:E.
  - rewrite (Telemetry_track_old n f w l E). cbn [snd].
    repeat split. unfold tracked. rewrite E. eauto.
  - rewrite (Telemetry_track_new n f w E). cbn [snd clock ticks].
    repeat split. unfold tracked. cbn [Telemetry_logs].
    rewrite lookup_insert_eq. eauto.
Qed.

Lemma Telemetry_record_tracked (f : function) (d : float) (w : World A) (l : ref) :
  Telemetry_logs w !! fn_id f = Some l ->
  Telemetry_record f d w = (Ok tt, set_store (Log_record l d (store w)).2 w).
Proof.
  intros H. unfold Telemetry_record, mbind, prog_bind, get. rewrite H.
  unfold on_store.
  pose proof (Log_record_ok l d (store w)) as Hok.
  destruct (Log_record l d (store w)) as [r st']. cbn in Hok. subst r. reflexivity.
Qed.

Lemma Log_record_records (st : LogStore) (l : ref) (d : float) :
  records (Log_record l d st).2 l = records st l ++ [d].
Proof.
  unfold Log_record.
  destruct (own_records (instance st l)) as [rs | ] eqn:Eown.
  - assert (heap st !! l = Some (instance st l)) as Hl.
    { apply instance_lookup. left. rewrite Eown. eauto. }
    cbn [snd]. unfold records. rewrite instance_set_heap_insert by exact Hl.
    rewrite decide_True by reflexivity. rewrite Eown. reflexivity.
  - cbn [snd]. unfold records.
    change (instance (mkLogStore (heap st) (Log_children st) (Log_records st ++ [d])) l)
      with (instance st l).
    rewrite Eown. reflexivity.
Qed.

(** The steps of a timed call once the callee has returned. *)
Lemma timed_tail (f : function) (start : float) (w2 : World A) (l : ref) (v : value) :
  Telemetry_logs w2 !! fn_id f = Some l ->
  (end_ ← time_time; Telemetry_record f (fsub end_ start);; mret v) w2
  = (Ok v,
     mkWorld (self_canvas w2) (Canvas_objects w2) (Telemetry_roots w2) (Telemetry_logs w2)
       (Log_record l (fsub (clock w2 (ticks w2)) start) (store w2)).2
       (next_function w2) (clock w2) (S (ticks w2))).
Proof.
  intros H.
  erewrite bind_ok; [ | apply time_time_eq ].
  erewrite bind_ok; [ | apply Telemetry_record_tracked; exact H ].
  reflexivity.
Qed.

(** X21.  The direct form of [measure], when the callback returns: one
    sample, the clock reading after the call minus the reading before it, is
    appended to the records of the callback's Log; the clock is read twice
    and nothing else of the world changes after the callback. *)
Theorem Telemetry_measure_records (n : option str) (f : function)
    (call : prog (World A) value) (w w2 : World A) (v : value) (l : ref) :
  call (time_time (Telemetry_track n f w).2).2 = (Ok v, w2) ->
  Telemetry_logs w2 !! fn_id f = Some l ->
  exists w3,
    Telemetry_measure n f call w = (Ok VNone, w3)
    /\ records (store w3) l
       = records (store w2) l ++ [fsub (clock w2 (ticks w2)) (clock w (ticks w))]
    /\ ticks w3 = S (ticks w2)
    /\ self_canvas w3 = self_canvas w2 /\ Canvas_objects w3 = Canvas_objects w2
    /\ Telemetry_logs w3 = Telemetry_logs w2 /\ Telemetry_roots w3 = Telemetry_roots w2.
Proof.
  intros Hcall Hl.
  destruct (Telemetry_track_once n f w) as (Hok & _).
  destruct (Telemetry_track_clock n f w) as (Hc & Ht & _).
  destruct (Telemetry_track n f w) as [r w1] eqn:Et. cbn [fst snd] in *. subst r.
  unfold Telemetry_measure.
  erewrite bind_ok; [ | exact Et ].
  erewrite bind_ok; [ | apply time_time_eq ].
  rewrite time_time_eq in Hcall. cbn [snd] in Hcall.
  erewrite bind_ok; [ | exact Hcall ].
  rewrite (timed_tail f _ w2 l VNone Hl).
  eexists. split; [ reflexivity | ]. cbn [store ticks self_canvas Canvas_objects
    Telemetry_logs Telemetry_roots].
  rewrite Log_record_records, Hc, Ht. repeat split; reflexivity.
Qed.

(** X22.  The direct form of [measure], when the callback raises: the
    exception passes through, the world is left as the callback left it, so
    no sample is recorded; the Log of the callback was made before the
    call. *)
Theorem Telemetry_measure_raises (n : option str) (f : function)
    (call : prog (World A) value) (w w2 : World A) (e : exn) :
  call (time_time (Telemetry_track n f w).2).2 = (Raise e, w2) ->
  Telemetry_measure n f call w = (Raise e, w2)
  /\ tracked (time_time (Telemetry_track n f w).2).2 (fn_id f).
Proof.
  intros Hcall.
  destruct (Telemetry_track_once n f w) as (Hok & _).
  destruct (Telemetry_track_clock n f w) as (_ & _ & Htr).
  destruct (Telemetry_track n f w) as [r w1] eqn:Et. cbn [fst snd] in *. subst r.
  split; [ | rewrite time_time_eq; exact Htr ].
  unfold Telemetry_measure.
  erewrite bind_ok; [ | exact Et ].
  erewrite bind_ok; [ | apply time_time_eq ].
  rewrite time_time_eq in Hcall. cbn [snd] in Hcall.
  erewrite bind_raise; [ reflexivity | exact Hcall ].
Qed.

(** X23.  The decorating form of [measure], when the decorated function
    returns: the wrapper returns the function's result and appends one
    sample, the clock reading after the call minus the reading before it, to
    the records of the function's Log. *)
Theorem Telemetry_wrapper_records (func : function) (call : prog (World A) value)
    (w w2 : World A) (v : value) (l : ref) :
  call (time_time w).2 = (Ok v, w2) ->
  Telemetry_logs w2 !! fn_id func = Some l ->
  exists w3,
    Telemetry_wrapper func call w = (Ok v, w3)
    /\ records (store w3) l
       = records (store w2) l ++ [fsub (clock w2 (ticks w2)) (clock w (ticks w))]
    /\ ticks w3 = S (ticks w2)
    /\ self_canvas w3 = self_canvas w2 /\ Canvas_objects w3 = Canvas_objects w2
    /\ Telemetry_logs w3 = Telemetry_logs w2 /\ Telemetry_roots w3 = Telemetry_roots w2.
Proof.
  intros Hcall Hl.
  unfold Telemetry_wrapper.
  erewrite bind_ok; [ | apply time_time_eq ].
  rewrite time_time_eq in Hcall. cbn [snd] in Hcall.
  erewrite bind_ok; [ | exact Hcall ].
  rewrite (timed_tail func _ w2 l v Hl).
  eexists. split; [ reflexivity | ]. cbn [store ticks self_canvas Canvas_objects
    Telemetry_logs Telemetry_roots].
  rewrite Log_record_records. repeat split; reflexivity.
Qed.

(** X24.  The decorating form of [measure], when things go wrong: an
    exception of the decorated function passes through the wrapper with the
    world as the function left it, so no sample is recorded; and if the
    function has no entry in [logs] when it returns, the wrapper raises
    [KeyError] in place of returning the result. *)
Theorem Telemetry_wrapper_raises (func : function) (call : prog (World A) value)
    (w w2 : World A) :
  (forall e, call (time_time w).2 = (Raise e, w2) ->
             Telemetry_wrapper func call w = (Raise e, w2))
  /\ (forall v, call (time_time w).2 = (Ok v, w2) ->
                Telemetry_logs w2 !! fn_id func = None ->
                (Telemetry_wrapper func call w).1 = Raise KeyError).
Proof.
  split.
  - intros e Hcall. unfold Telemetry_wrapper.
    erewrite bind_ok; [ | apply time_time_eq ].
    rewrite time_time_eq in Hcall. cbn [snd] in Hcall.
    erewrite bind_raise; [ reflexivity | exact Hcall ].
  - intros v Hcall Hl. unfold Telemetry_wrapper.
    erewrite bind_ok; [ | apply time_time_eq ].
    rewrite time_time_eq in Hcall. cbn [snd] in Hcall.
    erewrite bind_ok; [ | exact Hcall ].
    erewrite bind_ok; [ | apply time_time_eq ].
    unfold Telemetry_record, mbind at 1, prog_bind at 1.
    unfold mbind at 1, prog_bind at 1, get. cbn [Telemetry_logs]. rewrite Hl.
    reflexivity.
Qed.

End TelemetryFacts.

Lemma Telemetry_measure_records_witness :
  exists w3,
    Telemetry_measure (Some (py "answer")) answer answer_call small_world = (Ok VNone, w3)
    /\ records (store w3) 2%nat
       = records (store (time_time (Telemetry_track (Some (py "answer")) answer
                                      small_world).2).2) 2%nat
         ++ [fsub (decimal 1 0) (decimal 0 0)].
Proof.
  destruct (Telemetry_measure_records (Some (py "answer")) answer answer_call small_world
              (time_time (Telemetry_track (Some (py "answer")) answer small_world).2).2
              (VInt 42) 2%nat) as (w3 & E & R & _).
  - reflexivity.
  - vm_compute. reflexivity.
  - exists w3. split; [ exact E | exact R ].
Defined.

Lemma Telemetry_measure_raises_witness :
  Telemetry_measure None answer failing_call small_world
  = (Raise ValueError, (time_time (Telemetry_track None answer small_world).2).2)
  /\ tracked (time_time (Telemetry_track None answer small_world).2).2 (fn_id answer).
Proof.
  apply (Telemetry_measure_raises None answer failing_call small_world). reflexivity.
Defined.

Lemma Telemetry_wrapper_records_witness :
  exists w3,
    Telemetry_wrapper draw_function answer_call small_world = (Ok (VInt 42), w3)
    /\ records (store w3) 1%nat
       = records (store (time_time small_world).2) 1%nat
         ++ [fsub (decimal 1 0) (decimal 0 0)].
Proof.
  destruct (Telemetry_wrapper_records draw_function answer_call small_world
              (time_time small_world).2 (VInt 42) 1%nat) as (w3 & E & R & _).
  - reflexivity.
  - vm_compute. reflexivity.
  - exists w3. split; [ exact E | exact R ].
Defined.

(** ** Canvas.draw and the Logs it makes *)

Section DrawFacts.

Context {A : Type} {Object_A : Object A}.

Lemma on_canvas_returns (m : prog Canvas unit) (w : World A) :
  (m (self_canvas w)).1 = Ok tt ->
  (on_canvas m;; mret VNone) w = (Ok VNone, set_canvas (m (self_canvas w)).2 w).
Proof.
  intros Hm. unfold on_canvas, mbind, prog_bind.
  destruct (m (self_canvas w)) as [[[] | e] cv']; [ reflexivity | discriminate Hm ].
Qed.

(** The direct form of [measure] on a function that has no Log yet and a
    method of the canvas that returns. *)
Lemma Telemetry_measure_new (n : option str) (f : function) (m : prog Canvas unit)
    (w : World A) :
  Telemetry_logs w !! fn_id f = None ->
  (m (self_canvas w)).1 = Ok tt ->
  Telemetry_measure n f (on_canvas m;; mret VNone) w
  = (Ok VNone,
     mkWorld (m (self_canvas w)).2 (Canvas_objects w)
       (Telemetry_roots w ++ [List.length (heap (store w))])
       (<[fn_id f := List.length (heap (store w))]> (Telemetry_logs w))
       (mkLogStore (heap (store w) ++ [mkLog (log_name n f) None None])
          (Log_children (store w))
          (Log_records (store w) ++ [fsub (clock w (S (ticks w))) (clock w (ticks w))]))
       (next_function w) (clock w) (S (S (ticks w)))).
Proof.
  intros Hnew Hm.
  unfold Telemetry_measure.
  erewrite bind_ok; [ | apply Telemetry_track_new; exact Hnew ].
  erewrite bind_ok; [ | apply time_time_eq ].
  cbn [self_canvas Canvas_objects Telemetry_roots Telemetry_logs store next_function clock ticks].
  erewrite bind_ok; [ | apply on_canvas_returns; exact Hm ].
  rewrite (timed_tail f _ _ (List.length (heap (store w))) VNone)
    by (cbn; apply lookup_insert_eq).
  f_equal. unfold set_canvas.
  cbn [self_canvas Canvas_objects Telemetry_roots Telemetry_logs store next_function clock ticks].
  f_equal.
  unfold Log_record, instance, set_heap. cbn [heap Log_children Log_records].
  rewrite list_lookup_middle by reflexivity. reflexivity.
Qed.

(** One round of the loop of [Canvas.draw], for a [lambda] that is not yet
    a key of [logs] and a drawable whose [draw] returns. *)
Lemma draw_step (obj : A) (w : World A) :
  Telemetry_logs w !! next_function w = None ->
  (draw obj (self_canvas w)).1 = Ok tt ->
  (f ← new_lambda;
   _ ← Telemetry_measure (Some (py "Object")) f (on_canvas (draw obj);; mret VNone);
   mret tt) w
  = (Ok tt,
     mkWorld (draw obj (self_canvas w)).2 (Canvas_objects w)
       (Telemetry_roots w ++ [List.length (heap (store w))])
       (<[next_function w := List.length (heap (store w))]> (Telemetry_logs w))
       (mkLogStore (heap (store w) ++ [object_log]) (Log_children (store w))
          (Log_records (store w) ++ [fsub (clock w (S (ticks w))) (clock w (ticks w))]))
       (S (next_function w)) (clock w) (S (S (ticks w)))).
Proof.
  intros Hnew Hdraw.
  erewrite bind_ok; [ | reflexivity ].
  erewrite bind_ok; [ | apply Telemetry_measure_new; [ exact Hnew | exact Hdraw ] ].
  reflexivity.
Qed.

Lemma draw_loop_logs (objs : list A) (w : World A) :
  lambda_fresh w ->
  (for_each objs draw (self_canvas w)).1 = Ok tt ->
  exists w',
    for_each objs (fun obj =>
      f ← new_lambda;
      _ ← Telemetry_measure (Some (py "Object")) f (on_canvas (draw obj);; mret VNone);
      mret tt) w
    = (Ok tt, w')
    /\ Telemetry_roots w'
       = Telemetry_roots w ++ seq (List.length (heap (store w))) (List.length objs)
    /\ heap (store w') = heap (store w) ++ replicate (List.length objs) object_log
    /\ Log_children (store w') = Log_children (store w)
    /\ List.length (Log_records (store w'))
       = (List.length (Log_records (store w)) + List.length objs)%nat
    /\ next_function w' = (next_function w + List.length objs)%nat
    /\ ticks w' = (ticks w + 2 * List.length objs)%nat
    /\ clock w' = clock w
    /\ lambda_fresh w'
    /\ (forall g, tracked w g -> Telemetry_logs w' !! g = Telemetry_logs w !! g).
Proof.
  revert w. induction objs as [ | obj objs IH]; intros w Hfresh Hdraw.
  - exists w. cbn. rewrite !app_nil_r, !Nat.add_0_r. repeat split; auto.
  - assert (Telemetry_logs w !! next_function w = None) as Hnew.
    { destruct (Telemetry_logs w !! next_function w) as [l | ] eqn:E; [ | reflexivity ].
      assert (tracked w (next_function w)) as Ht by (unfold tracked; rewrite E; eauto).
      apply Hfresh in Ht. lia. }
    cbn [for_each] in Hdraw. unfold mbind, prog_bind in Hdraw.
    destruct (draw obj (self_canvas w)) as [[[] | e] cv1] eqn:Ed; [ | discriminate Hdraw ].
    pose proof (draw_step obj w Hnew) as Hstep. rewrite Ed in Hstep.
    specialize (Hstep eq_refl). cbn [snd] in Hstep.
    match type of Hstep with _ = (Ok tt, ?w1) =>
      destruct (IH w1) as (w' & E' & Hr & Hh & Hc & Hn & Hf & Ht & Hk & Hfr & Hl) end.
    + intros k [l Hk]. cbn [Telemetry_logs next_function] in *.
      destruct (decide (k = next_function w)) as [-> | Hne]; [ lia | ].
      rewrite lookup_insert_ne in Hk by congruence.
      assert (tracked w k) as Ht by (unfold tracked; rewrite Hk; eauto).
      apply Hfresh in Ht. lia.
    + exact Hdraw.
    + exists w'. cbn [for_each].
      erewrite bind_ok; [ | exact Hstep ].
      split; [ exact E' | ].
      cbn [self_canvas Canvas_objects Telemetry_roots Telemetry_logs store next_function
             clock ticks heap Log_children Log_records] in *.
      rewrite length_app in Hr, Hn. cbn [List.length] in *.
      split; [ rewrite Hr, <- app_assoc; cbn; do 2 f_equal; f_equal; lia | ].
      split; [ rewrite Hh, <- app_assoc; reflexivity | ].
      split; [ exact Hc | ].
      split; [ rewrite Hn; lia | ].
      split; [ lia | ]. split; [ lia | ]. split; [ exact Hk | ].
      split; [ exact Hfr | ].
      intros g Hg. rewrite Hl.
      * apply lookup_insert_ne. intros <-. apply Hfresh in Hg. lia.
      * destruct Hg as [l' Hg]. unfold tracked. cbn [Telemetry_logs].
        rewrite lookup_insert_ne; [ rewrite Hg; eauto | ].
        intros <-. congruence.
Qed.

(** A sorted list is its own sorting. *)
Lemma sort_by_key_sorted_id (key : A -> Z) (l : list A) :
  StronglySorted (fun u v => key u <= key v) l -> sort_by_key key l = l.
Proof.
  induction 1 as [ | a l Hs IH Hall]; [ reflexivity | ].
  cbn [sort_by_key]. rewrite IH.
  destruct l as [ | b l' ]; [ reflexivity | ].
  cbn [insert_by_key]. inversion Hall as [ | ? ? Hab _ ]; subst.
  destruct (Z.leb_spec (key a) (key b)); [ reflexivity | lia ].
Qed.

Lemma Canvas_draw_body_logs (w : World A) :
  lambda_fresh w ->
  (for_each (sort_by_key layer (Canvas_objects w)) draw (self_canvas w)).1 = Ok tt ->
  exists w',
    Canvas_draw_body w = (Ok VNone, w')
    /\ Telemetry_roots w'
       = Telemetry_roots w ++ seq (List.length (heap (store w))) (List.length (Canvas_objects w))
    /\ heap (store w')
       = heap (store w) ++ replicate (List.length (Canvas_objects w)) object_log
    /\ Log_children (store w') = Log_children (store w)
    /\ List.length (Log_records (store w'))
       = (List.length (Log_records (store w)) + List.length (Canvas_objects w))%nat
    /\ next_function w' = (next_function w + List.length (Canvas_objects w))%nat
    /\ ticks w' = (ticks w + 2 * List.length (Canvas_objects w))%nat
    /\ clock w' = clock w
    /\ lambda_fresh w'
    /\ (forall g, tracked w g -> Telemetry_logs w' !! g = Telemetry_logs w !! g).
Proof.
  intros Hfresh Hdraw.
  pose (sorted := sort_by_key layer (Canvas_objects w)).
  assert (List.length sorted = List.length (Canvas_objects w)) as Hlen.
  { apply Permutation_length, sort_by_key_perm. }
  destruct (draw_loop_logs sorted (set_objects sorted w))
    as (w' & E & Hr & Hh & Hc & Hn & Hf & Ht & Hk & Hfr & Hl).
  { exact Hfresh. }
  { exact Hdraw. }
  exists w'. split.
  - unfold Canvas_draw_body.
    erewrite bind_ok; [ | reflexivity ].
    erewrite bind_ok; [ | reflexivity ].
    cbn [Canvas_objects set_objects]. fold sorted.
    erewrite bind_ok; [ | exact E ]. reflexivity.
  - rewrite Hlen in *. cbn [set_objects Telemetry_roots store next_function ticks clock] in *.
    repeat split; assumption.
Qed.

(** X25.  Each call of [Canvas.draw] gives every drawable a Log of its own:
    the [lambda] handed to [measure] is a new function each time, so a call
    that draws [n] drawables appends [n] new Logs named [Object] to [roots],
    never reusing an earlier one, and [n + 1] samples to the class's list of
    records (one per drawable and one for [draw] itself). *)
Theorem Canvas_draw_new_logs (w : World A) (ld : ref) :
  lambda_fresh w ->
  Telemetry_logs w !! fn_id draw_function = Some ld ->
  own_records (instance (store w) ld) = None ->
  (for_each (sort_by_key layer (Canvas_objects w)) draw (self_canvas w)).1 = Ok tt ->
  (Canvas_draw w).1 = Ok VNone
  /\ Telemetry_roots (Canvas_draw w).2
     = Telemetry_roots w ++ seq (List.length (heap (store w))) (List.length (Canvas_objects w))
  /\ heap (store (Canvas_draw w).2)
     = heap (store w) ++ replicate (List.length (Canvas_objects w)) object_log
  /\ List.length (Log_records (store (Canvas_draw w).2))
     = (List.length (Log_records (store w)) + List.length (Canvas_objects w) + 1)%nat
  /\ next_function (Canvas_draw w).2
     = (next_function w + List.length (Canvas_objects w))%nat
  /\ lambda_fresh (Canvas_draw w).2.
Proof.
  intros Hfresh Hld Hown Hdraw.
  assert (tracked w (fn_id draw_function)) as Htr by (unfold tracked; rewrite Hld; eauto).
  destruct (Canvas_draw_body_logs (time_time w).2)
    as (w' & E & Hr & Hh & Hc & Hn & Hf & Ht & Hk & Hfr & Hl).
  { rewrite time_time_eq. exact Hfresh. }
  { rewrite time_time_eq. exact Hdraw. }
  rewrite time_time_eq in E, Hr, Hh, Hc, Hn, Hf, Ht, Hk, Hl.
  cbn [snd Canvas_objects Telemetry_roots Telemetry_logs store next_function ticks clock]
    in E, Hr, Hh, Hc, Hn, Hf, Ht, Hk, Hl.
  assert (Telemetry_logs w' !! fn_id draw_function = Some ld) as Hld'.
  { rewrite Hl; [ exact Hld | exact Htr ]. }
  assert (own_records (instance (store w') ld) = None) as Hown'.
  { unfold instance in *. rewrite Hh.
    destruct (decide (ld < List.length (heap (store w)))%nat) as [Hlt | Hge].
    - rewrite lookup_app_l by exact Hlt. exact Hown.
    - rewrite lookup_app_r by lia.
      destruct (replicate _ object_log !! _) as [o | ] eqn:Eo; [ | reflexivity ].
      apply lookup_replicate in Eo as [-> _]. reflexivity. }
  unfold Canvas_draw, Telemetry_wrapper.
  erewrite bind_ok; [ | apply time_time_eq ].
  erewrite bind_ok; [ | exact E ].
  rewrite (timed_tail draw_function _ w' ld VNone Hld').
  cbn [fst snd Telemetry_roots store next_function].
  unfold Log_record. rewrite Hown'.
  cbn [snd heap Log_records].
  split; [ reflexivity | ]. split; [ exact Hr | ]. split; [ exact Hh | ].
  split; [ rewrite length_app, Hn; cbn; lia | ]. split; [ exact Hf | ].
  intros k Hk'. apply Hfr. exact Hk'.
Qed.

(** X26.  [Canvas.draw] leaves [Canvas.objects] sorted, so a second call
    keeps the order, and it does not clear the canvas: the second call runs
    the same drawables, in the same order, over the pixels the first call
    left. *)
Theorem Canvas_draw_again (w : World A) :
  Canvas_objects (Canvas_draw w).2 = sort_by_key layer (Canvas_objects w)
  /\ Canvas_objects (Canvas_draw (Canvas_draw w).2).2 = Canvas_objects (Canvas_draw w).2
  /\ self_canvas (Canvas_draw (Canvas_draw w).2).2
     = (for_each (Canvas_objects (Canvas_draw w).2) draw (self_canvas (Canvas_draw w).2)).2.
Proof.
  destruct (Canvas_draw_spec w) as (_ & Ho & _).
  destruct (Canvas_draw_spec (Canvas_draw w).2) as (Hc' & Ho' & _).
  cbv zeta in Ho, Hc', Ho'.
  assert (sort_by_key layer (Canvas_objects (Canvas_draw w).2)
          = Canvas_objects (Canvas_draw w).2) as Hid.
  { rewrite Ho. apply sort_by_key_sorted_id, sort_by_key_sorted. }
  split; [ exact Ho | ]. split.
  - rewrite Ho'. exact Hid.
  - rewrite Hc', Hid. reflexivity.
Qed.

End DrawFacts.

Lemma lambda_fresh_initial_world {A : Type} (cv : Canvas) (now : nat -> float) :
  lambda_fresh (@initial_world A cv now)
  /\ Telemetry_logs (@initial_world A cv now) !! fn_id draw_function = Some 1%nat
  /\ store (@initial_world A cv now)
     = mkLogStore [mkLog (py "show") None None; mkLog (py "draw") None None] [] [].
Proof.
  unfold initial_world.
  erewrite bind_ok; [ | apply Telemetry_track_new; reflexivity ].
  unfold Telemetry_decorator.
  rewrite Telemetry_track_new by reflexivity.
  cbn [snd]. split; [ | split; reflexivity ].
  intros k [l Hk]. cbn [Telemetry_logs next_function] in *.
  apply lookup_insert_Some in Hk as [[<- _] | [_ Hk]]; [ cbn; lia | ].
  apply lookup_insert_Some in Hk as [[<- _] | [_ Hk]]; [ cbn; lia | ].
  rewrite lookup_empty in Hk. discriminate.
Qed.

Lemma Canvas_draw_new_logs_witness :
  (Canvas_draw (Canvas_add tile small_world).2).1 = Ok VNone
  /\ Telemetry_roots (Canvas_draw (Canvas_add tile small_world).2).2
     = [0; 1; 2]%nat.
Proof.
  destruct (@lambda_fresh_initial_world Rectangle (Canvas_init 4 4 (py "Canvas"))
              (fun n => decimal (Z.of_nat n) 0)) as (Hf & Hl & Hs).
  destruct (Canvas_draw_new_logs (Canvas_add tile small_world).2 1%nat)
    as (Hok & Hr & _).
  - exact Hf.
  - exact Hl.
  - vm_compute. reflexivity.
  - vm_compute. reflexivity.
  - split; [ exact Hok | ]. rewrite Hr. vm_compute. reflexivity.
Defined.

(** ** Floats: how far rounding moves a value *)

Lemma shr_fexp_exact (m e : Z) :
  fexp prec emax (Zdigits2 m + e) <= e ->
  shr_fexp prec emax m e loc_Exact = (shr_record_of_loc m loc_Exact, e).
Proof.
  intros H. unfold shr_fexp, shr.
  destruct (fexp prec emax (Zdigits2 m + e) - e) as [ | n | n] eqn:En; [ reflexivity | lia | reflexivity ].
Qed.

Lemma pow2_pos (k : Z) : 0 <= k -> 0 < 2 ^ k.
Proof. intros H. apply Z.pow_pos_nonneg; lia. Qed.

Lemma div_pow2_bounds (m k : Z) :
  0 <= m -> 0 <= k -> m / 2 ^ k * 2 ^ k <= m < (m / 2 ^ k + 1) * 2 ^ k.
Proof.
  intros Hm Hk. pose proof (pow2_pos k Hk) as Hp.
  pose proof (Z.div_mod m (2 ^ k) ltac:(lia)) as Hd.
  pose proof (Z.mod_pos_bound m (2 ^ k) Hp) as Hr. nia.
Qed.

(** Rounding a positive mantissa of moderate size moves its value by less
    than four units of the last place. *)
Lemma binary_round_aux_near (m : positive) (e b : Z) :
  bits m + e <= b -> - 1021 <= b <= 970 -> - scale <= e ->
  small (b + 1) (binary_round_aux prec emax false (Z.pos m) e loc_Exact) = true
  /\ - 1074 <= expo (binary_round_aux prec emax false (Z.pos m) e loc_Exact)
  /\ Z.abs (units (binary_round_aux prec emax false (Z.pos m) e loc_Exact)
            - Z.pos m * 2 ^ (e + scale)) <= 2 ^ (b - 51 + scale).
Proof.
  intros Hb Hrange He.
  assert (small (b + 1) (binary_round_aux prec emax false (Z.pos m) e loc_Exact) = true) as Hs.
  { pose proof (binary_round_aux_small false m e loc_Exact b Hb ltac:(lia)) as H.
    destruct (binary_round_aux _ _ _ _ _ _) as [ | | | s' m' e']; try contradiction.
    - reflexivity.
    - destruct H as [-> H]. cbn. apply Z.leb_le. exact H. }
  split; [ exact Hs | ].
  pose proof (bits_pos m) as Hbm.
  assert (0 < 2 ^ (b - 51 + scale)) as Hbig by (apply pow2_pos; unfold scale; lia).
  destruct (Z.le_gt_cases (fexp prec emax (Zdigits2 (Z.pos m) + e)) e) as [Hfe | Hfe].
  - (* nothing to round *)
    assert (binary_round_aux prec emax false (Z.pos m) e loc_Exact = S754_finite false m e) as E.
    { unfold binary_round_aux. rewrite (shr_fexp_exact _ _ Hfe).
      cbn [shr_record_of_loc shr_m loc_of_shr_record round_nearest_even].
      rewrite (shr_fexp_exact _ _ Hfe). cbn [shr_record_of_loc shr_m].
      change (Zdigits2 (Z.pos m)) with (bits m) in Hfe.
      unfold fexp, SpecFloat.emin, prec, emax in *.
      destruct (Z.leb_spec e (1024 - 53)); [ reflexivity | lia ]. }
    rewrite E. cbn [expo units].
    change (Zdigits2 (Z.pos m)) with (bits m) in Hfe.
    unfold fexp, SpecFloat.emin, prec, emax in Hfe.
    split; [ lia | ]. rewrite Z.sub_diag. cbn [Z.abs]. lia.
  - (* the mantissa is cut at the exponent of the format *)
    revert Hs. unfold binary_round_aux.
    pose proof (shr_fexp_spec (Z.pos m) e loc_Exact ltac:(lia)) as [He1 Hm1].
    destruct (shr_fexp prec emax (Z.pos m) e loc_Exact) as [mrs1 e1]. cbn [fst snd] in He1, Hm1.
    rewrite <- He1 in Hm1.
    pose proof (round_nearest_even_range (shr_m mrs1) (loc_of_shr_record mrs1)) as Hr.
    set (mr := round_nearest_even (shr_m mrs1) (loc_of_shr_record mrs1)) in *.
    assert (0 <= shr_m mrs1) as H1 by (rewrite Hm1; apply Z.div_pos; lia).
    pose proof (Zdigits2_div_pow2 (Z.pos m) (e1 - e) ltac:(lia) ltac:(lia)) as Hd1.
    rewrite <- Hm1 in Hd1.
    pose proof (Zdigits2_succ (shr_m mrs1) mr H1 Hr) as Hdr.
    pose proof (shr_fexp_spec mr e1 loc_Exact ltac:(lia)) as [He2 Hm2].
    destruct (shr_fexp prec emax mr e1 loc_Exact) as [mrs2 e2]. cbn [fst snd] in He2, Hm2.
    rewrite <- He2 in Hm2.
    change (Zdigits2 (Z.pos m)) with (bits m) in *.
    unfold fexp, SpecFloat.emin, prec, emax in *.
    assert (e < e1) as Hk by lia.
    assert (e1 <= b - 53) as He1b by lia.
    assert (e1 <= e2 <= e1 + 1) as Hj by lia.
    pose proof (div_pow2_bounds (Z.pos m) (e1 - e) ltac:(lia) ltac:(lia)) as B1.
    rewrite <- Hm1 in B1.
    pose proof (div_pow2_bounds mr (e2 - e1) ltac:(lia) ltac:(lia)) as B2.
    rewrite <- Hm2 in B2.
    assert (2 ^ (e2 - e1) <= 2) as Hq2.
    { change 2 with (2 ^ 1) at 2. apply Z.pow_le_mono_r; lia. }
    pose proof (pow2_pos (e2 - e1) ltac:(lia)) as Hq2p.
    pose proof (pow2_pos (e1 - e) ltac:(lia)) as Hq1p.
    pose proof (pow2_pos (e + scale) ltac:(lia)) as HP.
    assert (2 ^ (e2 + scale) = 2 ^ (e2 - e1) * (2 ^ (e1 - e) * 2 ^ (e + scale))) as Ee2.
    { rewrite <- !Z.pow_add_r by lia. f_equal. lia. }
    assert (4 * (2 ^ (e1 - e) * 2 ^ (e + scale)) <= 2 ^ (b - 51 + scale)) as Hfour.
    { rewrite <- Z.pow_add_r by lia. change 4 with (2 ^ 2).
      rewrite <- Z.pow_add_r by lia. apply Z.pow_le_mono_r; lia. }
    set (Q1 := 2 ^ (e1 - e)) in *. set (P := 2 ^ (e + scale)) in *.
    set (Q2 := 2 ^ (e2 - e1)) in *.
    assert (0 <= shr_m mrs2) as H2 by (rewrite Hm2; apply Z.div_pos; lia).
    destruct (shr_m mrs2) as [ | m2 | m2] eqn:E2; [ | | lia ].
    + intros _. cbn [expo units]. split; [ lia | ].
      apply Z.abs_le. nia.
    + destruct (Z.leb_spec e2 (1024 - 53)); [ | intros Hs; discriminate Hs ].
      intros _. cbn [expo units]. split; [ lia | ].
      rewrite Ee2. apply Z.abs_le. nia.
Qed.

Lemma binary_normalize_near (M e b : Z) :
  0 <= M -> (0 < M -> Zdigits2 M + e <= b) -> - 1021 <= b <= 970 -> - 1074 <= e ->
  small (b + 1) (binary_normalize prec emax M e false) = true
  /\ - 1074 <= expo (binary_normalize prec emax M e false)
  /\ Z.abs (units (binary_normalize prec emax M e false) - M * 2 ^ (e + scale))
     <= 2 ^ (b - 51 + scale).
Proof.
  intros HM Hb Hrange He.
  assert (0 < 2 ^ (b - 51 + scale)) as Hbig by (apply pow2_pos; unfold scale; lia).
  destruct M as [ | p | p]; [ | | lia ].
  - cbn. repeat split; lia.
  - cbn [binary_normalize]. unfold binary_round.
    destruct (shl_align_spec p e (fexp prec emax (Z.pos (digits2_pos p) + e))) as [Hez Hmz].
    destruct (shl_align p e _) as [mz ez]. cbn [fst snd] in Hez, Hmz.
    assert (- 1074 <= ez <= e) as Hez'.
    { rewrite Hez. unfold fexp, SpecFloat.emin, prec, emax. lia. }
    assert (bits mz + ez <= b) as Hbz.
    { rewrite (bits_mul_pow2 p mz (e - ez)) by (rewrite ?Hez; lia || assumption).
      specialize (Hb ltac:(lia)). change (Zdigits2 (Z.pos p)) with (bits p) in Hb. lia. }
    destruct (binary_round_aux_near mz ez b Hbz Hrange ltac:(unfold scale; lia))
      as (Hs & Hx & Hu).
    split; [ exact Hs | ]. split; [ exact Hx | ].
    replace (Z.pos p * 2 ^ (e + scale)) with (Z.pos mz * 2 ^ (ez + scale)); [ exact Hu | ].
    rewrite Hmz, <- Hez, <- Z.mul_assoc, <- Z.pow_add_r by (unfold scale; lia).
    do 2 f_equal. lia.
Qed.

(** A product of floats that are not negative is near the exact product. *)
Lemma fmul_near (bx by' : Z) (x y : float) :
  small bx x = true -> small by' y = true -> - 1021 <= bx + by' <= 970 ->
  - scale <= expo x -> - scale <= expo y -> - scale <= expo x + expo y ->
  small (bx + by' + 1) (fmul x y) = true
  /\ - 1074 <= expo (fmul x y)
  /\ Z.abs (2 ^ scale * units (fmul x y) - units x * units y)
     <= 2 ^ scale * 2 ^ (bx + by' - 51 + scale).
Proof.
  intros Hx Hy Hrange Hex Hey Hexy.
  assert (0 < 2 ^ scale) as HT by (apply pow2_pos; unfold scale; lia).
  assert (0 < 2 ^ (bx + by' - 51 + scale)) as Hbig by (apply pow2_pos; unfold scale; lia).
  apply small_cases in Hx as [[sx ->] | (mx & ex & -> & Hx)];
    apply small_cases in Hy as [[sy ->] | (my & ey & -> & Hy)];
    try (cbn; repeat split; try reflexivity; nia).
  cbn [expo] in Hex, Hey, Hexy.
  unfold fmul, SFmul. cbn [xorb].
  assert (bits (mx * my) + (ex + ey) <= bx + by') as Hb.
  { rewrite !digits2_log2 in *. rewrite Pos2Z.inj_mul.
    pose proof (Z.log2_mul_above (Z.pos mx) (Z.pos my) ltac:(lia) ltac:(lia)). lia. }
  destruct (binary_round_aux_near (mx * my) (ex + ey) _ Hb Hrange Hexy) as (Hs & He & Hu).
  split; [ exact Hs | ]. split; [ exact He | ].
  cbn [units].
  replace (Z.pos mx * 2 ^ (ex + scale) * (Z.pos my * 2 ^ (ey + scale)))
    with (2 ^ scale * (Z.pos (mx * my) * 2 ^ (ex + ey + scale))).
  - rewrite <- Z.mul_sub_distr_l, Z.abs_mul, (Z.abs_eq (2 ^ scale)) by lia.
    apply Z.mul_le_mono_nonneg_l; [ lia | exact Hu ].
  - rewrite Pos2Z.inj_mul.
    replace (2 ^ scale * (Z.pos mx * Z.pos my * 2 ^ (ex + ey + scale)))
      with (Z.pos mx * Z.pos my * (2 ^ scale * 2 ^ (ex + ey + scale))) by ring.
    replace (Z.pos mx * 2 ^ (ex + scale) * (Z.pos my * 2 ^ (ey + scale)))
      with (Z.pos mx * Z.pos my * (2 ^ (ex + scale) * 2 ^ (ey + scale))) by ring.
    f_equal. rewrite <- !Z.pow_add_r by (unfold scale in *; lia). f_equal. lia.
Qed.

(** A sum of floats that are not negative is near the exact sum. *)
Lemma fadd_near (b : Z) (x y : float) :
  small b x = true -> small b y = true -> - 1021 <= b <= 968 ->
  - 1074 <= expo x -> - 1074 <= expo y ->
  small (b + 2) (fadd x y) = true
  /\ - 1074 <= expo (fadd x y)
  /\ Z.abs (units (fadd x y) - (units x + units y)) <= 2 ^ (b - 50 + scale).
Proof.
  intros Hx Hy Hrange Hex Hey.
  assert (small (b + 2) (fadd x y) = true) as Hs by (apply fadd_small; [ | | lia ]; assumption).
  split; [ exact Hs | ]. clear Hs.
  assert (0 < 2 ^ (b - 50 + scale)) as Hbig by (apply pow2_pos; unfold scale; lia).
  apply small_cases in Hx as [[sx ->] | (mx & ex & -> & Hx)];
    apply small_cases in Hy as [[sy ->] | (my & ey & -> & Hy)].
  - destruct sx, sy; cbn; split; lia.
  - cbn in *. split; [ lia | ]. rewrite Z.sub_diag. cbn. lia.
  - cbn in *. split; [ lia | ]. rewrite Z.add_0_r, Z.sub_diag. cbn. lia.
  - cbn [expo] in Hex, Hey. unfold fadd, SFadd. cbn [cond_Zopp].
    destruct (shl_align_spec mx ex (Z.min ex ey)) as [_ Hmx].
    destruct (shl_align_spec my ey (Z.min ex ey)) as [_ Hmy].
    replace (Z.min ex (Z.min ex ey)) with (Z.min ex ey) in Hmx by lia.
    replace (Z.min ey (Z.min ex ey)) with (Z.min ex ey) in Hmy by lia.
    set (ez := Z.min ex ey) in *.
    set (px := (shl_align mx ex ez).1) in *. set (py := (shl_align my ey ez).1) in *.
    assert (Z.pos px < 2 ^ (b - ez)) as Hpx.
    { rewrite Hmx. pose proof (pos_lt_pow2_bits mx).
      apply Z.lt_le_trans with (2 ^ bits mx * 2 ^ (ex - ez)).
      - apply Z.mul_lt_mono_pos_r; [ apply Z.pow_pos_nonneg; lia | assumption ].
      - rewrite <- Z.pow_add_r by (pose proof (bits_pos mx); lia).
        apply Z.pow_le_mono_r; lia. }
    assert (Z.pos py < 2 ^ (b - ez)) as Hpy.
    { rewrite Hmy. pose proof (pos_lt_pow2_bits my).
      apply Z.lt_le_trans with (2 ^ bits my * 2 ^ (ey - ez)).
      - apply Z.mul_lt_mono_pos_r; [ apply Z.pow_pos_nonneg; lia | assumption ].
      - rewrite <- Z.pow_add_r by (pose proof (bits_pos my); lia).
        apply Z.pow_le_mono_r; lia. }
    pose proof (bits_pos mx).
    assert (Zdigits2 (Z.pos px + Z.pos py) + ez <= b + 1) as Hd.
    { assert (Zdigits2 (Z.pos px + Z.pos py) <= b - ez + 1); [ | lia ].
      apply Zdigits2_lt_pow2; [ lia | lia | ].
      rewrite Z.pow_add_r by lia. lia. }
    destruct (binary_normalize_near (Z.pos px + Z.pos py) ez (b + 1)
                ltac:(lia) ltac:(intros _; exact Hd) ltac:(lia) ltac:(lia))
      as (_ & He & Hu).
    split; [ exact He | ].
    replace (b - 50 + scale) with (b + 1 - 51 + scale) by lia.
    replace (units (S754_finite false mx ex) + units (S754_finite false my ey))
      with ((Z.pos px + Z.pos py) * 2 ^ (ez + scale)); [ exact Hu | ].
    cbn [units]. rewrite Hmx, Hmy, Z.mul_add_distr_r.
    rewrite <- !Z.mul_assoc, <- !Z.pow_add_r by (unfold scale; lia).
    do 2 f_equal; f_equal; lia.
Qed.

Lemma valid_alpha_expo (a : float) : valid_alpha a -> - 1074 <= expo a.
Proof.
  intros (Hv & _ & _). destruct a as [s | s | | s m e]; cbn; try lia.
  unfold fvalid in Hv. cbn [valid_binary] in Hv. unfold bounded in Hv.
  apply andb_true_iff in Hv as [Hc _]. unfold canonical_mantissa in Hc.
  apply Z.eqb_eq in Hc. unfold fexp, SpecFloat.emin, prec, emax in Hc. lia.
Qed.

Lemma units_fone : units fone = 2 ^ scale.
Proof. vm_compute. reflexivity. Qed.

(** [1 - alpha] is near the exact difference. *)
Lemma fsub_one_near (a : float) :
  valid_alpha a ->
  small 1 (fsub fone a) = true
  /\ - 1074 <= expo (fsub fone a)
  /\ Z.abs (units (fsub fone a) - (2 ^ scale - units a)) <= 2 ^ (scale - 51)
  /\ 0 <= units a <= 2 ^ scale.
Proof.
  intros H. split; [ apply fsub_one_small; exact H | ].
  pose proof (valid_alpha_expo a H) as Hexp.
  assert (0 < 2 ^ (scale - 51)) as Hbig by (apply pow2_pos; unfold scale; lia).
  assert (0 < 2 ^ scale) as HT by (apply pow2_pos; unfold scale; lia).
  apply valid_alpha_cases in H as [[s ->] | (m & e & -> & Hb & He)].
  - change (fsub fone (S754_zero s)) with fone. rewrite units_fone.
    cbn [units]. split; [ rewrite fone_eq; cbn; lia | ].
    split; [ | lia ]. rewrite Z.sub_0_r, Z.sub_diag. cbn. lia.
  - cbn [expo] in Hexp.
    unfold fsub. rewrite fone_eq. cbn [SFsub cond_Zopp].
    destruct (shl_align_spec 4503599627370496 (- 52) (Z.min (- 52) e)) as [_ H1].
    destruct (shl_align_spec m e (Z.min (- 52) e)) as [_ Hm].
    replace (Z.min (- 52) (Z.min (- 52) e)) with e in H1 by lia.
    replace (Z.min e (Z.min (- 52) e)) with e in Hm by lia.
    replace (Z.min (- 52) e) with e in * by lia.
    rewrite Z.sub_diag, Z.mul_1_r in Hm.
    set (p1 := (shl_align 4503599627370496 (- 52) e).1) in *.
    set (pm := (shl_align m e e).1) in *.
    assert (Z.pos p1 = 2 ^ (- e)) as Hp1.
    { rewrite H1. change (Z.pos 4503599627370496) with (2 ^ 52).
      rewrite <- Z.pow_add_r by lia. f_equal. lia. }
    pose proof (pos_lt_pow2_bits m) as Hlt.
    assert (Z.pos m <= 2 ^ (- e)) as Hle.
    { destruct He as [He | [-> Hm52]]; [ | exact Hm52 ].
      apply Z.lt_le_incl, Z.lt_le_trans with (2 ^ bits m); [ assumption | ].
      apply Z.pow_le_mono_r; pose proof (bits_pos m); lia. }
    assert (2 ^ scale = 2 ^ (- e) * 2 ^ (e + scale)) as ET.
    { rewrite <- Z.pow_add_r by (unfold scale; lia). f_equal. lia. }
    assert (0 < 2 ^ (e + scale)) as HP by (apply pow2_pos; unfold scale; lia).
    destruct (binary_normalize_near (Z.pos p1 - Z.pos pm) e 0) as (_ & Hx & Hu).
    { lia. }
    { intros Hpos. assert (Zdigits2 (Z.pos p1 - Z.pos pm) <= - e); [ | lia ].
      apply Zdigits2_lt_pow2; lia. }
    { lia. }
    { lia. }
    split; [ exact Hx | ]. split.
    + replace (scale - 51) with (0 - 51 + scale) by lia.
      replace (2 ^ scale - units (S754_finite false m e))
        with ((Z.pos p1 - Z.pos pm) * 2 ^ (e + scale)); [ exact Hu | ].
      cbn [units]. rewrite Hp1, Hm, ET. ring.
    + cbn [units]. rewrite ET. split; [ lia | ].
      apply Z.mul_le_mono_nonneg_r; lia.
Qed.

Lemma channel_units (c : Z) :
  valid_channel c -> units (channel c) = c * 2 ^ scale /\ - 52 <= expo (channel c).
Proof.
  intros Hc.
  assert (channel_units_ok c = true) as H.
  { pose proof (forall_below (fun n => channel_units_ok (Z.of_nat n)) 256
                  ltac:(vm_compute; reflexivity) (Z.to_nat c)) as H.
    cbv beta in H. rewrite Z2Nat.id in H by (unfold valid_channel in Hc; lia).
    apply H. unfold valid_channel in Hc. lia. }
  unfold channel_units_ok in H. apply andb_true_iff in H as [H1 H2].
  apply Z.eqb_eq in H1. apply Z.leb_le in H2. auto.
Qed.

(** The float [blend] truncates is within [2 ^ (- 39)] of the exact value of
    the formula. *)
Lemma blend_float_near (c c' : Z) (a : float) :
  valid_channel c -> valid_channel c' -> valid_alpha a ->
  - 1074 <= expo (blend_float (channel c) a (channel c'))
  /\ 0 <= units a <= 2 ^ scale
  /\ Z.abs (units (blend_float (channel c) a (channel c'))
            - (c * units a + c' * (2 ^ scale - units a)))
     <= 2 ^ (scale - 39).
Proof.
  intros Hc Hc' Ha. unfold blend_float.
  destruct (channel_facts c Hc) as (_ & Hs & _).
  destruct (channel_facts c' Hc') as (_ & Hs' & _).
  destruct (channel_units c Hc) as (Uc & Ec).
  destruct (channel_units c' Hc') as (Uc' & Ec').
  pose proof (valid_alpha_expo a Ha) as Ea.
  destruct (fsub_one_near a Ha) as (Ss & Es & Us & HA).
  destruct (fmul_near 8 1 (channel c) a Hs (valid_alpha_small a Ha))
    as (S1 & E1 & U1); try (unfold scale; lia).
  destruct (fmul_near 8 1 (channel c') (fsub fone a) Hs' Ss)
    as (S2 & E2 & U2); try (unfold scale; lia).
  destruct (fadd_near 10 _ _ S1 S2) as (_ & Ev & Uv); try lia.
  split; [ exact Ev | ]. split; [ exact HA | ].
  rewrite Uc in U1. rewrite Uc' in U2.
  set (u1 := units (fmul (channel c) a)) in *.
  set (u2 := units (fmul (channel c') (fsub fone a))) in *.
  set (us := units (fsub fone a)) in *.
  set (uv := units (fadd (fmul (channel c) a) (fmul (channel c') (fsub fone a)))) in *.
  set (A := units a) in *.
  assert (0 < 2 ^ scale) as HT by (apply pow2_pos; unfold scale; lia).
  assert (0 < 2 ^ (scale - 51)) as Heps by (apply pow2_pos; unfold scale; lia).
  assert (2 ^ (8 + 1 - 51 + scale) = 512 * 2 ^ (scale - 51)) as P1.
  { change 512 with (2 ^ 9). rewrite <- Z.pow_add_r by (unfold scale; lia). f_equal; lia. }
  assert (2 ^ (10 - 50 + scale) = 2048 * 2 ^ (scale - 51)) as P2.
  { change 2048 with (2 ^ 11). rewrite <- Z.pow_add_r by (unfold scale; lia). f_equal; lia. }
  assert (2 ^ (scale - 39) = 4096 * 2 ^ (scale - 51)) as P3.
  { change 4096 with (2 ^ 12). rewrite <- Z.pow_add_r by (unfold scale; lia). f_equal; lia. }
  rewrite P1 in U1, U2. rewrite P2 in Uv. rewrite P3.
  set (eps := 2 ^ (scale - 51)) in *. set (T := 2 ^ scale) in *.
  assert (Z.abs (u1 - c * A) <= 512 * eps) as V1.
  { replace (T * u1 - c * T * A) with (T * (u1 - c * A)) in U1 by ring.
    rewrite Z.abs_mul, (Z.abs_eq T) in U1 by lia.
    apply Z.mul_le_mono_pos_l in U1; assumption. }
  assert (Z.abs (u2 - c' * us) <= 512 * eps) as V2.
  { replace (T * u2 - c' * T * us) with (T * (u2 - c' * us)) in U2 by ring.
    rewrite Z.abs_mul, (Z.abs_eq T) in U2 by lia.
    apply Z.mul_le_mono_pos_l in U2; assumption. }
  unfold valid_channel in Hc, Hc'.
  apply Z.abs_le in V1, V2, Us, Uv. apply Z.abs_le. nia.
Qed.

(** The floor of a float that is not negative, from its exact value. *)
Lemma floor_of_float_units (b : Z) (x : float) :
  small b x = true -> - scale <= expo x ->
  floor_of_float x = Ok (units x / 2 ^ scale) /\ int_of_float x = Ok (units x / 2 ^ scale).
Proof.
  intros Hs He.
  assert (0 < 2 ^ scale) as HT by (apply pow2_pos; unfold scale; lia).
  apply small_cases in Hs as [[s ->] | (m & e & -> & _)].
  - cbn [floor_of_float int_of_float units]. rewrite Z.div_0_l by lia. auto.
  - cbn [expo] in He. cbn [floor_of_float int_of_float units cond_Zopp].
    assert (Z.shiftl (Z.pos m) e = Z.pos m * 2 ^ (e + scale) / 2 ^ scale) as ->; [ | auto ].
    destruct (Z.le_gt_cases 0 e) as [H0 | H0].
    + rewrite Z.shiftl_mul_pow2 by lia.
      rewrite Z.pow_add_r, Z.mul_assoc by (unfold scale in *; lia).
      rewrite Z.div_mul by lia. reflexivity.
    + rewrite Z.shiftl_div_pow2 by lia.
      assert (2 ^ scale = 2 ^ (- e) * 2 ^ (e + scale)) as ->.
      { rewrite <- Z.pow_add_r by (unfold scale in *; lia). f_equal. lia. }
      rewrite Z.div_mul_cancel_r; [ reflexivity | | ];
        apply Z.pow_nonzero; unfold scale in *; lia.
Qed.

(** The formula of the specification, from the exact value of alpha. *)
Lemma spec_blend_channel_units (c c' : Z) (a : float) :
  valid_alpha a ->
  spec_blend_channel c a c'
  = Some ((c * units a + c' * (2 ^ scale - units a)) / 2 ^ scale).
Proof.
  intros H. pose proof (valid_alpha_expo a H) as Hexp.
  assert (0 < 2 ^ scale) as HT by (apply pow2_pos; unfold scale; lia).
  apply valid_alpha_cases in H as [[s ->] | (m & e & -> & Hb & He)].
  - unfold spec_blend_channel. cbn [exact_alpha mbind option_bind units].
    f_equal. rewrite Z.div_1_r.
    replace (c * 0 + c' * (2 ^ scale - 0)) with (c' * 2 ^ scale) by ring.
    rewrite Z.div_mul by lia. ring.
  - cbn [expo] in Hexp. unfold spec_blend_channel, exact_alpha, ratio_of.
    destruct (Z.leb_spec 0 e); [ lia | ].
    cbn [mbind option_bind cond_Zopp units]. f_equal.
    assert (2 ^ scale = 2 ^ (- e) * 2 ^ (e + scale)) as ->.
    { rewrite <- Z.pow_add_r by (unfold scale in *; lia). f_equal. lia. }
    replace (c * (Z.pos m * 2 ^ (e + scale))
             + c' * (2 ^ (- e) * 2 ^ (e + scale) - Z.pos m * 2 ^ (e + scale)))
      with ((c * Z.pos m + c' * (2 ^ (- e) - Z.pos m)) * 2 ^ (e + scale)) by ring.
    rewrite Z.div_mul_cancel_r; [ reflexivity | | ];
      apply Z.pow_nonzero; unfold scale in *; lia.
Qed.

(** One channel of [blend]: within one of the exact formula, and in range. *)
Lemma blend_channel_near (c c' : Z) (a : float) :
  valid_channel c -> valid_channel c' -> valid_alpha a ->
  exists z z',
    blend_channel c a c' = Ok z /\ spec_blend_channel c a c' = Some z'
    /\ z' - 1 <= z <= z' + 1 /\ valid_channel z /\ valid_channel z'.
Proof.
  intros Hc Hc' Ha.
  destruct (blend_float_near c c' a Hc Hc' Ha) as (Ev & HA & Hu).
  pose proof (blend_float_small c c' a Hc Hc' Ha) as Hs.
  destruct (floor_of_float_units 13 _ Hs ltac:(unfold scale; lia)) as (_ & Hi).
  assert (0 < 2 ^ scale) as HT by (apply pow2_pos; unfold scale; lia).
  assert (4096 * 2 ^ (scale - 39) <= 2 ^ scale) as Hsmall.
  { change 4096 with (2 ^ 12). rewrite <- Z.pow_add_r by (unfold scale in *; lia).
    apply Z.pow_le_mono_r; unfold scale; lia. }
  assert (0 < 2 ^ (scale - 39)) as Heps by (apply pow2_pos; unfold scale; lia).
  exists (units (blend_float (channel c) a (channel c')) / 2 ^ scale),
         ((c * units a + c' * (2 ^ scale - units a)) / 2 ^ scale).
  split.
  { unfold blend_channel.
    destruct (channel_facts c Hc) as (-> & _).
    destruct (channel_facts c' Hc') as (-> & _).
    cbn [mbind result_bind]. exact Hi. }
  split; [ apply spec_blend_channel_units; exact Ha | ].
  set (uv := units (blend_float (channel c) a (channel c'))) in *.
  set (A := units a) in *. set (T := 2 ^ scale) in *. set (eps := 2 ^ (scale - 39)) in *.
  set (X := c * A + c' * (T - A)) in *.
  unfold valid_channel in *.
  assert (0 <= X <= 255 * T) as HX by (unfold X; nia).
  apply Z.abs_le in Hu.
  assert (0 <= uv) as Huv.
  { unfold uv. destruct (blend_float _ _ _) as [ | | | [ | ] m e]; cbn [units]; lia. }
  assert (X - T < uv < X + T) as Hnear by lia.
  pose proof (Z.div_mod X T ltac:(lia)) as DX.
  pose proof (Z.mod_pos_bound X T HT) as RX.
  pose proof (Z.div_mod uv T ltac:(lia)) as Dv.
  pose proof (Z.mod_pos_bound uv T HT) as Rv.
  set (qx := X / T) in *. set (qv := uv / T) in *.
  repeat split; nia.
Qed.

(** ** Color.blend against the exact formula, and what follows for drawing *)

(** X27.  For channels in 0..255 and a foreground alpha in [0, 1], each
    channel [blend] returns differs by at most one from the floor of
    [fg.c * fg.alpha + bg.c * (1 - fg.alpha)] taken in exact arithmetic (the
    four roundings together move the value by at most [2 ^ (- 39)]), and
    lies in 0..255 again. *)
Theorem Color_blend_near_exact (fg bg : Color) :
  valid_channels fg -> valid_alpha (alpha fg) -> valid_channels bg ->
  exists (c : Color) (r g b : Z),
    Color_blend fg bg = Ok c
    /\ spec_blend_channel (red fg) (alpha fg) (red bg) = Some r
    /\ spec_blend_channel (green fg) (alpha fg) (green bg) = Some g
    /\ spec_blend_channel (blue fg) (alpha fg) (blue bg) = Some b
    /\ r - 1 <= red c <= r + 1 /\ g - 1 <= green c <= g + 1 /\ b - 1 <= blue c <= b + 1
    /\ valid_channels c.
Proof.
  intros (Hr & Hg & Hb) Ha (Hr' & Hg' & Hb').
  destruct (blend_channel_near _ _ _ Hr Hr' Ha) as (r & r' & Er & Sr & Nr & Vr & _).
  destruct (blend_channel_near _ _ _ Hg Hg' Ha) as (g & g' & Eg & Sg & Ng & Vg & _).
  destruct (blend_channel_near _ _ _ Hb Hb' Ha) as (b & b' & Eb & Sb & Nb & Vb & _).
  exists (mkColor r g b fone), r', g', b'.
  unfold Color_blend. rewrite Er, Eg, Eb. cbn [mbind result_bind mret result_ret].
  cbn [red green blue]. unfold valid_channels. cbn [red green blue]. auto 12.
Qed.

Lemma Color_blend_near_exact_witness :
  exists (c : Color) (r g b : Z),
    Color_blend (mkColor 10 200 30 (decimal 7 (- 1))) (mkColor 0 100 255 fone) = Ok c
    /\ spec_blend_channel 10 (decimal 7 (- 1)) 0 = Some r
    /\ spec_blend_channel 200 (decimal 7 (- 1)) 100 = Some g
    /\ spec_blend_channel 30 (decimal 7 (- 1)) 255 = Some b
    /\ r - 1 <= red c <= r + 1 /\ g - 1 <= green c <= g + 1 /\ b - 1 <= blue c <= b + 1
    /\ valid_channels c.
Proof.
  apply (Color_blend_near_exact (mkColor 10 200 30 (decimal 7 (- 1))) (mkColor 0 100 255 fone)).
  - unfold valid_channels, valid_channel. simpl. lia.
  - unfold valid_alpha. repeat split; vm_compute; reflexivity.
  - unfold valid_channels, valid_channel. simpl. lia.
Defined.

Lemma Color_blend_in_range (fg bg : Color) :
  valid_color fg -> valid_channels bg ->
  exists c, Color_blend fg bg = Ok c /\ valid_channels c.
Proof.
  intros [(Hr & Hg & Hb) Ha] (Hr' & Hg' & Hb').
  destruct (blend_channel_near _ _ _ Hr Hr' Ha) as (r & r' & Er & _ & _ & Vr & _).
  destruct (blend_channel_near _ _ _ Hg Hg' Ha) as (g & g' & Eg & _ & _ & Vg & _).
  destruct (blend_channel_near _ _ _ Hb Hb' Ha) as (b & b' & Eb & _ & _ & Vb & _).
  exists (mkColor r g b fone).
  unfold Color_blend. rewrite Er, Eg, Eb. split; [ reflexivity | ].
  unfold valid_channels. cbn [red green blue]. auto.
Qed.

Lemma Rectangle_draw_in_range (r : Rectangle) (cv : Canvas) :
  paintable r cv -> canvas_in_range cv ->
  (Rectangle_draw r cv).1 = Ok tt
  /\ canvas_in_range (Rectangle_draw r cv).2
  /\ (forall i j, is_Some (pixel (Rectangle_draw r cv).2 i j) <-> is_Some (pixel cv i j)).
Proof.
  intros (Hgrid & Vb & Vf) Hcv.
  assert (forall i j, in_box r i j ->
            exists old new, pixel cv i j = Some old /\ blended r cv i j = Some new
                            /\ valid_channels new) as Hb.
  { intros i j Hin. destruct (Hgrid i j Hin) as [old Hold].
    destruct (Color_blend_in_range (colour_at r i j) old) as (new & Hnew & Vnew).
    - unfold colour_at. destruct (decide _); assumption.
    - exact (Hcv i j old Hold).
    - exists old, new. split; [ exact Hold | ]. split; [ | exact Vnew ].
      unfold blended. rewrite Hold. cbn. rewrite Hnew. reflexivity. }
  destruct (paint_cells_result r (cells r) cv (NoDup_cells r)) as [Hok Hpix].
  { intros [i j] Hc. apply elem_of_cells in Hc. cbn.
    destruct (Hb i j Hc) as (old & new & _ & -> & _). eauto. }
  assert (forall i j, ~ in_box r i j ->
            pixel (for_each (cells r) (paint_cell r) cv).2 i j = pixel cv i j) as Hout.
  { intros i j Hn. apply paint_cells_other.
    - intros [i' j'] Hc. apply elem_of_cells in Hc. cbn. apply Hgrid. exact Hc.
    - rewrite elem_of_cells. exact Hn. }
  rewrite Rectangle_draw_cells. split; [ exact Hok | ]. split.
  - intros i j c Hp. destruct (decide (in_box r i j)) as [Hin | Hn].
    + destruct (Hb i j Hin) as (old & new & _ & Hbl & Vnew).
      assert ((i, j) ∈ cells r) as Hc by (apply elem_of_cells; exact Hin).
      pose proof (Hpix (i, j) Hc) as K. cbn in K. rewrite K, Hbl in Hp.
      injection Hp as <-. exact Vnew.
    + rewrite (Hout i j Hn) in Hp. exact (Hcv i j c Hp).
  - intros i j. destruct (decide (in_box r i j)) as [Hin | Hn].
    + destruct (Hb i j Hin) as (old & new & Hold & Hbl & _).
      assert ((i, j) ∈ cells r) as Hc by (apply elem_of_cells; exact Hin).
      pose proof (Hpix (i, j) Hc) as K. cbn in K. rewrite K, Hbl, Hold.
      split; eauto.
    + rewrite (Hout i j Hn). reflexivity.
Qed.

(** X28.  Drawing keeps a canvas in range: when a rectangle lies within
    the grid, its two colours are in range and every pixel has channels in
    0..255, [draw] returns, every pixel still has channels in 0..255, and the
    grid has the same pixels as before, so the rectangle can be drawn
    again. *)
Theorem Rectangle_draw_keeps_range (r : Rectangle) (cv : Canvas) :
  paintable r cv -> canvas_in_range cv ->
  (Rectangle_draw r cv).1 = Ok tt
  /\ canvas_in_range (drawn r cv)
  /\ paintable r (drawn r cv)
  /\ (Rectangle_draw r (drawn r cv)).1 = Ok tt.
Proof.
  intros Hp Hcv.
  destruct (Rectangle_draw_in_range r cv Hp Hcv) as (Hok & Hrange & Hsame).
  assert (paintable r (drawn r cv)) as Hp'.
  { destruct Hp as (Hgrid & Vb & Vf). split; [ | split; assumption ].
    intros i j Hin. apply Hsame, Hgrid. exact Hin. }
  split; [ exact Hok | ]. split; [ exact Hrange | ]. split; [ exact Hp' | ].
  apply (Rectangle_draw_in_range r (drawn r cv) Hp' Hrange).
Qed.

Lemma canvas_in_range_init (w h : Z) (t : str) : canvas_in_range (Canvas_init w h t).
Proof.
  intros i j c Hp. rewrite pixel_Canvas_init_cases in Hp.
  destruct (decide _); [ | discriminate ]. injection Hp as <-.
  unfold valid_channels, valid_channel. cbn. lia.
Qed.

Lemma paintable_init (x0 y0 w0 h0 w h : Z) (t : str) :
  0 <= x0 -> 0 <= y0 -> x0 + w0 <= w -> y0 + h0 <= h ->
  paintable (Rectangle_init x0 y0 w0 h0) (Canvas_init w h t).
Proof.
  intros Hx Hy Hw Hh. split; [ | split ].
  - intros i j [Hi Hj]. cbn in Hi, Hj. rewrite pixel_Canvas_init by lia. eauto.
  - split; [ unfold valid_channels, valid_channel; cbn; lia | ].
    unfold valid_alpha. repeat split; vm_compute; reflexivity.
  - split; [ unfold valid_channels, valid_channel; cbn; lia | ].
    unfold valid_alpha. repeat split; vm_compute; reflexivity.
Qed.

Lemma Rectangle_draw_keeps_range_witness :
  (Rectangle_draw (Rectangle_init 1 1 3 3) (Canvas_init 4 4 (py "Canvas"))).1 = Ok tt
  /\ canvas_in_range (drawn (Rectangle_init 1 1 3 3) (Canvas_init 4 4 (py "Canvas")))
  /\ paintable (Rectangle_init 1 1 3 3)
       (drawn (Rectangle_init 1 1 3 3) (Canvas_init 4 4 (py "Canvas")))
  /\ (Rectangle_draw (Rectangle_init 1 1 3 3)
        (drawn (Rectangle_init 1 1 3 3) (Canvas_init 4 4 (py "Canvas")))).1 = Ok tt.
Proof.
  apply (Rectangle_draw_keeps_range (Rectangle_init 1 1 3 3) (Canvas_init 4 4 (py "Canvas"))).
  - apply paintable_init; lia.
  - apply canvas_in_range_init.
Defined.

(** Rectangles drawn one after the other. *)
Lemma draw_all_in_range (rs : list Rectangle) (cv : Canvas) :
  Forall (fun r => paintable r cv) rs -> canvas_in_range cv ->
  (for_each rs draw cv).1 = Ok tt
  /\ canvas_in_range (for_each rs draw cv).2
  /\ (forall i j, is_Some (pixel (for_each rs draw cv).2 i j) <-> is_Some (pixel cv i j)).
Proof.
  revert cv. induction rs as [ | r rs IH]; intros cv Hall Hcv.
  - cbn [for_each]. unfold mret, prog_ret. cbn [fst snd].
    split; [ reflexivity | ]. split; [ exact Hcv | ]. intros i j. reflexivity.
  - apply Forall_cons in Hall as [Hr Hrs].
    destruct (Rectangle_draw_in_range r cv Hr Hcv) as (Hok & Hrange & Hsame).
    cbn [for_each]. unfold mbind, prog_bind.
    change (draw r cv) with (Rectangle_draw r cv).
    destruct (Rectangle_draw r cv) as [[[] | e] cv1]; [ | discriminate Hok ].
    cbn [fst snd] in Hrange, Hsame.
    destruct (IH cv1) as (Hok' & Hrange' & Hsame').
    + eapply Forall_impl; [ exact Hrs | ].
      intros r' (Hgrid & Vb & Vf). split; [ | split; assumption ].
      intros i j Hin. apply Hsame, Hgrid. exact Hin.
    + exact Hrange.
    + split; [ exact Hok' | ]. split; [ exact Hrange' | ].
      intros i j. rewrite Hsame'. apply Hsame.
Qed.

Lemma Canvas_draw_keeps_tracked {A : Type} {Object_A : Object A} (w : World A) (g : ref) :
  tracked w (fn_id draw_function) -> tracked w g -> tracked (Canvas_draw w).2 g.
Proof.
  intros Hd Hg. unfold Canvas_draw, Telemetry_wrapper.
  rewrite (bind_ok _ _ _ _ _ (time_time_eq w)).
  match goal with |- context [(Canvas_draw_body ≫= _) ?w1] =>
    destruct (Canvas_draw_body_spec w1) as (w2 & E2 & _ & _ & Hkeep) end.
  cbn [self_canvas Canvas_objects] in E2.
  assert (tracked w2 g) as Hg2 by (apply Hkeep; exact Hg).
  assert (tracked w2 (fn_id draw_function)) as Hd2 by (apply Hkeep; exact Hd).
  destruct (for_each _ draw (self_canvas w)) as [[[] | e] cv']; cbn [fst] in E2.
  - rewrite (bind_ok _ _ _ _ _ E2).
    destruct Hd2 as [l Hl]. rewrite (timed_tail draw_function _ w2 l VNone Hl).
    exact Hg2.
  - rewrite (bind_raise _ _ _ _ _ E2). exact Hg2.
Qed.

(** X29.  The compositor stays within range: when every drawable is a
    rectangle inside the grid with colours in range and every pixel has
    channels in 0..255, [Canvas.draw] returns [None], raising nothing, and
    leaves a canvas and a list of drawables of which the same holds, so that
    it can be called again, any number of times. *)
Theorem Canvas_draw_keeps_range (w : World Rectangle) :
  tracked w (fn_id draw_function) ->
  Forall (fun r => paintable r (self_canvas w)) (Canvas_objects w) ->
  canvas_in_range (self_canvas w) ->
  (Canvas_draw w).1 = Ok VNone
  /\ tracked (Canvas_draw w).2 (fn_id draw_function)
  /\ Forall (fun r => paintable r (self_canvas (Canvas_draw w).2)) (Canvas_objects (Canvas_draw w).2)
  /\ canvas_in_range (self_canvas (Canvas_draw w).2).
Proof.
  intros Ht Hall Hcv.
  destruct (Canvas_draw_spec w) as (Hc & Ho & Hres). cbv zeta in Hc, Ho, Hres.
  assert (Forall (fun r => paintable r (self_canvas w))
            (sort_by_key layer (Canvas_objects w))) as Hsorted.
  { rewrite (sort_by_key_perm layer (Canvas_objects w)). exact Hall. }
  destruct (draw_all_in_range _ _ Hsorted Hcv) as (Hok & Hrange & Hsame).
  split; [ rewrite (Hres Ht), Hok; reflexivity | ].
  split; [ apply Canvas_draw_keeps_tracked; assumption | ].
  rewrite Hc, Ho. split; [ | exact Hrange ].
  eapply Forall_impl; [ exact Hsorted | ].
  intros r (Hgrid & Vb & Vf). split; [ | split; assumption ].
  intros i j Hin. apply Hsame, Hgrid. exact Hin.
Qed.

Lemma Canvas_draw_keeps_range_witness :
  (Canvas_draw (Canvas_add tile small_world).2).1 = Ok VNone.
Proof.
  refine (proj1 (Canvas_draw_keeps_range (Canvas_add tile small_world).2 _ _ _)).
  - exists 1%nat. vm_compute. reflexivity.
  - apply Forall_cons. split; [ | constructor ].
    apply (paintable_init 0 0 2 2 4 4); lia.
  - apply canvas_in_range_init.
Defined.
